(** * The budget ledger of [budget.py]: categories, withdrawals and the spend chart

    The Python module keeps one class, [Category], whose instances are
    mutable objects sharing the class attribute [Category.total_withdrawn],
    and one function, [create_spend_chart], that lays a bar chart out in a
    two-dimensional object array and linearises it into text.

    Amounts are Python floats, that is IEEE 754 binary64 numbers: every
    balance starts as [0.0] and every [+=] / [-=] on it is a binary64
    operation (an integer amount is converted to the float of the same
    value).  They are modelled by the kernel's primitive floats, which are
    binary64 too, so rounding, infinities and NaN behave as in Python.
    Text is a [string], one character per [ascii].  Objects live in a store
    indexed by references, because [transfer] mutates two objects and the
    class attribute in one call.

    The file has the definitions first (the class, the chart, the report),
    then facts about binary64 arithmetic, then the properties of each part. *)

From Stdlib Require Import ZArith Lia Floats Ascii String.
From stdpp Require Import base option list strings pretty.

Set Warnings "-inexact-float".
Local Open Scope string_scope.
Local Open Scope list_scope.

(** ** The data model *)

(** A ledger entry, the dict [{"amount": a, "description": d}]. *)
Record entry := Entry { amount : float; description : string }.

(** The instance attributes set by [Category.__init__]. *)
Record Category := mkCategory {
  name : string;
  balance : float;
  amount_withdrawn : float;
  ledger : list entry
}.

(** A reference to a [Category] object: its position in the store. *)
Abbreviation ref := nat (only parsing).

(** The program state: the class attribute and the objects created so far. *)
Record World := mkWorld {
  total_withdrawn : float;
  objects : list Category
}.

(** The state when the module has just been imported:
    [total_withdrawn = 0.0] and no instance yet. *)
Definition initial : World := mkWorld 0%float [].

Arguments Entry amount%_float description%_string.
Arguments mkCategory name%_string (balance amount_withdrawn)%_float ledger%_list.
Arguments mkWorld total_withdrawn%_float objects%_list.

(** ** Stateful code: a state monad over [World]

    [None] stands for following a reference that names no object, which a
    Python program cannot do; every operation below succeeds on references
    that are live (see [exec_total]). *)
Definition Py (A : Type) : Type := World -> option (A * World).

#[global] Instance Py_ret : MRet Py := fun A x w => Some (x, w).
#[global] Instance Py_bind : MBind Py := fun A B f m w =>
  match m w with
  | Some (x, w') => f x w'
  | None => None
  end.

(** Reading an attribute [self.f]. *)
Definition attr {A} (f : Category -> A) (self : ref) : Py A := fun w =>
  match objects w !! self with
  | Some c => Some (f c, w)
  | None => None
  end.

(** Writing the attributes of [self]. *)
Definition setattr (self : ref) (f : Category -> Category) : Py unit := fun w =>
  match objects w !! self with
  | Some c => Some (tt, mkWorld (total_withdrawn w) (<[self := f c]> (objects w)))
  | None => None
  end.

Definition set_balance (v : float) (c : Category) : Category :=
  mkCategory (name c) v (amount_withdrawn c) (ledger c).
Definition set_amount_withdrawn (v : float) (c : Category) : Category :=
  mkCategory (name c) (balance c) v (ledger c).
Definition set_ledger (v : list entry) (c : Category) : Category :=
  mkCategory (name c) (balance c) (amount_withdrawn c) v.

(** Reading and writing [Category.total_withdrawn]. *)
Definition get_total : Py float := fun w => Some (total_withdrawn w, w).
Definition set_total (v : float) : Py unit := fun w =>
  Some (tt, mkWorld v (objects w)).

(** ** The class [Category] *)

(** [Category(category_name)]: a new object; its reference is returned. *)
Definition new (category_name : string) : Py ref := fun w =>
  Some (length (objects w),
        mkWorld (total_withdrawn w)
                (objects w ++ [mkCategory category_name 0%float 0%float []])).

(** [deposit]: [self.balance += amount], then the ledger append. *)
Definition deposit (self : ref) (amount : float) (description : string) : Py unit :=
  b ← attr balance self;
  setattr self (set_balance (b + amount)%float);;
  l ← attr ledger self;
  setattr self (set_ledger (l ++ [Entry amount description])).

(** [check_funds]: [False if amount > self.balance else True]. *)
Definition check_funds (self : ref) (amount : float) : Py bool :=
  b ← attr balance self;
  mret (if (b <? amount)%float then false else true).

(** [withdraw]: the four updates when [check_funds] holds, nothing otherwise. *)
Definition withdraw (self : ref) (amount : float) (description : string) : Py bool :=
  ok ← check_funds self amount;
  if ok : bool then
    b ← attr balance self;
    setattr self (set_balance (b - amount)%float);;
    a ← attr amount_withdrawn self;
    setattr self (set_amount_withdrawn (a + amount)%float);;
    t ← get_total;
    set_total (t + amount)%float;;
    l ← attr ledger self;
    setattr self (set_ledger (l ++ [Entry (- amount)%float description]));;
    mret true
  else mret false.

(** [get_balance]. *)
Definition get_balance (self : ref) : Py float := attr balance self.

(** [transfer]: one funds check, then [withdraw] on [self] (which checks
    again) and [deposit] on [category]. *)
Definition transfer (self : ref) (amount : float) (category : ref) : Py bool :=
  ok ← check_funds self amount;
  if ok : bool then
    target_name ← attr name category;
    _ ← withdraw self amount ("Transfer to " +:+ target_name);
    self_name ← attr name self;
    deposit category amount ("Transfer from " +:+ self_name);;
    mret true
  else mret false.

(** ** Sequences of calls *)

Inductive call :=
| New (category_name : string)
| Deposit (self : ref) (amount : float) (description : string)
| Withdraw (self : ref) (amount : float) (description : string)
| Transfer (self : ref) (amount : float) (category : ref).

Arguments Deposit self%_nat amount%_float description%_string.
Arguments Withdraw self%_nat amount%_float description%_string.
Arguments Transfer self%_nat amount%_float category%_nat.

(** One call and what it returns ([true] for the calls that return nothing). *)
Definition exec (c : call) : Py bool :=
  match c with
  | New n => _ ← new n; mret true
  | Deposit self a d => deposit self a d;; mret true
  | Withdraw self a d => withdraw self a d
  | Transfer self a target => transfer self a target
  end.

(** A sequence of calls, with the list of their results. *)
Fixpoint run (cs : list call) : Py (list bool) :=
  match cs with
  | [] => mret []
  | c :: cs' => r ← exec c; rs ← run cs'; mret (r :: rs)
  end.

(** A sample session: two categories, deposits, withdrawals, a transfer
    and a refused withdrawal. *)
Definition food_clothing : list call :=
  [ New "Food"; New "Clothing";
    Deposit 0 900 "deposit"; Deposit 1 900 "deposit";
    Withdraw 0 105.55 "groceries"; Withdraw 1 100 "shirt";
    Transfer 0 50 1; Withdraw 1 5000 "car" ].

(** The state the calls of [food_clothing] leave (see [food_clothing_run]). *)
Definition food_final : Category :=
  mkCategory "Food" 744.45000000000005 155.55000000000001
    [Entry 900 "deposit"; Entry (-105.55) "groceries";
     Entry (-50) "Transfer to Clothing"].

Definition clothing_final : Category :=
  mkCategory "Clothing" 850 100
    [Entry 900 "deposit"; Entry (-100) "shirt"; Entry 50 "Transfer from Food"].

Definition food_clothing_final : World :=
  mkWorld 255.55000000000001 [food_final; clothing_final].

(** ** What each method does to the store, in one step *)

Definition deposited (amount : float) (description : string) (c : Category) : Category :=
  mkCategory (name c) (balance c + amount) (amount_withdrawn c)
             (ledger c ++ [Entry amount description]).

Definition withdrawn (amount : float) (description : string) (c : Category) : Category :=
  mkCategory (name c) (balance c - amount) (amount_withdrawn c + amount)
             (ledger c ++ [Entry (- amount) description]).

(** ** The outcomes of a call, as a relation

    [step w c r w']: in state [w] the call [c] returns [r] and leaves
    [w'].  [exec_step] and [step_exec] show that it is [exec]. *)
Inductive step (w : World) : call -> bool -> World -> Prop :=
| step_new n :
    step w (New n) true
      (mkWorld (total_withdrawn w) (objects w ++ [mkCategory n 0 0 []]))
| step_deposit i a d x :
    objects w !! i = Some x ->
    step w (Deposit i a d) true
      (mkWorld (total_withdrawn w) (<[i := deposited a d x]> (objects w)))
| step_withdraw i a d x :
    objects w !! i = Some x ->
    (balance x <? a)%float = false ->
    step w (Withdraw i a d) true
      (mkWorld (total_withdrawn w + a) (<[i := withdrawn a d x]> (objects w)))
| step_withdraw_refused i a d x :
    objects w !! i = Some x ->
    (balance x <? a)%float = true ->
    step w (Withdraw i a d) false w
| step_transfer i a j x y :
    objects w !! i = Some x ->
    objects w !! j = Some y ->
    i <> j ->
    (balance x <? a)%float = false ->
    step w (Transfer i a j) true
      (mkWorld (total_withdrawn w + a)
         (<[j := deposited a ("Transfer from " +:+ name x) y]>
            (<[i := withdrawn a ("Transfer to " +:+ name y) x]> (objects w))))
| step_transfer_self i a x :
    objects w !! i = Some x ->
    (balance x <? a)%float = false ->
    step w (Transfer i a i) true
      (mkWorld (total_withdrawn w + a)
         (<[i := deposited a ("Transfer from " +:+ name x)
                   (withdrawn a ("Transfer to " +:+ name x) x)]> (objects w)))
| step_transfer_refused i a j x :
    objects w !! i = Some x ->
    (balance x <? a)%float = true ->
    step w (Transfer i a j) false w.

(** ** The quantities the properties speak of *)

(** The sum of the ledger amounts, accumulated in ledger order from zero. *)
Definition ledger_sum (l : list entry) : float :=
  fold_left (fun s e => (s + amount e)%float) l 0%float.


(** The category a call withdraws from, with the amount. *)
Definition withdraws_from (c : call) : option (ref * float) :=
  match c with
  | Withdraw i a _ | Transfer i a _ => Some (i, a)
  | _ => None
  end.

(** The category a call deposits to, with the amount. *)
Definition deposits_to (c : call) : option (ref * float) :=
  match c with
  | Deposit i a _ | Transfer _ a i => Some (i, a)
  | _ => None
  end.

(** A call that withdraws is given an amount with [0 <= amount] (so the
    amount is not NaN); the amount of a deposit is not constrained. *)
Definition nonneg_withdrawal (c : call) : Prop :=
  match withdraws_from c with
  | Some (_, a) => (0 <=? a)%float = true
  | None => True
  end.








(** Every [amount_withdrawn] and the total are [>= 0]. *)
Definition withdrawn_nonneg (w : World) : Prop :=
  (0 <=? total_withdrawn w)%float = true /\
  forall i x, objects w !! i = Some x -> (0 <=? amount_withdrawn x)%float = true.

(** No [amount_withdrawn] and not the total is smaller in [w'] than in [w]. *)
Definition withdrawn_le (w w' : World) : Prop :=
  (total_withdrawn w <=? total_withdrawn w')%float = true /\
  forall i x, objects w !! i = Some x ->
    exists x', objects w' !! i = Some x' /\
               (amount_withdrawn x <=? amount_withdrawn x')%float = true.

(** One call changes the withdrawn amounts in lockstep: either nothing
    changes, or the call is a withdrawal (or transfer) from some [i] that
    succeeded, and [amount_withdrawn] of [i] and the total both had the
    amount added, every other [amount_withdrawn] staying as it was. *)
Definition lockstep (c : call) (r : bool) (w w' : World) : Prop :=
  (total_withdrawn w' = total_withdrawn w /\
   forall i x x', objects w !! i = Some x -> objects w' !! i = Some x' ->
                  amount_withdrawn x' = amount_withdrawn x)
  \/
  (exists i a x x',
     r = true /\ withdraws_from c = Some (i, a) /\
     objects w !! i = Some x /\ objects w' !! i = Some x' /\
     amount_withdrawn x' = (amount_withdrawn x + a)%float /\
     total_withdrawn w' = (total_withdrawn w + a)%float /\
     forall j y y', j <> i -> objects w !! j = Some y -> objects w' !! j = Some y' ->
                    amount_withdrawn y' = amount_withdrawn y).

(** The references of a call name objects of the state. *)
Definition live_call (w : World) (c : call) : Prop :=
  match c with
  | New _ => True
  | Deposit i _ _ | Withdraw i _ _ => i < length (objects w)
  | Transfer i _ j => i < length (objects w) /\ j < length (objects w)
  end.

(** * [create_spend_chart] *)

(** ** Python values and errors used by the chart *)

(** The exceptions the function can raise. *)
Inductive exn := ValueError | ZeroDivisionError | OverflowError | IndexError.

(** A computation that returns a value or raises. *)
Inductive result (A : Type) : Type :=
| Ok (a : A)
| Raise (e : exn).
Arguments Ok {A} a.
Arguments Raise {A} e.

#[global] Instance result_ret : MRet result := fun A x => Ok x.
#[global] Instance result_bind : MBind result := fun A B f m =>
  match m with
  | Ok x => f x
  | Raise e => Raise e
  end.

(** A [for] loop whose body may raise. *)
Fixpoint for_each {A S : Type} (body : S -> A -> result S) (l : list A) (s : S)
  : result S :=
  match l with
  | [] => Ok s
  | x :: l' => s' ← body s x; for_each body l' s'
  end.

(** [range(start, stop, step)] for a non-zero step. *)
Definition py_range (start stop step : Z) : list Z :=
  let n :=
    (if 0 <? step then (stop - start + step - 1) / step
     else (start - stop - step - 1) / (- step))%Z in
  map (fun k => start + step * Z.of_nat k)%Z (seq 0 (Z.to_nat n)).

(** Float true division: [x / y] raises on a zero divisor. *)
Definition float_truediv (x y : float) : result float :=
  if (y =? 0)%float then Raise ZeroDivisionError else Ok (x / y)%float.

(** [math.floor] of a float: the integer below it, exactly; it raises on
    an infinity and on NaN. *)
Definition math_floor (x : float) : result Z :=
  match Prim2SF x with
  | S754_zero _ => Ok 0%Z
  | S754_finite s m e => Ok (Z.shiftl (cond_Zopp s (Zpos m)) e)
  | S754_infinity _ => Raise OverflowError
  | S754_nan => Raise ValueError
  end.

(** [max(names, key=len)]: the first name of greatest length; it raises
    on an empty list. *)
Fixpoint max_by_len (best : string) (names : list string) : string :=
  match names with
  | [] => best
  | n :: names' =>
      max_by_len (if (String.length best <? String.length n)%nat then n else best) names'
  end.

Definition py_max_len (names : list string) : result string :=
  match names with
  | [] => Raise ValueError
  | n :: names' => Ok (max_by_len n names')
  end.

(** [str.capitalize] on ASCII text: the first character in upper case, the
    others in lower case. *)
Definition upper (c : ascii) : ascii :=
  let n := nat_of_ascii c in
  if ((97 <=? n) && (n <=? 122))%nat then ascii_of_nat (n - 32) else c.

Definition lower (c : ascii) : ascii :=
  let n := nat_of_ascii c in
  if ((65 <=? n) && (n <=? 90))%nat then ascii_of_nat (n + 32) else c.

Fixpoint lower_all (s : string) : string :=
  match s with
  | EmptyString => EmptyString
  | String c s' => String (lower c) (lower_all s')
  end.

Definition capitalize (s : string) : string :=
  match s with
  | EmptyString => EmptyString
  | String c s' => String (upper c) (lower_all s')
  end.

(** ** The object array *)

(** What a cell of the array holds: an axis number or a piece of text;
    [None] is an empty cell. *)
Inductive cell := CNum (n : Z) | CStr (s : string).

(** The array, row by row. *)
Abbreviation ndarray := (list (list (option cell))).

(** [np.empty([rows, cols], dtype=object)]. *)
Definition np_empty (rows cols : nat) : ndarray :=
  replicate rows (replicate cols None).

Definition ncols (a : ndarray) : nat :=
  match a with
  | row :: _ => length row
  | [] => 0
  end.

(** The cell at row [r] and column [c], when there is one. *)
Definition getitem (a : ndarray) (r c : nat) : option (option cell) :=
  row ← a !! r; row !! c.

(** The update of one cell, without a bounds check. *)
Definition put (r c : nat) (v : cell) (a : ndarray) : ndarray :=
  alter (fun row => <[c := Some v]> row) r a.

(** [array[r, c] = v]: an integer index outside the shape raises. *)
Definition setitem (a : ndarray) (r c : nat) (v : cell) : result ndarray :=
  if decide (r < length a /\ c < ncols a) then Ok (put r c v a)
  else Raise IndexError.

(** The indices a slice [start:stop] selects in a dimension of size [n]:
    a negative bound counts from the end, and bounds are clipped. *)
Definition slice_bound (b : Z) (n : nat) : nat :=
  if (b <? 0)%Z then Z.to_nat (Z.max (b + Z.of_nat n) 0)
  else Z.to_nat (Z.min b (Z.of_nat n)).

Definition slice_indices (start stop : option Z) (n : nat) : list nat :=
  let lo := match start with Some b => slice_bound b n | None => 0 end in
  let hi := match stop with Some b => slice_bound b n | None => n end in
  seq lo (hi - lo).

(** [array[start:stop, c] = v], which is also [array.T[c, start:stop] = v]. *)
Definition setitem_rows (a : ndarray) (start stop : option Z) (c : nat) (v : cell)
  : result ndarray :=
  if decide (c < ncols a) then
    Ok (fold_left (fun a' r => put r c v a') (slice_indices start stop (length a)) a)
  else Raise IndexError.

(** [array[r, start:stop] = v]. *)
Definition setitem_cols (a : ndarray) (r : nat) (start stop : option Z) (v : cell)
  : result ndarray :=
  if decide (r < length a) then
    Ok (fold_left (fun a' c => put r c v a') (slice_indices start stop (ncols a)) a)
  else Raise IndexError.

(** ** [build_array] *)

(** The bucket of a category: [(math.floor((obj.amount_withdrawn /
    Category.total_withdrawn) * 100) // 10) * 10]. *)
Definition percentage_spent (total : float) (obj : Category) : result Z :=
  q ← float_truediv (amount_withdrawn obj) total;
  f ← math_floor (q * 100)%float;
  mret (f / 10 * 10)%Z.

(** The characters of a string with the rows they go to:
    [zip(s, range(first, first + count))]. *)
Definition zip_chars (s : string) (first count : nat) : list (ascii * nat) :=
  zip (list_ascii_of_string s) (seq first count).

(** The body of the loop over the categories, for the column [row]. *)
Definition plot_category (total : float) (categories : list Category)
    (longest_name : nat) (array : ndarray) (row : Z) : result ndarray :=
  match categories !! Z.to_nat (row / 3 - 1) with
  | None => Raise IndexError
  | Some obj =>
      percentage_spent ← percentage_spent total obj;
      array ← setitem_rows array (Some (10 - percentage_spent / 10)%Z) (Some 11%Z)
                (Z.to_nat row) (CStr "o");
      for_each
        (fun array '(char, index) =>
           setitem array index (Z.to_nat row) (CStr (String char EmptyString)))
        (zip_chars (capitalize (name obj)) 12 longest_name)
        array
  end.

Definition build_array (total : float) (categories : list Category)
  : result ndarray :=
  longest ← py_max_len (map name categories);
  let longest_name := String.length longest in
  let n := length categories in
  let array := np_empty (longest_name + 12) (n + n * 2 + 3) in
  array ← for_each
            (fun array '(row, num) => setitem array (Z.to_nat row) 0 (CNum num))
            (zip (py_range 0 12 1) (py_range 100 (-10) (-10)))
            array;
  array ← setitem_rows array None (Some 11%Z) 1 (CStr "|");
  array ← setitem_cols array 11 (Some 2%Z) None (CStr "-");
  for_each (plot_category total categories longest_name)
           (py_range 3 (Z.of_nat n * 3 + 3) 3)
           array.

(** ** [build_string] *)

(** [f"{cell}"]. *)
Definition str_cell (c : cell) : string :=
  match c with
  | CNum n => pretty n
  | CStr s => s
  end.

(** [enumerate]. *)
Definition enumerate {A} (l : list A) : list (nat * A) :=
  zip (seq 0 (length l)) l.

(** The line break, ["\n"]. *)
Definition newline : string := String "010" EmptyString.

(** The first value of [string] in [build_string]. *)
Definition title : string := "Percentage spent by category" +:+ newline.

(** The inner loop: the text one row adds ([text] is the variable
    [string] of the source). *)
Definition add_row (index : nat) (text : string) (row : list (option cell))
  : string :=
  fold_left
    (fun text '(subdex, cell) =>
       let text :=
         if decide (subdex = 0) then
           let text := if decide (0 < index) then text +:+ " " else text in
           if decide (10 <= index) then text +:+ " " else text
         else text in
       match cell with
       | Some c => text +:+ str_cell c
       | None => text +:+ " "
       end)
    (enumerate row) text.

Definition build_string (chart : ndarray) : string :=
  fold_left
    (fun text '(index, row) =>
       let text := add_row index text row in
       if decide (index + 1 < length chart)
       then text +:+ newline
       else text)
    (enumerate chart) title.

(** [create_spend_chart(categories)], reading [Category.total_withdrawn]. *)
Definition create_spend_chart (total : float) (categories : list Category)
  : result string :=
  chart_array ← build_array total categories;
  mret (build_string chart_array).

(** ** The layout the properties speak of *)

(** The array has [rows] rows of [cols] cells each. *)
Definition has_shape (rows cols : nat) (a : ndarray) : Prop :=
  length a = rows /\ forall r row, a !! r = Some row -> length row = cols.

(** The column of the bar of the [k]-th category (counting from 0). *)
Definition bar_column (k : nat) : nat := 3 * k + 3.

(** What the bar of a category with bucket [bucket] shows at axis row [r]
    (row 0 is the "100" row, row 10 the "0" row): the marker when
    [100 - r * 10 <= bucket], an empty cell otherwise. *)
Definition marker (bucket : Z) (r : nat) : option cell :=
  if decide (100 - Z.of_nat r * 10 <= bucket)%Z then Some (CStr "o") else None.

(** The text of a cell: [f"{cell}"], or a space for an empty cell. *)
Definition cell_text (c : option cell) : string :=
  match c with
  | Some c => str_cell c
  | None => " "
  end.

(** The padding [build_string] puts before the first cell of row [index]. *)
Definition row_padding (index : nat) : string :=
  (if decide (0 < index) then " " else "") +:+
  (if decide (10 <= index) then " " else "").

Fixpoint concat_text (l : list string) : string :=
  match l with
  | [] => EmptyString
  | s :: l' => s +:+ concat_text l'
  end.

(** The text of one row of the array. *)
Definition row_text (index : nat) (row : list (option cell)) : string :=
  match row with
  | [] => EmptyString
  | c :: cs => row_padding index +:+ cell_text c +:+ concat_text (map cell_text cs)
  end.

(** The text of the rows from [index] on, a line break after each row but
    the last of the [len] rows. *)
Fixpoint rows_text (len index : nat) (rows : list (list (option cell))) : string :=
  match rows with
  | [] => EmptyString
  | row :: rows' =>
      row_text index row +:+
      (if decide (index + 1 < len) then newline else EmptyString) +:+
      rows_text len (S index) rows'
  end.

(** What the slice assignment of [plot_category] leaves at axis row [r] of
    the bar of a category with bucket [bucket], in an array of [rows] rows. *)
Definition bar_cell (rows : nat) (bucket : Z) (r : nat) : option cell :=
  if decide (r ∈ slice_indices (Some (10 - bucket / 10)%Z) (Some 11%Z) rows)
  then Some (CStr "o") else None.

(** The cell at axis row [r] and column [c] once the categories with the
    buckets [buckets] are plotted. *)
Definition bar_area_cell (rows : nat) (buckets : list Z) (r c : nat) : option cell :=
  if decide (c = 0) then Some (CNum (100 - Z.of_nat r * 10))
  else if decide (c = 1) then Some (CStr "|")
  else if decide (c mod 3 = 0) then
    match buckets !! (c / 3 - 1) with
    | Some b => bar_cell rows b r
    | None => None
    end
  else None.

(** The axis label of row [r], as printed: the number right-aligned in
    three characters. *)
Definition axis_label (r : nat) : string :=
  row_padding r +:+ pretty (100 - Z.of_nat r * 10)%Z.

(** The printed line of axis row [r]: the label, the pipe, a space, and
    for each category its bar cell and two spaces. *)
Definition bar_line (rows : nat) (buckets : list Z) (r : nat) : string :=
  axis_label r +:+ "|" +:+ " " +:+
  concat_text (map (fun b => cell_text (bar_cell rows b r) +:+ "  ") buckets).

(** The length of the longest name, as [build_array] computes it. *)
Definition longest_name_of (categories : list Category) : nat :=
  match map name categories with
  | [] => 0
  | n :: names => String.length (max_by_len n names)
  end.

(** The array before the categories are plotted: the axis numbers in
    column 0, the pipes in column 1, the dashes in row 11. *)
Definition axis_array (longest_name n : nat) : ndarray :=
  let a0 := np_empty (longest_name + 12) (n + n * 2 + 3) in
  let a1 :=
    fold_left (fun a' (x : Z * Z) => put (Z.to_nat x.1) 0 (CNum x.2) a')
      (zip (py_range 0 12 1) (py_range 100 (-10) (-10))) a0 in
  let a2 :=
    fold_left (fun a' r => put r 1 (CStr "|") a')
      (slice_indices None (Some 11%Z) (longest_name + 12)) a1 in
  fold_left (fun a' c => put 11 c (CStr "-") a')
    (slice_indices (Some 2%Z) None (n + n * 2 + 3)) a2.

(** A text from its lines. *)
Definition join_lines (lines : list string) : string := String.concat newline lines.

(** A category that withdrew 15 of the 100 withdrawn in all. *)
Definition food15 : Category :=
  mkCategory "Food" 85 15 [Entry 100 "deposit"; Entry (-15) "groceries"].

Definition food15_chart : string :=
  join_lines
    ["Percentage spent by category";
     "100|    "; " 90|    "; " 80|    "; " 70|    "; " 60|    "; " 50|    ";
     " 40|    "; " 30|    "; " 20|    "; " 10| o  "; "  0| o  ";
     "    ----"; "     F  "; "     o  "; "     o  "; "     d  "].

(** The lines of a text. *)
Fixpoint lines_from (cur : string) (s : string) : list string :=
  match s with
  | EmptyString => [String.rev cur]
  | String c s' =>
      if Ascii.eqb c "010" then String.rev cur :: lines_from EmptyString s'
      else lines_from (String c cur) s'
  end.

Definition chart_lines (s : string) : list string := lines_from EmptyString s.

(** * [Category.__str__] *)

(** ** Python's text of a float *)

(** [num / den] rounded to the nearest integer, ties to even, for
    [0 <= num] and [0 < den]. *)
Definition round_half_even (num den : Z) : Z :=
  let q := (num / den)%Z in
  match (2 * (num mod den) ?= den)%Z with
  | Lt => q
  | Gt => (q + 1)%Z
  | Eq => if Z.even q then q else (q + 1)%Z
  end.

Definition two_digits (n : Z) : string :=
  if (n <? 10)%Z then "0" +:+ pretty n else pretty n.

(** [f"{x:.2f}"]: the exact value of the float rounded to two decimals,
    ties to even; ["nan"], ["inf"] and ["-inf"] for the special values. *)
Definition format_2f (x : float) : string :=
  match Prim2SF x with
  | S754_nan => "nan"
  | S754_infinity s => if s then "-inf" else "inf"
  | S754_zero s => (if s then "-" else "") +:+ "0.00"
  | S754_finite s m e =>
      let n :=
        if (0 <=? e)%Z then (Zpos m * 2 ^ e * 100)%Z
        else round_half_even (Zpos m * 100) (2 ^ (- e)) in
      (if s then "-" else "") +:+ pretty (n / 100)%Z +:+ "." +:+
      two_digits (n mod 100)%Z
  end.

(** The comparison of the decimal [D * 10 ^ p] with the binary
    [V * 2 ^ e]. *)
Definition compare_dec_bin (D p V e : Z) : comparison :=
  (D * 10 ^ Z.max p 0 * 2 ^ Z.max (- e) 0 ?= V * 2 ^ Z.max e 0 * 10 ^ Z.max (- p) 0)%Z.

(** The least [k], from [k] on, with [V * 2 ^ e < 10 ^ k].  It is called
    on an estimate that is at most 4 below this [k], so the fuel is enough. *)
Fixpoint decimal_exponent (fuel : nat) (V e k : Z) : Z :=
  match fuel with
  | 0 => k
  | S fuel' =>
      match compare_dec_bin 1 k V e with
      | Gt => k
      | _ => decimal_exponent fuel' V e (k + 1)%Z
      end
  end.

(** The shortest decimal that reads back as the float [m * 2 ^ e]: its
    digits as an integer [D] and an exponent [p], the value being
    [D * 10 ^ p].  In units of [2 ^ (e - 2)] the float is [4 m] and the
    numbers that read back as it lie between [lo] and [hi], included when
    [m] is even.  For each number [n] of digits, from 1 on, the two
    [n]-digit decimals around the float are tried, the nearer first; 17
    digits always tell a binary64 number from its neighbours, so the search
    ends within its fuel. *)
Fixpoint shortest_digits (fuel : nat) (m : positive) (e k n : Z) : Z * Z :=
  let V := (4 * Zpos m)%Z in
  let e2 := (e - 2)%Z in
  let lo :=
    if (Zpos m =? 2 ^ 52)%Z && (-1074 <? e)%Z then (V - 1)%Z else (V - 2)%Z in
  let hi := (V + 2)%Z in
  let p := (k - n)%Z in
  let D_lo :=
    ((V * 2 ^ Z.max e2 0 * 10 ^ Z.max (- p) 0) /
     (2 ^ Z.max (- e2) 0 * 10 ^ Z.max p 0))%Z in
  let D_hi := (D_lo + 1)%Z in
  let reads_back D :=
    match compare_dec_bin D p lo e2, compare_dec_bin D p hi e2 with
    | Gt, Lt => true
    | Eq, Lt | Gt, Eq => Z.even (Zpos m)
    | _, _ => false
    end in
  let lo_first :=
    match compare_dec_bin (D_lo + D_hi) p (2 * V) e2 with
    | Gt => true
    | Lt => false
    | Eq => Z.even D_lo
    end in
  let first := if lo_first then D_lo else D_hi in
  let second := if lo_first then D_hi else D_lo in
  match fuel with
  | 0 => (first, p)
  | S fuel' =>
      if reads_back first then (first, p)
      else if reads_back second then (second, p)
      else shortest_digits fuel' m e k (n + 1)%Z
  end.

(** Trailing zeros moved from the digits to the exponent. *)
Fixpoint strip_zeros (fuel : nat) (D p : Z) : Z * Z :=
  match fuel with
  | 0 => (D, p)
  | S fuel' =>
      if (0 <? D)%Z && (D mod 10 =? 0)%Z then strip_zeros fuel' (D / 10)%Z (p + 1)%Z
      else (D, p)
  end.

Fixpoint zeros (n : nat) : string :=
  match n with
  | 0 => EmptyString
  | S n' => String "0" (zeros n')
  end.

(** [repr] of a positive float from its digits [ds] and the position
    [decpt] of the decimal point: positional notation when
    [-4 < decpt <= 16], exponent notation otherwise. *)
Definition repr_layout (ds : string) (decpt : Z) : string :=
  let len := Z.of_nat (String.length ds) in
  if ((decpt <=? -4) || (16 <? decpt))%Z then
    let exp := (decpt - 1)%Z in
    let mantissa :=
      match ds with
      | String d EmptyString => ds
      | String d rest => String d ("." +:+ rest)
      | EmptyString => ds
      end in
    mantissa +:+ "e" +:+ (if (exp <? 0)%Z then "-" else "+") +:+
    two_digits (Z.abs exp)
  else if (decpt <=? 0)%Z then
    "0." +:+ zeros (Z.to_nat (- decpt)) +:+ ds
  else if (len <=? decpt)%Z then
    ds +:+ zeros (Z.to_nat (decpt - len)) +:+ ".0"
  else
    substring 0 (Z.to_nat decpt) ds +:+ "." +:+
    substring (Z.to_nat decpt) (String.length ds) ds.

(** [str(x)], which is [repr(x)]: what [f"{x}"] puts in the text. *)
Definition float_str (x : float) : string :=
  match Prim2SF x with
  | S754_nan => "nan"
  | S754_infinity s => if s then "-inf" else "inf"
  | S754_zero s => if s then "-0.0" else "0.0"
  | S754_finite s m e =>
      let bits := (Zpos (digits2_pos m) + e)%Z in
      let k := decimal_exponent 8 (Zpos m) e (bits * 30103 / 100000 - 2)%Z in
      let '(D, p) := shortest_digits 17 m e k 1 in
      let '(D, p) := strip_zeros 20 D p in
      let ds := pretty D in
      (if s then "-" else "") +:+
      repr_layout ds (Z.of_nat (String.length ds) + p)%Z
  end.

(** ** Python's string methods *)

Fixpoint fill (n : nat) (fillchar : ascii) : string :=
  match n with
  | 0 => EmptyString
  | S n' => String fillchar (fill n' fillchar)
  end.

(** [s.center(width, fillchar)]: when the padding is odd, the extra
    character goes to the left if the width is odd, to the right otherwise. *)
Definition center (width : nat) (fillchar : ascii) (s : string) : string :=
  let len := String.length s in
  if (width <=? len)%nat then s
  else
    let marg := width - len in
    let left := marg / 2 + Nat.land (Nat.land marg width) 1 in
    fill left fillchar +:+ s +:+ fill (marg - left) fillchar.

(** [s.ljust(width, fillchar)]. *)
Definition ljust (width : nat) (fillchar : ascii) (s : string) : string :=
  s +:+ fill (width - String.length s) fillchar.

(** [s.rjust(width, fillchar)]. *)
Definition rjust (width : nat) (fillchar : ascii) (s : string) : string :=
  fill (width - String.length s) fillchar +:+ s.

(** ** [__str__] *)

(** The body of the loop over the ledger. *)
Definition add_item (text : string) (item : entry) : string :=
  let text := text +:+ ljust 23 " " (substring 0 23 (description item)) in
  let text := text +:+ rjust 7 " " (substring 0 7 (format_2f (amount item))) in
  text +:+ newline.

Definition __str__ (self : Category) : string :=
  let text := EmptyString in
  let text := text +:+ (center 30 "*" (name self) +:+ newline) in
  let text := fold_left add_item (ledger self) text in
  text +:+ ("Total: " +:+ float_str (balance self)).

(** ** The layout of the report *)

(** The description column of a ledger line. *)
Definition description_column (d : string) : string :=
  ljust 23 " " (substring 0 23 d).

(** The amount column of a ledger line. *)
Definition amount_column (a : float) : string :=
  rjust 7 " " (substring 0 7 (format_2f a)).

(** A ledger line. *)
Definition ledger_line (item : entry) : string :=
  description_column (description item) +:+ amount_column (amount item) +:+ newline.

(** A ledger entry with an amount and a description too wide for their
    columns. *)
Definition wide_entry : entry :=
  Entry 12345.678 "Restaurant and more food for dessert".

(** ** What the formatted amount stands for *)

(** [n] is the number of hundredths nearest to the float [m * 2 ^ e], the
    one of the two nearest being even when the float is half-way. *)
Definition nearest_hundredth (m : positive) (e n : Z) : Prop :=
  let num := (Zpos m * 100 * 2 ^ Z.max e 0)%Z in
  let den := (2 ^ Z.max (- e) 0)%Z in
  (0 <= n)%Z /\
  (Z.abs (2 * (num - n * den)) <= den)%Z /\
  (Z.abs (2 * (num - n * den)) = den -> Z.even n = true).

(** The character of a decimal digit. *)
Definition decimal_digit (d : Z) : ascii := ascii_of_nat (48 + Z.to_nat d).

(** A category with an entry too wide for both columns. *)
Definition food_report : Category :=
  mkCategory "Food" (1000 + 12345.678 - 10.15 - 15.89) (10.15 + 15.89)
    [Entry 1000 "initial deposit"; wide_entry;
     Entry (-10.15) "groceries"; Entry (-15.89) "restaurant"].

(** * The program as a whole *)

(** ** Sessions *)

(** The number of objects a call creates: one for [Category(name)]. *)
Definition creates (c : call) : nat :=
  match c with
  | New _ => 1
  | _ => 0
  end.

(** The number of objects a sequence of calls creates. *)
Definition created (cs : list call) : nat := sum_list (map creates cs).

(** The references a call is given. *)
Definition references (c : call) : list ref :=
  match c with
  | New _ => []
  | Deposit i _ _ | Withdraw i _ _ => [i]
  | Transfer i _ j => [i; j]
  end.

(** The float accumulation [start + a1 + a2 + ...], from left to right. *)
Definition float_sum (start : float) (l : list float) : float :=
  fold_left (fun s a => (s + a)%float) l start.

(** The amounts of the withdrawals and transfers that went through, in call
    order, among those from the objects selected by [keep]. *)
Fixpoint withdrawn_amounts (keep : ref -> bool) (cs : list call) (rs : list bool)
  : list float :=
  match cs, rs with
  | c :: cs', r :: rs' =>
      match withdraws_from c with
      | Some (j, a) =>
          if r && keep j then a :: withdrawn_amounts keep cs' rs'
          else withdrawn_amounts keep cs' rs'
      | None => withdrawn_amounts keep cs' rs'
      end
  | _, _ => []
  end.

(** [amount_withdrawn] of object [i], zero when there is no such object. *)
Definition withdrawn_of (w : World) (i : ref) : float :=
  match objects w !! i with
  | Some c => amount_withdrawn c
  | None => 0%float
  end.

(** The amounts a careful caller passes: no negative deposit, and
    withdrawals and transfers of a finite amount that is not negative. *)
Definition sound_amount (c : call) : Prop :=
  match c with
  | New _ => True
  | Deposit _ a _ => (0 <=? a)%float = true
  | Withdraw _ a _ | Transfer _ a _ =>
      (0 <=? a)%float = true /\ is_finite a = true
  end.

(** No balance is negative (or NaN). *)
Definition balances_nonneg (w : World) : Prop :=
  forall i x, objects w !! i = Some x -> (0 <=? balance x)%float = true.

(** No [amount_withdrawn] is above the total. *)
Definition withdrawn_within_total (w : World) : Prop :=
  forall i x, objects w !! i = Some x ->
    (amount_withdrawn x <=? total_withdrawn w)%float = true.

(** [create_spend_chart(categories)] called in a state: the list holds
    references to objects of the state, and [Category.total_withdrawn] is
    read from the state, which the call leaves as it is. *)
Definition spend_chart (categories : list ref) : Py (result string) := fun w =>
  objs ← mapM (fun i => objects w !! i) categories;
  Some (create_spend_chart (total_withdrawn w) objs, w).

(** ** The chart below the bars *)

(** The row of dashes under the bars of [n] categories. *)
Definition dash_line (n : nat) : string :=
  "    " +:+ fill (3 * n + 1) "-".

(** What the column of a category shows [k] rows below the dashes: the
    [k]-th character of its capitalized name, if the name is that long. *)
Definition name_cell (obj : Category) (k : nat) : option cell :=
  match list_ascii_of_string (capitalize (name obj)) !! k with
  | Some ch => Some (CStr (String ch EmptyString))
  | None => None
  end.

(** The printed row [k] of the names: five spaces, and for each category
    its character and two spaces. *)
Definition name_line (categories : list Category) (k : nat) : string :=
  "     " +:+
  concat_text (map (fun obj => cell_text (name_cell obj k) +:+ "  ") categories).

(** The cell at row [r] and column [c], for a row [r] from the dashes on,
    once the categories are plotted. *)
Definition lower_cell (categories : list Category) (r c : nat) : option cell :=
  if decide (r = 11) then
    if decide (2 <= c) then Some (CStr "-") else None
  else if decide (3 <= c /\ c mod 3 = 0) then
    match categories !! (c / 3 - 1) with
    | Some obj => name_cell obj (r - 12)
    | None => None
    end
  else None.

(** The lines of the chart after the title, for categories with the
    buckets [buckets]: the eleven bars rows, the dashes, and a row for each
    character position of the longest name. *)
Definition chart_rows (categories : list Category) (buckets : list Z)
  : list string :=
  let L := longest_name_of categories in
  map (bar_line (L + 12) buckets) (seq 0 11) ++
  [dash_line (length categories)] ++
  map (name_line categories) (seq 0 L).

(** The greatest length of a name. *)
Definition max_name_length (categories : list Category) : nat :=
  max_list (map (fun obj => String.length (name obj)) categories).

(** A text without a line break. *)
Fixpoint one_line (s : string) : bool :=
  match s with
  | EmptyString => true
  | String c s' => negb (Ascii.eqb c "010") && one_line s'
  end.

(** ** Rounding to binary64, by weight *)

(** The steps of [binary_round_aux], the rounding every binary64 operation
    ends with, written on one integer: the weight of a shift record is its
    mantissa followed by the round bit and the sticky bit. *)
Definition weight (mrs : shr_record) : Z :=
  (4 * shr_m mrs + (if shr_r mrs then 2 else 0) + (if shr_s mrs then 1 else 0))%Z.

(** The weight after a right shift that divides by [P]. *)
Definition shifted_by (P w : Z) : Z :=
  (2 * (w / (2 * P)) + (if w mod (2 * P) =? 0 then 0 else 1))%Z.

(** The weight after [k] right shifts. *)
Definition shifted (k w : Z) : Z := shifted_by (2 ^ k) w.

(** Rounding to nearest, ties to even, of a weight. *)
Definition nearest (w : Z) : Z :=
  let m := (w / 4)%Z in
  if (w mod 4 <=? 1)%Z then m
  else if (w mod 4 =? 2)%Z then (if Z.even m then m else m + 1)%Z
  else (m + 1)%Z.

(** The number a rounded mantissa and its exponent stand for: an infinity
    when the exponent is out of range. *)
Definition rounded (m e : Z) : spec_float :=
  match m with
  | Z0 => S754_zero false
  | Zpos p => if (e <=? emax - prec)%Z then S754_finite false p e else S754_infinity false
  | Zneg _ => S754_nan
  end.

(** The last step of [binary_round_aux]: a mantissa that rounding carried
    to [2 ^ prec] is shifted once more. *)
Definition renormalized (m e : Z) : spec_float :=
  let '(mrs, e') := shr_fexp prec emax m e loc_Exact in
  rounded (shr_m mrs) e'.

(** The exponent [SFdiv] computes the integer quotient at, and the dividend
    scaled for it. *)
Definition quotient_exponent (mx my : positive) (ex ey : Z) : Z :=
  Z.min (fexp prec emax (Zpos (digits2_pos mx) + ex - (Zpos (digits2_pos my) + ey)))
        (ex - ey).

Definition scaled_dividend (mx my : positive) (ex ey : Z) : Z :=
  (Zpos mx * 2 ^ (ex - ey - quotient_exponent mx my ex ey))%Z.

(** * Facts about binary64 arithmetic *)

Module Binary64.

Local Open Scope Z_scope.

(** The mantissa after [p] right shifts. *)
Lemma shr_1_m (mrs : shr_record) :
  0 <= shr_m mrs -> shr_m (shr_1 mrs) = shr_m mrs / 2.
Proof.
  destruct mrs as [m r s]. simpl. intros Hm.
  destruct m as [|p|p]; [reflexivity| |lia].
  destruct p as [p|p|].
  - apply Z.div_unique with 1; [lia | simpl shr_m; lia].
  - apply Z.div_unique with 0; [lia | simpl shr_m; lia].
  - reflexivity.
Qed.

Lemma iter_shr_1_m (p : positive) (mrs : shr_record) :
  0 <= shr_m mrs ->
  shr_m (SpecFloat.iter_pos shr_1 p mrs) = shr_m mrs / 2 ^ Zpos p.
Proof.
  revert mrs. induction p as [p IH|p IH|]; intros mrs Hm; simpl SpecFloat.iter_pos.
  - assert (H1 : 0 <= shr_m (shr_1 mrs)).
    { rewrite shr_1_m by assumption. apply Z.div_pos; lia. }
    assert (H2 : 0 <= shr_m (SpecFloat.iter_pos shr_1 p (shr_1 mrs))).
    { rewrite IH by assumption. apply Z.div_pos; lia. }
    assert (E : 2 ^ Zpos p~1 = 2 * (2 ^ Zpos p * 2 ^ Zpos p)).
    { replace (Zpos p~1) with (1 + Zpos p + Zpos p) by lia.
      rewrite !Z.pow_add_r by lia. change (2 ^ 1) with 2. lia. }
    rewrite IH, IH, shr_1_m by assumption.
    rewrite !Z.div_div by lia. rewrite E. reflexivity.
  - assert (H2 : 0 <= shr_m (SpecFloat.iter_pos shr_1 p mrs)).
    { rewrite IH by assumption. apply Z.div_pos; lia. }
    assert (E : 2 ^ Zpos p~0 = 2 ^ Zpos p * 2 ^ Zpos p).
    { replace (Zpos p~0) with (Zpos p + Zpos p) by lia.
      rewrite Z.pow_add_r by lia. reflexivity. }
    rewrite IH, IH by assumption.
    rewrite !Z.div_div by lia. rewrite E. reflexivity.
  - rewrite shr_1_m by assumption. reflexivity.
Qed.

(** [shr] by [n]: a division by [2 ^ n], the exponent raised by [n]. *)
Lemma shr_m_e (mrs : shr_record) (e n : Z) :
  0 <= shr_m mrs ->
  shr_m (fst (shr mrs e n)) = shr_m mrs / 2 ^ Z.max n 0 /\
  snd (shr mrs e n) = e + Z.max n 0.
Proof.
  intros Hm. destruct n as [|p|p]; simpl.
  - rewrite Z.div_1_r. lia.
  - rewrite iter_shr_1_m by assumption. split; [reflexivity|lia].
  - rewrite Z.div_1_r. lia.
Qed.

(** The number of binary digits brackets the number. *)
Lemma digits2_pos_bounds (p : positive) :
  2 ^ (Zpos (digits2_pos p) - 1) <= Zpos p < 2 ^ Zpos (digits2_pos p).
Proof.
  induction p as [p IH|p IH|]; simpl digits2_pos.
  - assert (E : 2 ^ Zpos (digits2_pos p) = 2 * 2 ^ (Zpos (digits2_pos p) - 1)).
    { rewrite <- Z.pow_succ_r by lia. f_equal. lia. }
    rewrite Pos2Z.inj_succ.
    replace (Z.succ (Zpos (digits2_pos p)) - 1) with (Zpos (digits2_pos p)) by lia.
    rewrite Z.pow_succ_r by lia. lia.
  - assert (E : 2 ^ Zpos (digits2_pos p) = 2 * 2 ^ (Zpos (digits2_pos p) - 1)).
    { rewrite <- Z.pow_succ_r by lia. f_equal. lia. }
    rewrite Pos2Z.inj_succ.
    replace (Z.succ (Zpos (digits2_pos p)) - 1) with (Zpos (digits2_pos p)) by lia.
    rewrite Z.pow_succ_r by lia. lia.
  - simpl. lia.
Qed.

Lemma shl_align_fst (m : positive) (e e' : Z) :
  e' <= e -> Zpos (fst (shl_align m e e')) = Zpos m * 2 ^ (e - e').
Proof.
  intros He. unfold shl_align.
  destruct (e' - e) as [|d|d] eqn:Hd; simpl fst.
  - replace (e - e') with 0 by lia. simpl. lia.
  - lia.
  - change (Pos.iter xO m d) with (shift_pos d m).
    replace (e - e') with (Zpos d) by lia.
    rewrite shift_pos_correct. rewrite Z.pow_pos_fold. lia.
Qed.

Lemma round_nearest_even_bounds (m : Z) (l : location) :
  m <= round_nearest_even m l <= m + 1.
Proof.
  destruct l as [|[| |]]; simpl; try lia.
  destruct (Z.even m); lia.
Qed.

(** [shr_fexp] on a positive mantissa: the exponent becomes the canonical
    one when that is larger, and the mantissa is divided accordingly. *)
Lemma shr_fexp_pos (m : positive) (e : Z) (l : location) :
  let e' := Z.max e (fexp prec emax (Zpos (digits2_pos m) + e)) in
  shr_m (fst (shr_fexp prec emax (Zpos m) e l)) = Zpos m / 2 ^ (e' - e) /\
  snd (shr_fexp prec emax (Zpos m) e l) = e'.
Proof.
  intros e'. unfold shr_fexp. simpl Zdigits2.
  destruct (shr_m_e (shr_record_of_loc (Zpos m) l) e
              (fexp prec emax (Zpos (digits2_pos m) + e) - e)) as [H1 H2].
  { destruct l as [|[| |]]; simpl; lia. }
  rewrite H1, H2.
  replace (shr_m (shr_record_of_loc (Zpos m) l)) with (Zpos m)
    by (destruct l as [|[| |]]; reflexivity).
  split; [f_equal; f_equal|]; unfold e'; lia.
Qed.

(** A division by a power of two that keeps [prec] digits leaves at least
    [2 ^ (prec - 1)]. *)
Lemma div_pow2_digits (m : positive) (k : Z) :
  0 <= k -> k = Zpos (digits2_pos m) - prec ->
  2 ^ (prec - 1) <= Zpos m / 2 ^ k.
Proof.
  intros Hk Ek.
  apply Z.div_le_lower_bound; [apply Z.pow_pos_nonneg; lia|].
  rewrite <- Z.pow_add_r by (unfold prec; lia).
  replace (k + (prec - 1)) with (Zpos (digits2_pos m) - 1) by lia.
  apply digits2_pos_bounds.
Qed.

(** Rounding a sum that is at least [mx * 2 ^ ex], where [(mx, ex)] is a
    canonical pair, gives a number that is not below [(mx, ex)]. *)
Lemma binary_round_aux_lower (M mx : positive) (ez ex : Z) (l : location) :
  canonical_mantissa prec emax mx ex = true ->
  emin <= ez <= ex ->
  Zpos mx * 2 ^ (ex - ez) <= Zpos M ->
  SFleb (S754_finite false mx ex)
        (binary_round_aux prec emax false (Zpos M) ez l) = true.
Proof.
  intros Hcan Hez HM.
  unfold canonical_mantissa in Hcan. apply Z.eqb_eq in Hcan.
  unfold fexp in Hcan.
  assert (Hprec : prec = 53) by reflexivity.
  assert (Hemin : emin = -1074) by reflexivity.
  pose proof (digits2_pos_bounds M) as HdM.
  pose proof (digits2_pos_bounds mx) as Hdx.
  set (d := Zpos (digits2_pos M)) in *.
  set (dx := Zpos (digits2_pos mx)) in *.
  assert (Hd : dx + ex <= d + ez).
  { assert (2 ^ (dx - 1 + (ex - ez)) < 2 ^ d) as Hlt.
    { rewrite Z.pow_add_r by (unfold dx; lia).
      eapply Z.le_lt_trans; [|apply HdM].
      eapply Z.le_trans; [|apply HM].
      apply Z.mul_le_mono_nonneg_r; [apply Z.pow_nonneg; lia | apply Hdx]. }
    apply Z.pow_lt_mono_r_iff in Hlt; unfold d in *; lia. }
  unfold binary_round_aux.
  destruct (shr_fexp_pos M ez l) as [Hm1 He1]. cbv zeta in Hm1, He1.
  destruct (shr_fexp prec emax (Zpos M) ez l) as [mrs1 e1]. simpl in Hm1, He1.
  rewrite <- He1 in Hm1.
  fold d in Hm1, He1. unfold fexp in Hm1, He1.
  assert (He1x : ex <= e1) by lia.
  set (m1 := shr_m mrs1) in *.
  assert (Hm1pos : 1 <= m1).
  { destruct (Z.eq_dec e1 ez) as [->|Hne].
    - rewrite Hm1, Z.sub_diag, Z.div_1_r. lia.
    - rewrite Hm1. eapply Z.le_trans; [|apply div_pow2_digits; fold d; lia].
      rewrite Hprec. lia. }
  assert (Hm1x : e1 = ex -> Zpos mx <= m1).
  { intros ->. rewrite Hm1.
    apply Z.div_le_lower_bound; [apply Z.pow_pos_nonneg; lia|]. lia. }
  pose proof (round_nearest_even_bounds m1 (loc_of_shr_record mrs1)) as Hr.
  destruct (round_nearest_even m1 (loc_of_shr_record mrs1)) as [|m2|m2];
    try lia.
  destruct (shr_fexp_pos m2 e1 loc_Exact) as [Hm3 He3]. cbv zeta in Hm3, He3.
  destruct (shr_fexp prec emax (Zpos m2) e1 loc_Exact) as [mrs3 e3]. simpl in Hm3, He3.
  rewrite <- He3 in Hm3.
  unfold fexp in Hm3, He3.
  set (m3 := shr_m mrs3) in *.
  assert (Hm3pos : 1 <= m3).
  { destruct (Z.eq_dec e3 e1) as [->|Hne].
    - rewrite Hm3, Z.sub_diag, Z.div_1_r. lia.
    - rewrite Hm3. eapply Z.le_trans; [|apply div_pow2_digits; lia].
      rewrite Hprec. lia. }
  assert (Hm3x : e3 = ex -> Zpos mx <= m3).
  { intros E. assert (e3 = e1) as E1 by lia.
    rewrite Hm3, E1, Z.sub_diag, Z.div_1_r. lia. }
  destruct m3 as [|m3|m3]; try lia.
  destruct (e3 <=? emax - prec); [|reflexivity].
  unfold SFleb, SFcompare.
  destruct (Z.compare_spec ex e3) as [E|E|E]; try reflexivity; [|lia].
  specialize (Hm3x (eq_sym E)).
  rewrite Pos.compare_cont_spec. simpl.
  destruct (Pos.compare_spec mx m3); try reflexivity. lia.
Qed.

Lemma shl_align_snd (m : positive) (e e' : Z) :
  snd (shl_align m e e') = Z.min e e'.
Proof.
  unfold shl_align. destruct (e' - e) as [|d|d] eqn:Hd; simpl; lia.
Qed.

Lemma canonical_emin (m : positive) (e : Z) :
  canonical_mantissa prec emax m e = true -> emin <= e.
Proof.
  unfold canonical_mantissa, fexp. intros H. apply Z.eqb_eq in H. lia.
Qed.

Lemma SFcompare_finite_refl (s : bool) (m : positive) (e : Z) :
  SFcompare (S754_finite s m e) (S754_finite s m e) = Some Eq.
Proof.
  simpl. rewrite Z.compare_refl, Pos.compare_cont_refl.
  destruct s; reflexivity.
Qed.

(** Adding a non-negative number to a non-negative number does not go
    below the first one: rounding to nearest is monotone and the first
    operand is representable. *)
Lemma SFadd_nonneg_le (x y : spec_float) :
  valid_binary x = true -> valid_binary y = true ->
  SFleb (S754_zero false) x = true ->
  SFleb (S754_zero false) y = true ->
  SFleb x (SF64add x y) = true.
Proof.
  intros Vx Vy Hx Hy.
  destruct x as [sx|[|]| |[|] mx ex]; try discriminate Hx;
  destruct y as [sy|[|]| |[|] my ey]; try discriminate Hy;
  repeat match goal with s : bool |- _ => destruct s end;
  try reflexivity;
  try (unfold SF64add, SFadd, SFleb; rewrite SFcompare_finite_refl;
       reflexivity).
  simpl in Vx, Vy. unfold bounded in Vx, Vy.
  { apply andb_prop in Vx as [Cx _]. apply andb_prop in Vy as [Cy _].
    pose proof (canonical_emin _ _ Cx) as Hex.
    pose proof (canonical_emin _ _ Cy) as Hey.
    unfold SF64add, SFadd, cond_Zopp.
    set (ez := Z.min ex ey).
    pose proof (shl_align_fst mx ex ez ltac:(lia)) as Hax.
    pose proof (shl_align_fst my ey ez ltac:(lia)) as Hay.
    set (ax := fst (shl_align mx ex ez)) in *.
    set (ay := fst (shl_align my ey ez)) in *.
    change (Zpos ax + Zpos ay)%Z with (Zpos (ax + ay)).
    unfold binary_normalize, binary_round.
    set (e' := fexp prec emax (Zpos (digits2_pos (ax + ay)) + ez)).
    assert (He' : emin <= e') by (unfold e', fexp; lia).
    pose proof (shl_align_snd (ax + ay) ez e') as Hs.
    destruct (Z.le_gt_cases ez e') as [Hle|Hgt].
    + assert (shl_align (ax + ay) ez e' = ((ax + ay)%positive, ez)) as ->.
      { unfold shl_align. destruct (e' - ez) eqn:E; try reflexivity. lia. }
      apply binary_round_aux_lower; [assumption|lia|].
      rewrite Pos2Z.inj_add, Hax. lia.
    + pose proof (shl_align_fst (ax + ay) ez e' ltac:(lia)) as Hf.
      destruct (shl_align (ax + ay) ez e') as [mz ez']. simpl in Hs, Hf.
      apply binary_round_aux_lower; [assumption|lia|].
      rewrite Hf, Pos2Z.inj_add, Hax.
      replace ez' with e' by lia.
      replace (ex - e') with ((ex - ez) + (ez - e')) by lia.
      rewrite Z.pow_add_r by lia.
      assert (0 < 2 ^ (ez - e')) by (apply Z.pow_pos_nonneg; lia).
      nia. }
Qed.

(** [<=] is transitive (NaN is related to nothing). *)
Lemma SFleb_trans (x y z : spec_float) :
  SFleb x y = true -> SFleb y z = true -> SFleb x z = true.
Proof.
  unfold SFleb.
  destruct x as [sx|sx| |sx mx ex], y as [sy|sy| |sy my ey],
           z as [sz|sz| |sz mz ez]; simpl;
    try discriminate; try reflexivity;
    repeat match goal with s : bool |- _ => destruct s end;
    try discriminate; try reflexivity;
    rewrite ?Pos.compare_cont_spec;
    destruct (Z.compare_spec ex ey), (Z.compare_spec ey ez),
             (Z.compare_spec ex ez);
    simpl; try discriminate; try reflexivity; try lia;
    destruct (Pos.compare_spec mx my), (Pos.compare_spec my mz),
             (Pos.compare_spec mx mz);
    simpl; try discriminate; try reflexivity; try lia.
Qed.

(** [x - y] is [x + (-y)], bit for bit. *)
Lemma SFsub_add_opp (x y : spec_float) :
  SF64sub x y = SF64add x (SFopp y).
Proof.
  destruct x as [sx|sx| |sx mx ex], y as [sy|sy| |sy my ey]; simpl;
    try reflexivity;
    destruct sx, sy; reflexivity.
Qed.

(** A finite number minus a number equal to it is a zero. *)
Lemma SFsub_eq_zero (x y : spec_float) :
  SFeqb x y = true ->
  match x with S754_zero _ | S754_finite _ _ _ => True | _ => False end ->
  SFeqb (SF64sub y x) (S754_zero false) = true.
Proof.
  unfold SFeqb. intros H Hf.
  destruct x as [sx|sx| |sx mx ex], y as [sy|sy| |sy my ey]; simpl in *;
    try discriminate; try contradiction;
    try (destruct sx; discriminate); try (destruct sy; discriminate).
  - destruct sx, sy; reflexivity.
  - assert (sx = sy /\ ex = ey /\ mx = my) as (-> & -> & ->).
    { rewrite Pos.compare_cont_spec in H.
      destruct sx, sy; try discriminate;
        destruct (Z.compare_spec ex ey); try discriminate;
        destruct (Pos.compare_spec mx my); try discriminate; auto. }
    rewrite Z.sub_diag. reflexivity.
Qed.
(** Equal numbers are not below one another. *)
Lemma SFeqb_not_ltb (x y : spec_float) :
  SFeqb x y = true -> SFltb y x = false.
Proof.
  unfold SFeqb, SFltb.
  destruct x as [sx|sx| |sx mx ex], y as [sy|sy| |sy my ey]; simpl;
    repeat match goal with s : bool |- _ => destruct s end;
    try discriminate; try reflexivity;
    rewrite ?Pos.compare_cont_spec;
    destruct (Z.compare_spec ex ey), (Z.compare_spec ey ex);
    simpl; try discriminate; try reflexivity; try lia;
    destruct (Pos.compare_spec mx my), (Pos.compare_spec my mx);
    simpl; try discriminate; try reflexivity; try lia.
Qed.
End Binary64.

(** The same facts on Python floats. *)

Lemma sub_add_opp (x y : float) : (x - y = x + - y)%float.
Proof.
  apply Prim2SF_inj. rewrite sub_spec, add_spec, opp_spec.
  apply Binary64.SFsub_add_opp.
Qed.

Lemma is_finite_spec (x : float) :
  is_finite x =
  match Prim2SF x with S754_zero _ | S754_finite _ _ _ => true | _ => false end.
Proof.
  unfold is_finite, is_nan, is_infinity.
  rewrite !FloatAxioms.eqb_spec, abs_spec.
  change (Prim2SF infinity) with (S754_infinity false).
  unfold SFeqb.
  destruct (Prim2SF x) as [s|s| |s m e]; try reflexivity.
  - destruct s; reflexivity.
  - rewrite Binary64.SFcompare_finite_refl. reflexivity.
Qed.

Lemma sub_eq_zero (x y : float) :
  is_finite x = true -> (x =? y)%float = true -> (y - x =? 0)%float = true.
Proof.
  rewrite is_finite_spec, !FloatAxioms.eqb_spec, sub_spec. intros Hf He.
  change (Prim2SF 0) with (S754_zero false).
  apply Binary64.SFsub_eq_zero; [assumption|].
  destruct (Prim2SF x); try discriminate; exact I.
Qed.

Lemma eqb_not_ltb (x y : float) :
  (x =? y)%float = true -> (y <? x)%float = false.
Proof.
  rewrite FloatAxioms.eqb_spec, FloatAxioms.ltb_spec.
  apply Binary64.SFeqb_not_ltb.
Qed.

Lemma add_nonneg_le (x y : float) :
  (0 <=? x)%float = true -> (0 <=? y)%float = true ->
  (x <=? x + y)%float = true.
Proof.
  rewrite !FloatAxioms.leb_spec, add_spec. change (Prim2SF 0) with (S754_zero false).
  apply Binary64.SFadd_nonneg_le; apply Prim2SF_valid.
Qed.

Lemma leb_trans (x y z : float) :
  (x <=? y)%float = true -> (y <=? z)%float = true -> (x <=? z)%float = true.
Proof. rewrite !FloatAxioms.leb_spec. apply Binary64.SFleb_trans. Qed.

Lemma add_nonneg (x y : float) :
  (0 <=? x)%float = true -> (0 <=? y)%float = true ->
  (0 <=? x + y)%float = true.
Proof.
  intros Hx Hy. eapply leb_trans; [exact Hx|]. apply add_nonneg_le; assumption.
Qed.

Lemma leb_refl_nonneg (x : float) :
  (0 <=? x)%float = true -> (x <=? x)%float = true.
Proof.
  rewrite !FloatAxioms.leb_spec. change (Prim2SF 0) with (S754_zero false).
  unfold SFleb. destruct (Prim2SF x) as [s|s| |s m e]; try discriminate.
  - reflexivity.
  - destruct s; reflexivity.
  - rewrite Binary64.SFcompare_finite_refl. reflexivity.
Qed.


Lemma eqb_refl (x : float) : is_nan x = false -> (x =? x)%float = true.
Proof. unfold is_nan. destruct (x =? x)%float; [reflexivity|discriminate]. Qed.

(** ** NaN *)

Lemma is_nan_spec (x : float) :
  is_nan x = match Prim2SF x with S754_nan => true | _ => false end.
Proof.
  unfold is_nan. rewrite FloatAxioms.eqb_spec. unfold SFeqb.
  destruct (Prim2SF x) as [s|s| |s m e]; try reflexivity.
  - destruct s; reflexivity.
  - rewrite Binary64.SFcompare_finite_refl. reflexivity.
Qed.

(** A comparison with NaN is false. *)
Lemma ltb_nan (x y : float) :
  is_nan x = true \/ is_nan y = true -> (x <? y)%float = false.
Proof.
  rewrite !is_nan_spec, FloatAxioms.ltb_spec. unfold SFltb.
  destruct (Prim2SF x) as [sx|sx| |sx mx ex], (Prim2SF y) as [sy|sy| |sy my ey];
    intros [H|H]; try discriminate H; reflexivity.
Qed.

(** NaN is absorbing for [+] and [-]. *)
Lemma sub_nan (x y : float) :
  is_nan x = true \/ is_nan y = true -> is_nan (x - y) = true.
Proof.
  rewrite !is_nan_spec, sub_spec.
  destruct (Prim2SF x) as [sx|sx| |sx mx ex], (Prim2SF y) as [sy|sy| |sy my ey];
    intros [H|H]; try discriminate H; reflexivity.
Qed.

Lemma add_nan (x y : float) :
  is_nan x = true \/ is_nan y = true -> is_nan (x + y) = true.
Proof.
  rewrite !is_nan_spec, add_spec.
  destruct (Prim2SF x) as [sx|sx| |sx mx ex], (Prim2SF y) as [sy|sy| |sy my ey];
    intros [H|H]; try discriminate H; reflexivity.
Qed.

(** ** The sign of a difference *)

Module Binary64Sign.

Import Binary64.
Local Open Scope Z_scope.

(** Rounding a positive number gives a number that is not negative. *)
Lemma binary_round_aux_nonneg (M : positive) (e : Z) (l : location) :
  SFleb (S754_zero false) (binary_round_aux prec emax false (Zpos M) e l) = true.
Proof.
  unfold binary_round_aux.
  destruct (shr_fexp_pos M e l) as [Hm1 _]. cbv zeta in Hm1.
  destruct (shr_fexp prec emax (Zpos M) e l) as [mrs1 e1]. simpl in Hm1.
  assert (H1 : 0 <= shr_m mrs1).
  { rewrite Hm1. apply Z.div_pos; [lia|]. apply Z.pow_pos_nonneg; lia. }
  pose proof (round_nearest_even_bounds (shr_m mrs1) (loc_of_shr_record mrs1)) as Hr.
  set (m2 := round_nearest_even (shr_m mrs1) (loc_of_shr_record mrs1)) in *.
  unfold shr_fexp.
  destruct (shr_m_e (shr_record_of_loc m2 loc_Exact) e1
              (fexp prec emax (Zdigits2 m2 + e1) - e1)) as [H3 _].
  { simpl. lia. }
  destruct (shr (shr_record_of_loc m2 loc_Exact) e1 _) as [mrs3 e3].
  simpl in H3.
  assert (H3' : 0 <= shr_m mrs3).
  { rewrite H3. apply Z.div_pos; [lia|]. apply Z.pow_pos_nonneg; lia. }
  destruct (shr_m mrs3) as [|m3|m3]; [reflexivity| |lia].
  destruct (e3 <=? emax - prec); reflexivity.
Qed.

(** Of two canonical positive numbers, the one that is not below the other
    has the larger mantissa once both are aligned. *)
Lemma canonical_not_ltb (mx my : positive) (ex ey : Z) :
  canonical_mantissa prec emax mx ex = true ->
  canonical_mantissa prec emax my ey = true ->
  SFltb (S754_finite false mx ex) (S754_finite false my ey) = false ->
  Zpos my * 2 ^ (ey - Z.min ex ey) <= Zpos mx * 2 ^ (ex - Z.min ex ey).
Proof.
  unfold canonical_mantissa, fexp, SFltb, SFcompare. intros Cx Cy Hlt.
  apply Z.eqb_eq in Cx, Cy.
  assert (Hprec : prec = 53) by reflexivity.
  assert (Hemin : emin = -1074) by reflexivity.
  pose proof (digits2_pos_bounds mx) as Hdx.
  pose proof (digits2_pos_bounds my) as Hdy.
  destruct (Z.compare_spec ex ey) as [E|E|E]; [|discriminate|].
  - subst ey. rewrite Z.min_id, Z.sub_diag, !Z.mul_1_r.
    rewrite Pos.compare_cont_spec in Hlt. simpl in Hlt.
    destruct (Pos.compare_spec mx my); try discriminate; lia.
  - rewrite Z.min_r by lia. rewrite Z.sub_diag, Z.mul_1_r.
    assert (Ex : Zpos (digits2_pos mx) = 53) by lia.
    assert (Ey : Zpos (digits2_pos my) <= 53) by lia.
    rewrite Ex in Hdx. change (2 ^ (53 - 1)) with 4503599627370496 in Hdx.
    assert (Zpos my < 2 ^ 53).
    { eapply Z.lt_le_trans; [apply Hdy|].
      apply Z.pow_le_mono_r; lia. }
    change (2 ^ 53) with 9007199254740992 in H.
    assert (2 <= 2 ^ (ex - ey)).
    { change 2 with (2 ^ 1) at 1. apply Z.pow_le_mono_r; lia. }
    nia.
Qed.

(** Subtracting from a number that is not negative a finite number that
    is not above it leaves a number that is not negative. *)
Lemma SFsub_nonneg (x y : spec_float) :
  valid_binary x = true -> valid_binary y = true ->
  SFleb (S754_zero false) x = true ->
  SFleb (S754_zero false) y = true ->
  match y with S754_zero _ | S754_finite _ _ _ => True | _ => False end ->
  SFltb x y = false ->
  SFleb (S754_zero false) (SF64sub x y) = true.
Proof.
  intros Vx Vy Hx Hy Fy Hlt.
  destruct x as [sx|[|]| |[|] mx ex]; try discriminate Hx;
  destruct y as [sy|[|]| |[|] my ey]; try discriminate Hy; try contradiction;
  try discriminate Hlt;
  repeat match goal with s : bool |- _ => destruct s end;
  try reflexivity;
  try (unfold SF64sub, SFsub; assumption).
  simpl in Vx, Vy. unfold bounded in Vx, Vy.
  apply andb_prop in Vx as [Cx _]. apply andb_prop in Vy as [Cy _].
  pose proof (canonical_emin _ _ Cx) as Hex.
  pose proof (canonical_emin _ _ Cy) as Hey.
  pose proof (canonical_not_ltb _ _ _ _ Cx Cy Hlt) as Hle.
  unfold SF64sub, SFsub, cond_Zopp.
  set (ez := Z.min ex ey) in *.
  rewrite <- (shl_align_fst mx ex ez) in Hle by lia.
  rewrite <- (shl_align_fst my ey ez) in Hle by lia.
  destruct (Zpos (fst (shl_align mx ex ez)) - Zpos (fst (shl_align my ey ez)))
    as [|M|M] eqn:EM; [reflexivity| |lia].
  unfold binary_normalize, binary_round.
  destruct (shl_align M ez _) as [mz ez'].
  apply binary_round_aux_nonneg.
Qed.

End Binary64Sign.

Lemma sub_nonneg (b a : float) :
  (0 <=? b)%float = true -> (0 <=? a)%float = true -> is_finite a = true ->
  (b <? a)%float = false ->
  (0 <=? b - a)%float = true.
Proof.
  rewrite is_finite_spec, !FloatAxioms.leb_spec, FloatAxioms.ltb_spec, sub_spec.
  change (Prim2SF 0) with (S754_zero false).
  intros Hb Ha Fa Hlt.
  apply Binary64Sign.SFsub_nonneg; try apply Prim2SF_valid; try assumption.
  destruct (Prim2SF a); try discriminate; exact I.
Qed.

(** * Rounding is monotone *)

Module Rounding.

Import Binary64.
Local Open Scope Z_scope.

(** ** Weights and shifts *)

Lemma shifted_by_1 (w : Z) : shifted_by 1 w = w.
Proof.
  unfold shifted_by. change (2 * 1) with 2.
  destruct (Z.eqb_spec (w mod 2) 0); Z.div_mod_to_equations; lia.
Qed.

Lemma shifted_0 (w : Z) : shifted 0 w = w.
Proof. apply shifted_by_1. Qed.

(** Two shifts in a row are one shift. *)
Lemma shifted_by_mul (P Q w : Z) :
  0 < P -> 0 < Q -> shifted_by Q (shifted_by P w) = shifted_by (P * Q) w.
Proof.
  intros HP HQ. unfold shifted_by.
  set (a := w / (2 * P)). set (r0 := w mod (2 * P)).
  assert (Hr0 : 0 <= r0 < 2 * P) by (apply Z.mod_pos_bound; lia).
  set (b := if r0 =? 0 then 0 else 1).
  assert (Hb : (b = 0 /\ r0 = 0) \/ (b = 1 /\ r0 <> 0)).
  { unfold b. destruct (Z.eqb_spec r0 0); lia. }
  assert (Ha : 0 <= a mod Q < Q) by (apply Z.mod_pos_bound; lia).
  assert (E1 : (2 * a + b) / (2 * Q) = a / Q).
  { rewrite <- Z.div_div by lia. f_equal.
    symmetry. apply Z.div_unique with b; lia. }
  assert (E2 : (2 * a + b) mod (2 * Q) = 2 * (a mod Q) + b).
  { symmetry. apply Z.mod_unique with (a / Q); [lia|].
    pose proof (Z.div_mod a Q ltac:(lia)). lia. }
  assert (E3 : w / (2 * (P * Q)) = a / Q).
  { replace (2 * (P * Q)) with (2 * P * Q) by lia.
    rewrite <- Z.div_div by lia. reflexivity. }
  assert (E4 : w mod (2 * (P * Q)) = r0 + 2 * P * (a mod Q)).
  { replace (2 * (P * Q)) with (2 * P * Q) by lia.
    rewrite Z.rem_mul_r by lia. reflexivity. }
  rewrite E1, E2, E3, E4.
  destruct (Z.eqb_spec (2 * (a mod Q) + b) 0),
           (Z.eqb_spec (r0 + 2 * P * (a mod Q)) 0); try reflexivity; nia.
Qed.

Lemma shifted_add (j k w : Z) :
  0 <= j -> 0 <= k -> shifted j (shifted k w) = shifted (k + j) w.
Proof.
  intros Hj Hk. unfold shifted.
  rewrite shifted_by_mul by (apply Z.pow_pos_nonneg; lia).
  rewrite Z.pow_add_r by lia. reflexivity.
Qed.

(** A shift after a multiplication. *)
Lemma shifted_by_scale (P J w : Z) :
  0 < P -> 0 < J -> shifted_by (P * J) (w * J) = shifted_by P w.
Proof.
  intros HP HJ. unfold shifted_by.
  replace (2 * (P * J)) with (2 * P * J) by lia.
  rewrite Z.div_mul_cancel_r by lia.
  rewrite Z.mul_mod_distr_r by lia.
  destruct (Z.eqb_spec (w mod (2 * P) * J) 0),
           (Z.eqb_spec (w mod (2 * P)) 0); try reflexivity; nia.
Qed.

Lemma shifted_scale (k j w : Z) :
  0 <= k -> 0 <= j -> shifted (k + j) (w * 2 ^ j) = shifted k w.
Proof.
  intros Hk Hj. unfold shifted.
  rewrite Z.pow_add_r by lia.
  apply shifted_by_scale; apply Z.pow_pos_nonneg; lia.
Qed.

Lemma shifted_exact (k n : Z) : 0 <= k -> shifted k (n * 2 ^ k) = n.
Proof.
  intros Hk. replace (shifted k (n * 2 ^ k)) with (shifted (0 + k) (n * 2 ^ k))
    by reflexivity.
  rewrite shifted_scale by lia. apply shifted_0.
Qed.

Lemma shifted_by_mono (P w1 w2 : Z) :
  0 < P -> w1 <= w2 -> shifted_by P w1 <= shifted_by P w2.
Proof.
  intros HP Hw. unfold shifted_by.
  assert (HD : 0 < 2 * P) by lia.
  set (D := 2 * P) in *.
  pose proof (Z.div_le_mono w1 w2 D HD Hw) as Hdiv.
  pose proof (Z.div_mod w1 D ltac:(lia)) as E1.
  pose proof (Z.div_mod w2 D ltac:(lia)) as E2.
  pose proof (Z.mod_pos_bound w1 D HD) as B1.
  pose proof (Z.mod_pos_bound w2 D HD) as B2.
  destruct (Z.eqb_spec (w1 mod D) 0), (Z.eqb_spec (w2 mod D) 0); try lia.
  destruct (Z.eq_dec (w1 / D) (w2 / D)) as [E|E]; [|lia].
  rewrite E in E1. nia.
Qed.

Lemma shifted_mono (k w1 w2 : Z) :
  0 <= k -> w1 <= w2 -> shifted k w1 <= shifted k w2.
Proof.
  intros Hk. apply shifted_by_mono. apply Z.pow_pos_nonneg; lia.
Qed.

(** The mantissa of a shifted weight. *)
Lemma shifted_by_div_4 (P w : Z) :
  0 < P -> shifted_by P w / 4 = w / (4 * P).
Proof.
  intros HP. unfold shifted_by.
  replace (4 * P) with (2 * P * 2) by lia.
  rewrite <- (Z.div_div w (2 * P) 2) by lia.
  generalize (w / (2 * P)). intros a.
  destruct (w mod (2 * P) =? 0); Z.div_mod_to_equations; lia.
Qed.

Lemma shifted_div_4 (k w : Z) :
  0 <= k -> shifted k w / 4 = w / (4 * 2 ^ k).
Proof.
  intros Hk. apply shifted_by_div_4. apply Z.pow_pos_nonneg; lia.
Qed.

(** ** [shr_1] and [shr] on weights *)

Lemma weight_shr_1 (mrs : shr_record) :
  0 <= shr_m mrs ->
  weight (shr_1 mrs) = shifted 1 (weight mrs) /\ 0 <= shr_m (shr_1 mrs).
Proof.
  destruct mrs as [m r s]. simpl shr_m. intros Hm.
  unfold shifted, shifted_by. change (2 * 2 ^ 1) with 4.
  destruct m as [|[p|p|]|]; try lia; destruct r, s; unfold weight; simpl;
    (split; [|lia]);
    repeat match goal with
    | |- context [?a mod 4 =? 0] => destruct (Z.eqb_spec (a mod 4) 0)
    end; Z.div_mod_to_equations; lia.
Qed.

Lemma weight_iter_shr_1 (p : positive) (mrs : shr_record) :
  0 <= shr_m mrs ->
  weight (SpecFloat.iter_pos shr_1 p mrs) = shifted (Zpos p) (weight mrs) /\
  0 <= shr_m (SpecFloat.iter_pos shr_1 p mrs).
Proof.
  revert mrs. induction p as [p IH|p IH|]; intros mrs Hm; simpl SpecFloat.iter_pos.
  - destruct (weight_shr_1 mrs Hm) as [E1 H1].
    destruct (IH _ H1) as [E2 H2]. destruct (IH _ H2) as [E3 H3].
    split; [|assumption].
    rewrite E3, E2, E1, !shifted_add by lia. f_equal. lia.
  - destruct (IH _ Hm) as [E2 H2]. destruct (IH _ H2) as [E3 H3].
    split; [|assumption].
    rewrite E3, E2, !shifted_add by lia. f_equal. lia.
  - apply weight_shr_1. assumption.
Qed.

Lemma weight_shr (mrs : shr_record) (e n : Z) :
  0 <= shr_m mrs ->
  weight (fst (shr mrs e n)) = shifted (Z.max n 0) (weight mrs) /\
  0 <= shr_m (fst (shr mrs e n)) /\
  snd (shr mrs e n) = e + Z.max n 0.
Proof.
  intros Hm. destruct n as [|p|p]; simpl.
  - rewrite shifted_0. lia.
  - destruct (weight_iter_shr_1 p mrs Hm) as [E H]. rewrite E.
    repeat split; assumption.
  - rewrite shifted_0. lia.
Qed.

Lemma weight_of_loc (m : Z) (l : location) :
  4 * m <= weight (shr_record_of_loc m l) <= 4 * m + 3 /\
  shr_m (shr_record_of_loc m l) = m.
Proof. destruct l as [|[| |]]; unfold weight; simpl; lia. Qed.

(** ** Rounding to nearest on weights *)

Lemma nearest_weight (mrs : shr_record) :
  round_nearest_even (shr_m mrs) (loc_of_shr_record mrs) = nearest (weight mrs).
Proof.
  destruct mrs as [m r s]. unfold nearest, weight. simpl shr_m. simpl shr_r. simpl shr_s.
  assert (E : forall b, 0 <= b < 4 -> (4 * m + b) / 4 = m /\ (4 * m + b) mod 4 = b).
  { intros b Hb. split; [symmetry; apply Z.div_unique with b; lia|].
    symmetry; apply Z.mod_unique with m; lia. }
  destruct r, s; simpl loc_of_shr_record; simpl round_nearest_even;
    match goal with
    | |- context [(?a + ?x + ?y) / 4] =>
        replace (a + x + y) with (a + (x + y)) by lia;
        destruct (E (x + y) ltac:(lia)) as [-> ->]
    end; reflexivity.
Qed.

Lemma nearest_exact (n : Z) : nearest (4 * n) = n.
Proof.
  unfold nearest.
  replace (4 * n / 4) with n by (apply Z.div_unique with 0; lia).
  replace (4 * n mod 4) with 0 by (apply Z.mod_unique with n; lia).
  reflexivity.
Qed.

Lemma nearest_bounds (w : Z) : w / 4 <= nearest w <= w / 4 + 1.
Proof.
  unfold nearest.
  destruct (w mod 4 <=? 1); [lia|].
  destruct (w mod 4 =? 2); [|lia]. destruct (Z.even (w / 4)); lia.
Qed.

Lemma nearest_mono (w1 w2 : Z) : w1 <= w2 -> nearest w1 <= nearest w2.
Proof.
  intros Hw.
  pose proof (nearest_bounds w1) as B1. pose proof (nearest_bounds w2) as B2.
  destruct (Z.eq_dec (w1 / 4) (w2 / 4)) as [E|E].
  - unfold nearest. rewrite E.
    destruct (Z.leb_spec (w1 mod 4) 1), (Z.leb_spec (w2 mod 4) 1),
             (Z.eqb_spec (w1 mod 4) 2), (Z.eqb_spec (w2 mod 4) 2),
             (Z.even (w2 / 4)); try lia;
      Z.div_mod_to_equations; lia.
  - assert (w1 / 4 < w2 / 4) by (Z.div_mod_to_equations; lia). lia.
Qed.

(** ** [binary_round_aux] on weights *)

Lemma Zdigits2_bounds (M : Z) :
  0 <= M -> 0 <= Zdigits2 M /\ M < 2 ^ Zdigits2 M /\
  (0 < M -> 2 ^ (Zdigits2 M - 1) <= M).
Proof.
  destruct M as [|p|p]; simpl; try lia.
  intros _. pose proof (digits2_pos_bounds p). lia.
Qed.

(** Numbers in order have their numbers of digits in order. *)
Lemma digits_le (M1 M2 e1 e2 e0 : Z) :
  0 <= M1 -> 0 < M2 -> e0 <= e1 -> e0 <= e2 ->
  M1 * 2 ^ (e1 - e0) <= M2 * 2 ^ (e2 - e0) ->
  0 < M1 -> Zdigits2 M1 + e1 <= Zdigits2 M2 + e2.
Proof.
  intros H1 H2 He1 He2 Hle Hpos.
  destruct (Zdigits2_bounds M1 H1) as (D1 & _ & L1).
  destruct (Zdigits2_bounds M2 ltac:(lia)) as (D2 & U2 & _).
  specialize (L1 Hpos).
  assert (Hlt : 2 ^ (Zdigits2 M1 - 1 + (e1 - e0)) < 2 ^ (Zdigits2 M2 + (e2 - e0))).
  { assert (0 < Zdigits2 M1) by (destruct M1; simpl in *; lia).
    rewrite !Z.pow_add_r by lia.
    assert (0 < 2 ^ (e1 - e0)) by (apply Z.pow_pos_nonneg; lia).
    assert (0 < 2 ^ (e2 - e0)) by (apply Z.pow_pos_nonneg; lia).
    nia. }
  apply Z.pow_lt_mono_r_iff in Hlt; lia.
Qed.

Lemma binary_round_aux_weight (M e : Z) (l : location) :
  0 <= M ->
  binary_round_aux prec emax false M e l =
  renormalized
    (nearest (shifted (Z.max e (fexp prec emax (Zdigits2 M + e)) - e)
                (weight (shr_record_of_loc M l))))
    (Z.max e (fexp prec emax (Zdigits2 M + e))).
Proof.
  intros HM. unfold binary_round_aux, renormalized.
  unfold shr_fexp at 1.
  destruct (weight_of_loc M l) as [_ Hm].
  destruct (weight_shr (shr_record_of_loc M l) e
              (fexp prec emax (Zdigits2 M + e) - e)) as (Hw & _ & He); [lia|].
  destruct (shr (shr_record_of_loc M l) e _) as [mrs1 e1]. simpl in Hw, He.
  rewrite nearest_weight, Hw.
  replace e1 with (Z.max e (fexp prec emax (Zdigits2 M + e))) by lia.
  replace (Z.max (fexp prec emax (Zdigits2 M + e) - e) 0)
    with (Z.max e (fexp prec emax (Zdigits2 M + e)) - e) by lia.
  reflexivity.
Qed.

(** The mantissa after rounding has at most [prec] digits, or is
    [2 ^ prec]. *)
Lemma nearest_range (M k : Z) (l : location) :
  0 <= M -> 0 <= k -> Zdigits2 M - prec <= k ->
  0 <= nearest (shifted k (weight (shr_record_of_loc M l))) <= 2 ^ prec.
Proof.
  intros HM Hk Hd.
  destruct (weight_of_loc M l) as [Hw _].
  destruct (Zdigits2_bounds M HM) as (D & U & _).
  set (w := weight (shr_record_of_loc M l)) in *.
  pose proof (nearest_bounds (shifted k w)) as B.
  rewrite shifted_div_4 in B by assumption.
  assert (P : 0 < 2 ^ k) by (apply Z.pow_pos_nonneg; lia).
  assert (0 <= w / (4 * 2 ^ k)) by (apply Z.div_pos; lia).
  assert (w / (4 * 2 ^ k) < 2 ^ prec).
  { apply Z.div_lt_upper_bound; [lia|].
    assert (2 ^ Zdigits2 M <= 2 ^ (k + prec)) by (apply Z.pow_le_mono_r; lia).
    rewrite Z.pow_add_r in * by (unfold prec; lia). nia. }
  lia.
Qed.

Lemma renormalized_eq (m c : Z) :
  emin <= c -> 0 <= m <= 2 ^ prec ->
  renormalized m c =
  if m <? 2 ^ prec then rounded m c else rounded (2 ^ (prec - 1)) (c + 1).
Proof.
  intros Hc Hm. unfold renormalized, shr_fexp.
  destruct (Z.ltb_spec m (2 ^ prec)) as [Hlt|Hge].
  - destruct (Zdigits2_bounds m ltac:(lia)) as (D & _ & L).
    assert (Hd : Zdigits2 m <= prec).
    { destruct (Z.eq_dec m 0) as [->|Hne]; [simpl; unfold prec; lia|].
      specialize (L ltac:(lia)).
      assert (2 ^ (Zdigits2 m - 1) < 2 ^ prec) as Hp by lia.
      apply Z.pow_lt_mono_r_iff in Hp; unfold prec in *; lia. }
    assert (Hn : fexp prec emax (Zdigits2 m + c) - c <= 0) by (unfold fexp; lia).
    destruct (fexp prec emax (Zdigits2 m + c) - c); [reflexivity|lia|reflexivity].
  - assert (m = 2 ^ prec) as -> by lia.
    change (Zdigits2 (2 ^ prec)) with 54.
    replace (fexp prec emax (54 + c) - c) with 1 by (unfold fexp, prec in *; lia).
    reflexivity.
Qed.

(** ** The order of rounded numbers *)

Lemma rounded_le (m1 m2 c1 c2 : Z) :
  0 <= m1 ->
  (c1 < c2 /\ 0 < m2) \/ (c1 = c2 /\ m1 <= m2) ->
  SFleb (rounded m1 c1) (rounded m2 c2) = true.
Proof.
  intros H1 H. unfold rounded.
  destruct m1 as [|p1|p1], m2 as [|p2|p2]; try lia;
    destruct (Z.leb_spec c1 (emax - prec)), (Z.leb_spec c2 (emax - prec));
    try reflexivity; try lia;
    unfold SFleb, SFcompare;
    destruct (Z.compare_spec c1 c2); try reflexivity; try lia;
    rewrite Pos.compare_cont_spec; simpl;
    destruct (Pos.compare_spec p1 p2); try reflexivity; lia.
Qed.

Lemma rounded_nonneg (m c : Z) :
  0 <= m -> SFleb (S754_zero false) (rounded m c) = true.
Proof.
  intros H. unfold rounded. destruct m as [|p|p]; try lia; [reflexivity|].
  destruct (c <=? emax - prec); reflexivity.
Qed.

Lemma renormalized_nonneg (m c : Z) :
  emin <= c -> 0 <= m <= 2 ^ prec ->
  SFleb (S754_zero false) (renormalized m c) = true.
Proof.
  intros Hc Hm. rewrite renormalized_eq by assumption.
  destruct (m <? 2 ^ prec); apply rounded_nonneg; [lia|].
  apply Z.pow_nonneg; lia.
Qed.

(** Renormalization keeps the order, between mantissas at one exponent... *)
Lemma renormalized_le (m1 m2 c : Z) :
  emin <= c -> 0 <= m1 -> m1 <= m2 -> m2 <= 2 ^ prec ->
  SFleb (renormalized m1 c) (renormalized m2 c) = true.
Proof.
  intros Hc H1 H12 H2. rewrite !renormalized_eq by lia.
  assert (0 < 2 ^ (prec - 1)) by reflexivity.
  destruct (Z.ltb_spec m1 (2 ^ prec)), (Z.ltb_spec m2 (2 ^ prec));
    apply rounded_le; lia.
Qed.

(** ... and from a smaller exponent to a larger one, where the mantissa is
    normal. *)
Lemma renormalized_lt (m1 m2 c1 c2 : Z) :
  emin <= c1 -> c1 < c2 ->
  0 <= m1 <= 2 ^ prec -> 2 ^ (prec - 1) <= m2 <= 2 ^ prec ->
  SFleb (renormalized m1 c1) (renormalized m2 c2) = true.
Proof.
  intros Hc H12 H1 H2. rewrite !renormalized_eq by lia.
  assert (0 < 2 ^ (prec - 1)) by reflexivity.
  destruct (Z.ltb_spec m1 (2 ^ prec)), (Z.ltb_spec m2 (2 ^ prec));
    apply rounded_le; lia.
Qed.

Lemma canonical_digits (mx : positive) (ex : Z) :
  canonical_mantissa prec emax mx ex = true ->
  fexp prec emax (Zpos (digits2_pos mx) + ex) = ex /\
  emin <= ex /\ Zpos mx < 2 ^ prec.
Proof.
  unfold canonical_mantissa. intros H. apply Z.eqb_eq in H.
  split; [assumption|]. split; [unfold fexp in H; lia|].
  pose proof (digits2_pos_bounds mx) as [_ U].
  eapply Z.lt_le_trans; [exact U|].
  apply Z.pow_le_mono_r; [lia|]. unfold fexp in H. lia.
Qed.

(** Rounding what is not above a binary64 number gives a number that is
    not above it. *)
Lemma binary_round_aux_upper (M e : Z) (l : location) (mx : positive) (ex : Z) :
  0 <= M ->
  canonical_mantissa prec emax mx ex = true -> ex <= emax - prec ->
  e <= ex ->
  weight (shr_record_of_loc M l) <= 4 * (Zpos mx * 2 ^ (ex - e)) ->
  SFleb (binary_round_aux prec emax false M e l) (S754_finite false mx ex) = true.
Proof.
  intros HM Hcan Hex He Hw.
  destruct (canonical_digits _ _ Hcan) as (Hf & Hemin & Hmx).
  destruct (weight_of_loc M l) as [HwM _].
  rewrite binary_round_aux_weight by assumption.
  set (c := Z.max e (fexp prec emax (Zdigits2 M + e))).
  assert (Hc : c <= ex).
  { destruct (Z.eq_dec M 0) as [->|Hne].
    - unfold c. simpl Zdigits2. unfold fexp in *. lia.
    - assert (Zdigits2 M + e <= Zdigits2 (Zpos mx) + ex).
      { apply (digits_le M (Zpos mx) e ex e); try lia.
        rewrite Z.sub_diag, Z.mul_1_r. lia. }
      simpl Zdigits2 in H. unfold c, fexp in *. lia. }
  assert (Hce : emin <= c) by (unfold c, fexp; lia).
  set (m2 := nearest (shifted (c - e) (weight (shr_record_of_loc M l)))).
  assert (Hr : 0 <= m2 <= 2 ^ prec).
  { apply nearest_range; [assumption|unfold c; lia|unfold c, fexp; lia]. }
  assert (Hm2 : m2 <= Zpos mx * 2 ^ (ex - c)).
  { unfold m2.
    rewrite <- (nearest_exact (Zpos mx * 2 ^ (ex - c))).
    apply nearest_mono.
    rewrite <- (shifted_exact (c - e) (4 * (Zpos mx * 2 ^ (ex - c))))
      by (unfold c; lia).
    apply shifted_mono; [unfold c; lia|].
    replace (4 * (Zpos mx * 2 ^ (ex - c)) * 2 ^ (c - e))
      with (4 * (Zpos mx * (2 ^ (ex - c) * 2 ^ (c - e)))) by lia.
    rewrite <- Z.pow_add_r by (unfold c; lia).
    replace (ex - c + (c - e)) with (ex - e) by lia. assumption. }
  replace (S754_finite false mx ex) with (rounded (Zpos mx) ex)
    by (unfold rounded; destruct (Z.leb_spec ex (emax - prec)); [reflexivity|lia]).
  rewrite renormalized_eq by assumption.
  destruct (Z.eq_dec c ex) as [E|E].
  - rewrite E, Z.sub_diag, Z.mul_1_r in Hm2.
    destruct (Z.ltb_spec m2 (2 ^ prec)); [|lia].
    apply rounded_le; lia.
  - destruct (Z.ltb_spec m2 (2 ^ prec)); [apply rounded_le; lia|].
    apply rounded_le; [apply Z.pow_nonneg; lia|].
    destruct (Z.eq_dec (c + 1) ex) as [E1|E1]; [|lia].
    right. split; [assumption|].
    replace (ex - c) with 1 in Hm2 by lia.
    change (2 ^ 1) with 2 in Hm2.
    change (2 ^ prec) with (2 * 2 ^ (prec - 1)) in *. lia.
Qed.

End Rounding.

(** * The quotient of the chart *)

Module Quotient.

Import Binary64 Binary64Sign Rounding.
Local Open Scope Z_scope.

(** The binary64 numbers [1.0] and [100.0]. *)
Lemma Prim2SF_1 : Prim2SF 1 = S754_finite false 4503599627370496 (-52).
Proof. reflexivity. Qed.

Lemma Prim2SF_100 : Prim2SF 100 = S754_finite false 7036874417766400 (-46).
Proof. reflexivity. Qed.

(** Two binary64 numbers in order have their mantissas in order once they
    are aligned. *)
Lemma canonical_leb (mx my : positive) (ex ey : Z) :
  canonical_mantissa prec emax mx ex = true ->
  canonical_mantissa prec emax my ey = true ->
  SFleb (S754_finite false mx ex) (S754_finite false my ey) = true ->
  ex <= ey /\
  Zpos mx * 2 ^ (ex - Z.min ex ey) <= Zpos my * 2 ^ (ey - Z.min ex ey).
Proof.
  intros Cx Cy Hle.
  assert (Hlt : SFltb (S754_finite false my ey) (S754_finite false mx ex) = false).
  { unfold SFleb, SFltb, SFcompare in *.
    rewrite (Z.compare_antisym ex ey).
    destruct (ex ?= ey); simpl; try reflexivity; try discriminate.
    rewrite Pos.compare_cont_spec in *. simpl in *.
    rewrite (Pos.compare_antisym mx my).
    destruct (mx ?= my)%positive; simpl; try reflexivity; discriminate. }
  split.
  - unfold SFleb, SFcompare in Hle.
    destruct (Z.compare_spec ex ey); try lia; discriminate.
  - pose proof (canonical_not_ltb _ _ _ _ Cy Cx Hlt) as H.
    rewrite (Z.min_comm ey ex) in H. exact H.
Qed.

(** Rounding a number that is not negative gives a number that is not
    negative. *)
Lemma binary_round_aux_ge_0 (M e : Z) (l : location) :
  0 <= M ->
  SFleb (S754_zero false) (binary_round_aux prec emax false M e l) = true.
Proof.
  intros HM. rewrite binary_round_aux_weight by assumption.
  apply renormalized_nonneg; [unfold fexp; lia|].
  apply nearest_range; [assumption|lia|unfold fexp; lia].
Qed.

(** The integer quotient that [SFdiv] rounds, when the dividend is not
    above the divisor: it is not above [1.0]. *)
Lemma SFdiv_core_le_1 (mx my : positive) (ex ey : Z) :
  canonical_mantissa prec emax mx ex = true ->
  canonical_mantissa prec emax my ey = true ->
  SFleb (S754_finite false mx ex) (S754_finite false my ey) = true ->
  let '(q, e, l) := SFdiv_core_binary prec emax (Zpos mx) ex (Zpos my) ey in
  0 <= q /\ e <= -53 /\ weight (shr_record_of_loc q l) <= 4 * 2 ^ (- e).
Proof.
  intros Cx Cy Hle.
  destruct (canonical_leb _ _ _ _ Cx Cy Hle) as [Hexy Hm].
  rewrite Z.min_l, Z.sub_diag, Z.mul_1_r in Hm by assumption.
  unfold SFdiv_core_binary.
  assert (Hd : Zdigits2 (Zpos mx) + ex <= Zdigits2 (Zpos my) + ey).
  { apply (digits_le (Zpos mx) (Zpos my) ex ey ex); try lia.
    rewrite Z.sub_diag, Z.mul_1_r. assumption. }
  set (e := Z.min (fexp prec emax (Zdigits2 (Zpos mx) + ex - (Zdigits2 (Zpos my) + ey)))
                  (ex - ey)).
  assert (He : e <= -53) by (unfold e, fexp, SpecFloat.emin, emax, prec; lia).
  assert (Hs : 0 <= ex - ey - e) by (unfold e; lia).
  set (m := match ex - ey - e with
            | 0 => Zpos mx
            | Zpos _ => Z.shiftl (Zpos mx) (ex - ey - e)
            | Zneg _ => 0
            end).
  assert (Em : m = Zpos mx * 2 ^ (ex - ey - e)).
  { unfold m. destruct (ex - ey - e) as [|s|s] eqn:Es; [simpl; lia| |lia].
    apply Z.shiftl_mul_pow2. lia. }
  assert (Hmk : m <= Zpos my * 2 ^ (- e)).
  { rewrite Em.
    replace (- e) with (ey - ex + (ex - ey - e)) by lia.
    rewrite Z.pow_add_r by lia.
    assert (0 < 2 ^ (ex - ey - e)) by (apply Z.pow_pos_nonneg; lia).
    nia. }
  assert (Hm0 : 0 <= m) by (rewrite Em; pose proof (Z.pow_nonneg 2 (ex - ey - e)); nia).
  pose proof (Z.div_mod m (Zpos my) ltac:(lia)) as Hdm.
  pose proof (Z.mod_pos_bound m (Zpos my) ltac:(lia)) as Hmod.
  unfold Z.modulo, Z.div in Hdm, Hmod.
  destruct (Z.div_eucl m (Zpos my)) as [q r].
  assert (Hq : 0 <= q) by nia.
  assert (HK : 0 < 2 ^ (- e)) by (apply Z.pow_pos_nonneg; lia).
  split; [assumption|]. split; [assumption|].
  destruct (weight_of_loc q (new_location (Zpos my) r)) as [[_ Hw] _].
  destruct (Z.eq_dec r 0) as [->|Hr].
  - assert (new_location (Zpos my) 0 = loc_Exact) as ->.
    { unfold new_location, new_location_even, new_location_odd.
      destruct (IntDef.Z.even (Zpos my)); reflexivity. }
    unfold weight. simpl. nia.
  - assert (q < 2 ^ (- e)) by nia. lia.
Qed.

(** A quotient of a number by a number not below it is between zero and
    one. *)
Lemma SFdiv_le_1 (x y : spec_float) :
  valid_binary x = true -> valid_binary y = true ->
  SFleb (S754_zero false) x = true ->
  SFltb (S754_zero false) y = true ->
  SFleb x y = true ->
  match y with S754_finite _ _ _ => True | _ => False end ->
  SFleb (S754_zero false) (SF64div x y) = true /\
  SFleb (SF64div x y) (S754_finite false 4503599627370496 (-52)) = true.
Proof.
  intros Vx Vy Hx Hy Hxy Fy.
  destruct y as [sy|sy| |sy my ey]; try contradiction.
  destruct sy; [discriminate Hy|].
  destruct x as [sx|[|]| |[|] mx ex]; try discriminate Hx; try discriminate Hxy.
  - destruct sx; split; reflexivity.
  - simpl in Vx, Vy. unfold bounded in Vx, Vy.
    apply andb_prop in Vx as [Cx _]. apply andb_prop in Vy as [Cy _].
    pose proof (SFdiv_core_le_1 _ _ _ _ Cx Cy Hxy) as H.
    unfold SF64div, SFdiv.
    destruct (SFdiv_core_binary prec emax (Zpos mx) ex (Zpos my) ey) as [[q e] l].
    destruct H as (Hq & He & Hw). simpl xorb.
    split; [apply binary_round_aux_ge_0; assumption|].
    apply binary_round_aux_upper; try assumption; try reflexivity; try lia.
    + unfold emax, prec. lia.
    + replace (4503599627370496 * 2 ^ (-52 - e)) with (2 ^ (- e)); [assumption|].
      replace (- e) with (52 + (-52 - e)) by lia.
      rewrite Z.pow_add_r by lia. reflexivity.
Qed.

(** A number between zero and one, times one hundred, is between zero and
    one hundred. *)
Lemma SFmul_100_le (x : spec_float) :
  valid_binary x = true ->
  SFleb (S754_zero false) x = true ->
  SFleb x (S754_finite false 4503599627370496 (-52)) = true ->
  SFleb (S754_zero false)
    (SF64mul x (S754_finite false 7036874417766400 (-46))) = true /\
  SFleb (SF64mul x (S754_finite false 7036874417766400 (-46)))
    (S754_finite false 7036874417766400 (-46)) = true.
Proof.
  intros Vx Hx H1.
  destruct x as [sx|[|]| |[|] mx ex]; try discriminate Hx; try discriminate H1.
  - destruct sx; split; reflexivity.
  - simpl in Vx. unfold bounded in Vx. apply andb_prop in Vx as [Cx _].
    destruct (canonical_leb mx 4503599627370496 ex (-52) Cx eq_refl H1) as [He Hm].
    rewrite Z.min_l, Z.sub_diag, Z.mul_1_r in Hm by assumption.
    unfold SF64mul, SFmul. simpl xorb.
    split; [apply binary_round_aux_ge_0; lia|].
    apply binary_round_aux_upper; try reflexivity; try lia.
    + unfold emax, prec. lia.
    + unfold weight. simpl shr_m. simpl shr_r. simpl shr_s.
      replace (-46 - (ex + -46)) with (-52 - ex + 52) by lia.
      rewrite Z.pow_add_r by lia.
      change (2 ^ 52) with 4503599627370496.
      rewrite Pos2Z.inj_mul. nia.
Qed.

(** The floor of a binary64 number between zero and one hundred. *)
Lemma floor_le_100 (s : bool) (m : positive) (e : Z) :
  canonical_mantissa prec emax m e = true ->
  SFleb (S754_zero false) (S754_finite s m e) = true ->
  SFleb (S754_finite s m e) (S754_finite false 7036874417766400 (-46)) = true ->
  0 <= Z.shiftl (cond_Zopp s (Zpos m)) e <= 100.
Proof.
  intros C H0 H100. destruct s; [discriminate H0|]. simpl cond_Zopp.
  destruct (canonical_leb m 7036874417766400 e (-46) C eq_refl H100) as [He Hm].
  rewrite Z.min_l, Z.sub_diag, Z.mul_1_r in Hm by assumption.
  rewrite Z.shiftl_div_pow2 by lia.
  assert (0 < 2 ^ (- e)) by (apply Z.pow_pos_nonneg; lia).
  split; [apply Z.div_pos; lia|].
  apply Z.div_le_upper_bound; [assumption|].
  replace (-46 - e) with (- e - 46) in Hm by lia.
  assert (E : 2 ^ (- e) = 2 ^ 46 * 2 ^ (- e - 46)).
  { rewrite <- Z.pow_add_r by lia. f_equal. lia. }
  rewrite E. change (2 ^ 46) with 70368744177664. lia.
Qed.

End Quotient.

(** The same facts on Python floats. *)

Lemma ltb_0_neq_0 (t : float) : (0 <? t)%float = true -> (t =? 0)%float = false.
Proof.
  rewrite FloatAxioms.ltb_spec, FloatAxioms.eqb_spec.
  change (Prim2SF 0) with (S754_zero false).
  unfold SFltb, SFeqb.
  destruct (Prim2SF t) as [s|s| |s m e]; try discriminate; destruct s;
    try discriminate; reflexivity.
Qed.

(** The floor of a hundred times a quotient that is at most one. *)
Lemma math_floor_quotient (x t : float) :
  (0 <=? x)%float = true -> (x <=? t)%float = true ->
  (0 <? t)%float = true -> is_finite t = true ->
  exists f, math_floor (x / t * 100) = Ok f /\ (0 <= f <= 100)%Z.
Proof.
  rewrite is_finite_spec, !FloatAxioms.leb_spec, FloatAxioms.ltb_spec.
  change (Prim2SF 0) with (S754_zero false).
  intros Hx Hxt Ht Ft.
  destruct (Quotient.SFdiv_le_1 (Prim2SF x) (Prim2SF t)) as [Q0 Q1];
    try apply Prim2SF_valid; try assumption.
  { destruct (Prim2SF t) as [s|s| |s m e];
      [discriminate Ht|discriminate Ft|discriminate Ft|exact I]. }
  rewrite <- div_spec in Q0, Q1.
  destruct (Quotient.SFmul_100_le (Prim2SF (x / t))) as [P0 P1];
    try apply Prim2SF_valid; try assumption.
  rewrite <- Quotient.Prim2SF_100, <- mul_spec in P0, P1.
  rewrite Quotient.Prim2SF_100 in P1.
  unfold math_floor.
  pose proof (Prim2SF_valid (x / t * 100)) as V.
  destruct (Prim2SF (x / t * 100)) as [s|s| |s m e].
  - exists 0%Z. split; [reflexivity|lia].
  - destruct s; discriminate.
  - discriminate.
  - eexists. split; [reflexivity|].
    simpl in V. unfold bounded in V. apply andb_prop in V as [C _].
    apply Quotient.floor_le_100; assumption.
Qed.

(** Equal floats are the same float, the two zeros apart. *)
Lemma eqb_eq_nonzero (x y : float) :
  (x =? y)%float = true -> (y =? 0)%float = false -> x = y.
Proof.
  rewrite !FloatAxioms.eqb_spec. change (Prim2SF 0) with (S754_zero false).
  intros He Hz. apply Prim2SF_inj. revert He Hz. unfold SFeqb, SFcompare.
  destruct (Prim2SF x) as [sx|sx| |sx mx ex], (Prim2SF y) as [sy|sy| |sy my ey];
    try discriminate; try (destruct sx; discriminate);
    try (destruct sy; discriminate).
  - destruct sx, sy; try discriminate; reflexivity.
  - intros He _.
    assert (sx = sy /\ ex = ey /\ mx = my) as (-> & -> & ->); [|reflexivity].
    rewrite Pos.compare_cont_spec in He.
    destruct sx, sy; try discriminate;
      destruct (Z.compare_spec ex ey); try discriminate;
      destruct (Pos.compare_spec mx my); try discriminate; auto.
Qed.

(** A finite number that is not zero, divided by itself, is one. *)
Lemma div_diag (t : float) :
  is_finite t = true -> (t =? 0)%float = false -> (t / t = 1)%float.
Proof.
  rewrite is_finite_spec, FloatAxioms.eqb_spec.
  change (Prim2SF 0) with (S754_zero false).
  intros Ft Hz. apply Prim2SF_inj. rewrite div_spec.
  destruct (Prim2SF t) as [s|s| |s m e]; try discriminate Ft.
  { destruct s; discriminate Hz. }
  unfold SF64div, SFdiv, SFdiv_core_binary.
  rewrite !Z.sub_diag.
  change (Z.min (fexp prec emax 0) 0) with (-53)%Z.
  change (0 - -53)%Z with 53%Z. cbv iota.
  assert (E : Z.div_eucl (Z.shiftl (Zpos m) 53) (Zpos m) = (2 ^ 53, 0)%Z).
  { pose proof (Z.div_mul (2 ^ 53) (Zpos m) ltac:(lia)) as Hq.
    pose proof (Z.mod_mul (2 ^ 53) (Zpos m) ltac:(lia)) as Hr.
    rewrite Z.shiftl_mul_pow2, Z.mul_comm by lia.
    unfold Z.div, Z.modulo in Hq, Hr.
    destruct (Z.div_eucl _ _) as [q r]. congruence. }
  rewrite E.
  assert (new_location (Zpos m) 0 = loc_Exact) as ->.
  { unfold new_location, new_location_even, new_location_odd.
    destruct (IntDef.Z.even (Zpos m)); reflexivity. }
  destruct s; reflexivity.
Qed.

(** Zero divided by a number that is not zero (nor NaN) is a zero, and so
    is a hundred times it. *)
Lemma div_zero_mul_100 (x t : float) :
  (x =? 0)%float = true -> (t =? 0)%float = false -> is_nan t = false ->
  exists s, Prim2SF (x / t * 100) = S754_zero s.
Proof.
  rewrite is_nan_spec, !FloatAxioms.eqb_spec, mul_spec, div_spec.
  change (Prim2SF 0) with (S754_zero false). rewrite Quotient.Prim2SF_100.
  unfold SFeqb.
  destruct (Prim2SF x) as [sx|sx| |sx mx ex]; try discriminate;
    try (destruct sx; discriminate).
  intros _.
  destruct (Prim2SF t) as [sy|sy| |sy my ey]; try discriminate;
    try (destruct sy; discriminate); intros _ _; eexists; reflexivity.
Qed.

(** * Addition is monotone *)

Module Monotone.

Import Binary64 Binary64Sign Rounding Quotient.
Local Open Scope Z_scope.

Lemma Zdigits2_unique (N d : Z) :
  0 < N -> 2 ^ (d - 1) <= N < 2 ^ d -> Zdigits2 N = d.
Proof.
  intros HN [L U].
  destruct (Zdigits2_bounds N ltac:(lia)) as (D & U' & L').
  specialize (L' HN).
  assert (0 < d).
  { destruct (Z.le_gt_cases d 0) as [Hd|Hd]; [|assumption].
    assert (2 ^ d <= 2 ^ 0) by (apply Z.pow_le_mono_r; lia).
    change (2 ^ 0) with 1 in *. lia. }
  assert (0 < Zdigits2 N) by (destruct N; simpl in *; lia).
  assert (H1 : 2 ^ (d - 1) < 2 ^ Zdigits2 N) by lia.
  assert (H2 : 2 ^ (Zdigits2 N - 1) < 2 ^ d) by lia.
  apply Z.pow_lt_mono_r_iff in H1; [|lia|lia].
  apply Z.pow_lt_mono_r_iff in H2; lia.
Qed.

Lemma Zdigits2_scale (M k : Z) :
  0 < M -> 0 <= k -> Zdigits2 (M * 2 ^ k) = Zdigits2 M + k.
Proof.
  intros HM Hk.
  destruct (Zdigits2_bounds M ltac:(lia)) as (D & U & L). specialize (L HM).
  assert (0 < Zdigits2 M) by (destruct M; simpl in *; lia).
  assert (P : 0 < 2 ^ k) by (apply Z.pow_pos_nonneg; lia).
  apply Zdigits2_unique; [nia|].
  replace (Zdigits2 M + k - 1) with (Zdigits2 M - 1 + k) by lia.
  rewrite !Z.pow_add_r by lia. nia.
Qed.

(** [binary_round] on weights: the number [M * 2 ^ e], written at any
    exponent [e0] below [e] and below its canonical exponent, is shifted to
    the canonical exponent and rounded. *)
Lemma binary_round_weight (M : positive) (e e0 : Z) :
  e0 <= e -> e0 <= fexp prec emax (Zpos (digits2_pos M) + e) ->
  binary_round prec emax false M e =
  renormalized
    (nearest (shifted (fexp prec emax (Zpos (digits2_pos M) + e) - e0)
                (4 * (Zpos M * 2 ^ (e - e0)))))
    (fexp prec emax (Zpos (digits2_pos M) + e)).
Proof.
  intros He Hc. unfold binary_round.
  set (c := fexp prec emax (Zpos (digits2_pos M) + e)) in *.
  pose proof (shl_align_snd M e c) as Hs.
  destruct (Z.le_gt_cases e c) as [Hle|Hgt].
  - assert (shl_align M e c = (M, e)) as ->.
    { unfold shl_align. destruct (c - e) eqn:E; try reflexivity. lia. }
    rewrite binary_round_aux_weight by lia.
    simpl Zdigits2. fold c. rewrite Z.max_r by assumption.
    f_equal. f_equal.
    replace (weight (shr_record_of_loc (Zpos M) loc_Exact)) with (4 * Zpos M)
      by (unfold weight; simpl; lia).
    replace (c - e0) with (c - e + (e - e0)) by lia.
    replace (4 * (Zpos M * 2 ^ (e - e0))) with (4 * Zpos M * 2 ^ (e - e0)) by lia.
    rewrite shifted_scale by lia. reflexivity.
  - pose proof (shl_align_fst M e c ltac:(lia)) as Hf.
    destruct (shl_align M e c) as [M' e']. simpl in Hs, Hf.
    assert (e' = c) as -> by lia.
    rewrite binary_round_aux_weight by lia.
    assert (Hd : Zdigits2 (Zpos M') + c = Zpos (digits2_pos M) + e).
    { rewrite Hf, Zdigits2_scale by lia. simpl Zdigits2. lia. }
    rewrite Hd. fold c. rewrite Z.max_id, Z.sub_diag, shifted_0.
    f_equal. f_equal.
    replace (weight (shr_record_of_loc (Zpos M') loc_Exact)) with (4 * Zpos M')
      by (unfold weight; simpl; lia).
    rewrite Hf.
    replace (e - e0) with (e - c + (c - e0)) by lia.
    rewrite Z.pow_add_r by lia.
    replace (4 * (Zpos M * (2 ^ (e - c) * 2 ^ (c - e0))))
      with (4 * (Zpos M * 2 ^ (e - c)) * 2 ^ (c - e0)) by lia.
    rewrite shifted_exact by lia. reflexivity.
Qed.

(** The mantissa [binary_round] rounds to, in range; it is normal above the
    smallest exponent. *)
Lemma binary_round_range (M : positive) (e e0 : Z) :
  let c := fexp prec emax (Zpos (digits2_pos M) + e) in
  let m := nearest (shifted (c - e0) (4 * (Zpos M * 2 ^ (e - e0)))) in
  e0 <= e -> e0 <= c ->
  0 <= m <= 2 ^ prec /\ (emin < c -> 2 ^ (prec - 1) <= m).
Proof.
  intros c m He Hc.
  assert (P : 0 < 2 ^ (e - e0)) by (apply Z.pow_pos_nonneg; lia).
  set (N := Zpos M * 2 ^ (e - e0)) in *.
  assert (HN : 0 < N) by (unfold N; nia).
  assert (Hd : Zdigits2 N = Zpos (digits2_pos M) + (e - e0)).
  { unfold N. rewrite Zdigits2_scale by lia. reflexivity. }
  assert (Ew : 4 * N = weight (shr_record_of_loc N loc_Exact))
    by (unfold weight; simpl; lia).
  split.
  - unfold m. rewrite Ew. apply nearest_range; [lia|lia|].
    rewrite Hd. unfold c, fexp. lia.
  - intros Hmin.
    pose proof (nearest_bounds (shifted (c - e0) (4 * N))) as [B _].
    rewrite shifted_div_4 in B by lia.
    fold m in B. eapply Z.le_trans; [|exact B].
    assert (K : 0 < 2 ^ (c - e0)) by (apply Z.pow_pos_nonneg; lia).
    rewrite Z.div_mul_cancel_l by lia.
    apply Z.div_le_lower_bound; [assumption|].
    destruct (Zdigits2_bounds N ltac:(lia)) as (_ & _ & L). specialize (L HN).
    eapply Z.le_trans; [|exact L].
    rewrite <- Z.pow_add_r by (unfold prec; lia).
    apply Z.pow_le_mono_r; [lia|].
    rewrite Hd. unfold c, fexp in *. lia.
Qed.

(** Rounding is monotone. *)
Lemma binary_round_mono (M1 M2 : positive) (e1 e2 e0 : Z) :
  e0 <= e1 -> e0 <= e2 ->
  Zpos M1 * 2 ^ (e1 - e0) <= Zpos M2 * 2 ^ (e2 - e0) ->
  SFleb (binary_round prec emax false M1 e1)
        (binary_round prec emax false M2 e2) = true.
Proof.
  intros He1 He2 Hle.
  assert (Hd : Zdigits2 (Zpos M1) + e1 <= Zdigits2 (Zpos M2) + e2)
    by (apply (digits_le (Zpos M1) (Zpos M2) e1 e2 e0); lia).
  simpl Zdigits2 in Hd.
  set (c1 := fexp prec emax (Zpos (digits2_pos M1) + e1)).
  set (c2 := fexp prec emax (Zpos (digits2_pos M2) + e2)).
  assert (Hc : c1 <= c2) by (unfold c1, c2, fexp; lia).
  assert (Hc1 : emin <= c1) by (unfold c1, fexp; lia).
  set (e00 := Z.min e0 c1).
  assert (Hle' : Zpos M1 * 2 ^ (e1 - e00) <= Zpos M2 * 2 ^ (e2 - e00)).
  { replace (e1 - e00) with (e1 - e0 + (e0 - e00)) by lia.
    replace (e2 - e00) with (e2 - e0 + (e0 - e00)) by lia.
    rewrite !Z.pow_add_r by (unfold e00; lia).
    assert (0 < 2 ^ (e0 - e00)) by (apply Z.pow_pos_nonneg; unfold e00; lia).
    nia. }
  rewrite (binary_round_weight M1 e1 e00), (binary_round_weight M2 e2 e00)
    by (fold c1; fold c2; unfold e00; lia).
  fold c1. fold c2.
  destruct (binary_round_range M1 e1 e00) as [R1 _];
    [unfold e00; lia|fold c1; unfold e00; lia|].
  destruct (binary_round_range M2 e2 e00) as [R2 N2];
    [unfold e00; lia|fold c2; unfold e00; lia|].
  fold c1 in R1. fold c2 in R2, N2.
  destruct (Z.eq_dec c1 c2) as [E|E].
  - rewrite <- E in *. apply renormalized_le; try lia.
    apply nearest_mono, shifted_mono; [unfold e00; lia|lia].
  - apply renormalized_lt; try lia.
Qed.

Lemma rounded_le_infinity (m c : Z) :
  0 <= m -> SFleb (rounded m c) (S754_infinity false) = true.
Proof.
  intros H. unfold rounded. destruct m as [|p|p]; try lia; [reflexivity|].
  destruct (c <=? emax - prec); reflexivity.
Qed.

Lemma binary_round_le_infinity (M : positive) (e : Z) :
  SFleb (binary_round prec emax false M e) (S754_infinity false) = true.
Proof.
  set (c := fexp prec emax (Zpos (digits2_pos M) + e)).
  rewrite (binary_round_weight M e (Z.min e c)) by (fold c; lia).
  destruct (binary_round_range M e (Z.min e c)) as [R _]; [lia|fold c; lia|].
  fold c in R. fold c.
  rewrite renormalized_eq by (first [exact R | unfold c, fexp; lia]).
  assert (0 < 2 ^ (prec - 1)) by reflexivity.
  destruct (_ <? _); apply rounded_le_infinity; lia.
Qed.

Lemma SFadd_comm (x y : spec_float) : SF64add x y = SF64add y x.
Proof.
  destruct x as [sx|sx| |sx mx ex], y as [sy|sy| |sy my ey];
    try reflexivity; try (destruct sx, sy; reflexivity).
  unfold SF64add, SFadd. rewrite (Z.min_comm ey ex), Z.add_comm. reflexivity.
Qed.

Lemma SFleb_refl_nonneg (x : spec_float) :
  SFleb (S754_zero false) x = true -> SFleb x x = true.
Proof.
  unfold SFleb. destruct x as [s|s| |s m e]; try discriminate.
  - reflexivity.
  - destruct s; reflexivity.
  - rewrite SFcompare_finite_refl. reflexivity.
Qed.

(** The sum of two positive binary64 numbers. *)
Lemma SFadd_finite (mx ma : positive) (ex ea : Z) :
  SF64add (S754_finite false mx ex) (S754_finite false ma ea) =
  binary_round prec emax false
    (fst (shl_align mx ex (Z.min ex ea)) + fst (shl_align ma ea (Z.min ex ea)))
    (Z.min ex ea).
Proof. reflexivity. Qed.

(** Adding a number that is not negative keeps the order of numbers that
    are not negative. *)
Lemma SFadd_mono_l (x y a : spec_float) :
  valid_binary x = true -> valid_binary y = true -> valid_binary a = true ->
  SFleb (S754_zero false) x = true ->
  SFleb (S754_zero false) a = true ->
  SFleb x y = true ->
  SFleb (SF64add x a) (SF64add y a) = true.
Proof.
  intros Vx Vy Va Hx Ha Hxy.
  assert (Hy : SFleb (S754_zero false) y = true)
    by (apply (SFleb_trans _ x); assumption).
  destruct a as [sa|[|]| |[|] ma ea]; try discriminate Ha.
  - (* a zero *)
    destruct x as [sx|[|]| |[|] mx ex]; try discriminate Hx;
    destruct y as [sy|[|]| |[|] my ey]; try discriminate Hy;
      try discriminate Hxy;
      repeat match goal with s : bool |- _ => destruct s end;
      try reflexivity; exact Hxy.
  - (* a infinite *)
    destruct x as [sx|[|]| |[|] mx ex]; try discriminate Hx;
    destruct y as [sy|[|]| |[|] my ey]; try discriminate Hy;
      reflexivity.
  - (* a finite *)
    destruct x as [sx|[|]| |[|] mx ex]; try discriminate Hx;
    destruct y as [sy|[|]| |[|] my ey]; try discriminate Hy;
      try discriminate Hxy.
    + change (SFleb (S754_finite false ma ea) (S754_finite false ma ea) = true).
      unfold SFleb. rewrite SFcompare_finite_refl. reflexivity.
    + reflexivity.
    + rewrite (SFadd_comm (S754_finite false my ey)).
      change (SF64add (S754_zero sx) (S754_finite false ma ea))
        with (S754_finite false ma ea).
      apply SFadd_nonneg_le; try assumption; reflexivity.
    + reflexivity.
    + rewrite SFadd_finite. apply binary_round_le_infinity.
    + simpl in Vx, Vy, Va. unfold bounded in Vx, Vy, Va.
      apply andb_prop in Vx as [Cx _]. apply andb_prop in Vy as [Cy _].
      destruct (canonical_leb _ _ _ _ Cx Cy Hxy) as [Hexy Hm].
      rewrite Z.min_l, Z.sub_diag, Z.mul_1_r in Hm by assumption.
      rewrite !SFadd_finite.
      set (ez := Z.min ex ea). set (ez' := Z.min ey ea).
      apply (binary_round_mono _ _ ez ez' ez); [lia|unfold ez, ez'; lia|].
      rewrite !Pos2Z.inj_add, !shl_align_fst by (unfold ez, ez'; lia).
      rewrite Z.sub_diag, Z.mul_1_r.
      assert (0 < 2 ^ (ex - ez)) by (apply Z.pow_pos_nonneg; unfold ez; lia).
      assert (E1 : 2 ^ (ey - ez') * 2 ^ (ez' - ez) = 2 ^ (ey - ex) * 2 ^ (ex - ez)).
      { rewrite <- !Z.pow_add_r by (unfold ez, ez'; lia). f_equal. lia. }
      assert (E2 : 2 ^ (ea - ez') * 2 ^ (ez' - ez) = 2 ^ (ea - ez)).
      { rewrite <- !Z.pow_add_r by (unfold ez, ez'; lia). f_equal. lia. }
      rewrite Z.mul_add_distr_r, <- !Z.mul_assoc, E1, E2. nia.
Qed.

End Monotone.

Lemma add_mono_l (x y a : float) :
  (0 <=? x)%float = true -> (0 <=? a)%float = true ->
  (x <=? y)%float = true ->
  (x + a <=? y + a)%float = true.
Proof.
  rewrite !FloatAxioms.leb_spec, !add_spec.
  change (Prim2SF 0) with (S754_zero false).
  apply Monotone.SFadd_mono_l; apply Prim2SF_valid.
Qed.

(** * Division is monotone in the dividend *)

Module Division.

Import Binary64 Binary64Sign Rounding Quotient Monotone.
Local Open Scope Z_scope.

(** The record of a quotient with its remainder is the weight of the
    dividend shifted by the divisor. *)
Lemma weight_new_location (d q r : Z) :
  0 < d -> 0 <= r < d ->
  weight (shr_record_of_loc q (new_location d r)) = shifted_by d (4 * (q * d + r)).
Proof.
  intros Hd Hr. unfold shifted_by.
  replace (4 * (q * d + r)) with (2 * (2 * q * d + 2 * r)) by lia.
  rewrite Z.div_mul_cancel_l, Z.mul_mod_distr_l by lia.
  assert (Hcase : (r = 0 /\ new_location d r = loc_Exact) \/
                  (0 < r /\ 2 * r < d /\ new_location d r = loc_Inexact Lt) \/
                  (2 * r = d /\ new_location d r = loc_Inexact Eq) \/
                  (d < 2 * r /\ new_location d r = loc_Inexact Gt)).
  { unfold new_location, new_location_even, new_location_odd.
    change (IntDef.Z.even d) with (Z.even d).
    destruct (Z.even d) eqn:Ev; cbv beta;
      change (IntDef.Z.eqb r 0) with (Z.eqb r 0);
      destruct (Z.eqb_spec r 0) as [->|Hr0]; try (left; split; reflexivity);
      right.
    - change (IntDef.Z.compare (IntDef.Z.mul 2 r) d) with (Z.compare (2 * r) d).
      destruct (Z.compare_spec (2 * r) d); [right; left|left|right; right];
        repeat split; first [reflexivity | lia].
    - change (IntDef.Z.compare (IntDef.Z.add (IntDef.Z.mul 2 r) 1) d)
        with (Z.compare (2 * r + 1) d).
      assert (2 * r <> d).
      { intros E. rewrite <- E, Z.even_mul in Ev. discriminate Ev. }
      destruct (Z.compare_spec (2 * r + 1) d);
        [left|left|right; right]; repeat split; first [reflexivity | lia]. }
  destruct Hcase as [[-> ->]|[(H1 & H2 & ->)|[(H1 & ->)|(H1 & ->)]]];
    unfold weight; simpl shr_m; simpl shr_r; simpl shr_s.
  - replace (2 * q * d + 2 * 0) with (2 * q * d) by lia.
    rewrite Z.div_mul, Z.mod_mul by lia. simpl. lia.
  - replace ((2 * q * d + 2 * r) / d) with (2 * q)
      by (apply Z.div_unique with (2 * r); lia).
    replace ((2 * q * d + 2 * r) mod d) with (2 * r)
      by (apply Z.mod_unique with (2 * q); lia).
    destruct (Z.eqb_spec (2 * (2 * r)) 0); lia.
  - replace (2 * q * d + 2 * r) with ((2 * q + 1) * d) by lia.
    rewrite Z.div_mul, Z.mod_mul by lia. simpl. lia.
  - replace ((2 * q * d + 2 * r) / d) with (2 * q + 1)
      by (apply Z.div_unique with (2 * r - d); lia).
    replace ((2 * q * d + 2 * r) mod d) with (2 * r - d)
      by (apply Z.mod_unique with (2 * q + 1); lia).
    destruct (Z.eqb_spec (2 * (2 * r - d)) 0); lia.
Qed.

Lemma quotient_exponent_le (mx my : positive) (ex ey : Z) :
  0 <= ex - ey - quotient_exponent mx my ex ey.
Proof. unfold quotient_exponent. lia. Qed.

(** [SFdiv] on weights: the scaled dividend is shifted by the divisor and
    by the power of two that brings it to the canonical exponent, and
    rounded. *)
Lemma SFdiv_weight (mx my : positive) (ex ey : Z) :
  SF64div (S754_finite false mx ex) (S754_finite false my ey) =
  renormalized
    (nearest
       (shifted_by
          (Zpos my *
           2 ^ (Z.max (quotient_exponent mx my ex ey)
                  (fexp prec emax
                     (Zdigits2 (scaled_dividend mx my ex ey / Zpos my) +
                      quotient_exponent mx my ex ey))
                - quotient_exponent mx my ex ey))
          (4 * scaled_dividend mx my ex ey)))
    (Z.max (quotient_exponent mx my ex ey)
       (fexp prec emax
          (Zdigits2 (scaled_dividend mx my ex ey / Zpos my) +
           quotient_exponent mx my ex ey))).
Proof.
  pose proof (quotient_exponent_le mx my ex ey) as Hs.
  unfold SF64div, SFdiv, SFdiv_core_binary. simpl Zdigits2. simpl xorb.
  change (IntDef.Z.min
            (fexp prec emax
               (IntDef.Z.sub (IntDef.Z.add (Zpos (digits2_pos mx)) ex)
                  (IntDef.Z.add (Zpos (digits2_pos my)) ey)))
            (IntDef.Z.sub ex ey))
    with (quotient_exponent mx my ex ey).
  set (e := quotient_exponent mx my ex ey) in *.
  change (IntDef.Z.sub (IntDef.Z.sub ex ey) e) with (ex - ey - e).
  set (m := match ex - ey - e with
            | 0 => Zpos mx
            | Zpos _ => IntDef.Z.shiftl (Zpos mx) (ex - ey - e)
            | Zneg _ => 0
            end).
  assert (Em : m = scaled_dividend mx my ex ey).
  { unfold m, scaled_dividend. fold e.
    destruct (ex - ey - e) as [|s|s] eqn:Es; [simpl; lia| |lia].
    change (IntDef.Z.shiftl (Zpos mx) (Zpos s)) with (Z.shiftl (Zpos mx) (Zpos s)).
    apply Z.shiftl_mul_pow2. lia. }
  set (A := scaled_dividend mx my ex ey) in *.
  assert (HA : 0 <= A).
  { unfold A, scaled_dividend. pose proof (Z.pow_nonneg 2 (ex - ey - e)).
    fold e. nia. }
  pose proof (Z.div_mod A (Zpos my) ltac:(lia)) as Hdm.
  pose proof (Z.mod_pos_bound A (Zpos my) ltac:(lia)) as Hmod.
  assert (Ediv : IntDef.Z.div_eucl m (Zpos my) = (A / Zpos my, A mod Zpos my)).
  { rewrite Em. change (IntDef.Z.div_eucl A (Zpos my)) with (Z.div_eucl A (Zpos my)).
    unfold Z.div, Z.modulo. destruct (Z.div_eucl A (Zpos my)); reflexivity. }
  rewrite Ediv.
  set (q := A / Zpos my) in *. set (r := A mod Zpos my) in *.
  assert (Hq : 0 <= q) by (apply Z.div_pos; lia).
  rewrite binary_round_aux_weight by assumption.
  rewrite weight_new_location by lia.
  replace (q * Zpos my + r) with A by lia.
  unfold shifted. rewrite shifted_by_mul; [reflexivity|lia|].
  apply Z.pow_pos_nonneg; lia.
Qed.

(** The mantissa a quotient is rounded to. *)
Lemma quotient_range (A d k : Z) :
  0 <= A -> 0 < d -> 0 <= k -> Zdigits2 (A / d) - prec <= k ->
  A / d / 2 ^ k <= nearest (shifted_by (d * 2 ^ k) (4 * A)) <= 2 ^ prec.
Proof.
  intros HA Hd Hk Hdig.
  assert (P : 0 < 2 ^ k) by (apply Z.pow_pos_nonneg; lia).
  pose proof (nearest_bounds (shifted_by (d * 2 ^ k) (4 * A))) as B.
  rewrite shifted_by_div_4 in B by nia.
  rewrite Z.div_mul_cancel_l, <- Z.div_div in B by lia.
  split; [lia|].
  assert (Hq : 0 <= A / d) by (apply Z.div_pos; lia).
  destruct (Zdigits2_bounds (A / d) Hq) as (_ & U & _).
  assert (A / d / 2 ^ k < 2 ^ prec); [|lia].
  apply Z.div_lt_upper_bound; [assumption|].
  rewrite <- Z.pow_add_r by (unfold prec; lia).
  eapply Z.lt_le_trans; [exact U|].
  apply Z.pow_le_mono_r; lia.
Qed.

(** ** Two quotients by the same divisor *)

Lemma cexp_mono (g1 g2 e1 e2 : Z) :
  g1 + e1 <= g2 + e2 -> e1 <= e2 ->
  Z.max e1 (fexp prec emax (g1 + e1)) <= Z.max e2 (fexp prec emax (g2 + e2)).
Proof. unfold fexp. lia. Qed.

Lemma cexp_bounds (g e : Z) :
  emin <= Z.max e (fexp prec emax (g + e)) /\
  0 <= Z.max e (fexp prec emax (g + e)) - e /\
  g - prec <= Z.max e (fexp prec emax (g + e)) - e.
Proof. unfold fexp. lia. Qed.

Lemma quotient_lt (d A1 A2 J : Z) :
  0 < d -> 0 < J -> 0 <= A2 -> A1 <= A2 * J -> A1 / d < (A2 / d + 1) * J.
Proof.
  intros Hd HJ HA2 HA.
  apply Z.div_lt_upper_bound; [assumption|].
  pose proof (Z.div_mod A2 d ltac:(lia)) as E.
  pose proof (Z.mod_pos_bound A2 d Hd) as B.
  eapply Z.le_lt_trans; [exact HA|].
  replace (d * ((A2 / d + 1) * J)) with ((d * (A2 / d) + d) * J) by ring.
  apply Z.mul_lt_mono_pos_r; lia.
Qed.

Lemma digits_quotient_le (q1 q2 j : Z) :
  0 <= q1 -> 0 <= q2 -> 0 <= j -> q1 < (q2 + 1) * 2 ^ j ->
  Zdigits2 q1 <= Zdigits2 q2 + j.
Proof.
  intros H1 H2 Hj Hlt.
  destruct (Zdigits2_bounds q1 H1) as (D1 & _ & L1).
  destruct (Zdigits2_bounds q2 H2) as (D2 & U2 & _).
  destruct (Z.eq_dec q1 0) as [->|E]; [simpl; lia|].
  specialize (L1 ltac:(lia)).
  assert (J : 0 < 2 ^ j) by (apply Z.pow_pos_nonneg; lia).
  assert (Hp : 2 ^ (Zdigits2 q1 - 1) < 2 ^ (Zdigits2 q2 + j)).
  { rewrite Z.pow_add_r by lia.
    eapply Z.le_lt_trans; [exact L1|]. eapply Z.lt_le_trans; [exact Hlt|].
    apply Z.mul_le_mono_nonneg_r; lia. }
  apply Z.pow_lt_mono_r_iff in Hp; lia.
Qed.

(** The weights of two dividends in order, at one exponent. *)
Lemma shifted_by_le (d c e1 e2 A1 A2 : Z) :
  0 < d -> e1 <= e2 -> e2 <= c -> A1 <= A2 * 2 ^ (e2 - e1) ->
  shifted_by (d * 2 ^ (c - e1)) (4 * A1) <= shifted_by (d * 2 ^ (c - e2)) (4 * A2).
Proof.
  intros Hd He Hc HA.
  assert (J : 0 < 2 ^ (e2 - e1)) by (apply Z.pow_pos_nonneg; lia).
  assert (K : 0 < 2 ^ (c - e2)) by (apply Z.pow_pos_nonneg; lia).
  assert (K1 : 0 < 2 ^ (c - e1)) by (apply Z.pow_pos_nonneg; lia).
  assert (P : 0 < d * 2 ^ (c - e2)) by (apply Z.mul_pos_pos; assumption).
  rewrite <- (shifted_by_scale (d * 2 ^ (c - e2)) (2 ^ (e2 - e1)) (4 * A2))
    by assumption.
  replace (d * 2 ^ (c - e2) * 2 ^ (e2 - e1)) with (d * 2 ^ (c - e1)).
  - apply shifted_by_mono; [apply Z.mul_pos_pos; assumption|].
    rewrite <- Z.mul_assoc. apply Z.mul_le_mono_nonneg_l; [lia|assumption].
  - rewrite <- Z.mul_assoc, <- Z.pow_add_r by lia. f_equal. f_equal. lia.
Qed.

(** A quotient above the smallest exponent is rounded to a normal
    mantissa. *)
Lemma normal_mantissa (q e : Z) :
  0 <= q ->
  emin < Z.max e (fexp prec emax (Zdigits2 q + e)) ->
  (emin < e -> 2 ^ (prec - 1) <= q) ->
  2 ^ (prec - 1) <= q / 2 ^ (Z.max e (fexp prec emax (Zdigits2 q + e)) - e).
Proof.
  intros Hq Hc Hn.
  destruct (Zdigits2_bounds q Hq) as (D & _ & L).
  destruct (Z.le_gt_cases (fexp prec emax (Zdigits2 q + e)) e) as [Hf|Hf].
  - rewrite Z.max_l in * by assumption.
    rewrite Z.sub_diag. change (2 ^ 0) with 1. rewrite Z.div_1_r. auto.
  - rewrite Z.max_r in * by lia.
    assert (Ek : fexp prec emax (Zdigits2 q + e) - e = Zdigits2 q - prec)
      by (unfold fexp in *; lia).
    rewrite Ek.
    assert (Hk : 0 < Zdigits2 q - prec) by lia.
    assert (0 < q).
    { destruct (Z.eq_dec q 0) as [Z0|Z0]; [|lia].
      rewrite Z0 in Hk. simpl in Hk. unfold prec in Hk. lia. }
    specialize (L ltac:(lia)).
    apply Z.div_le_lower_bound; [apply Z.pow_pos_nonneg; lia|].
    rewrite <- Z.pow_add_r by (unfold prec in *; lia).
    replace (Zdigits2 q - prec + (prec - 1)) with (Zdigits2 q - 1) by lia.
    assumption.
Qed.

(** Two dividends in order give quotients that are rounded in order. *)
Lemma quotient_mono (d A1 A2 e1 e2 : Z) :
  0 < d -> 0 <= A1 -> 0 <= A2 -> e1 <= e2 ->
  A1 <= A2 * 2 ^ (e2 - e1) ->
  (emin < e2 -> 2 ^ (prec - 1) <= A2 / d) ->
  SFleb
    (renormalized
       (nearest
          (shifted_by
             (d * 2 ^ (Z.max e1 (fexp prec emax (Zdigits2 (A1 / d) + e1)) - e1))
             (4 * A1)))
       (Z.max e1 (fexp prec emax (Zdigits2 (A1 / d) + e1))))
    (renormalized
       (nearest
          (shifted_by
             (d * 2 ^ (Z.max e2 (fexp prec emax (Zdigits2 (A2 / d) + e2)) - e2))
             (4 * A2)))
       (Z.max e2 (fexp prec emax (Zdigits2 (A2 / d) + e2)))) = true.
Proof.
  intros Hd HA1 HA2 He HA Hnorm.
  assert (J : 0 < 2 ^ (e2 - e1)) by (apply Z.pow_pos_nonneg; lia).
  pose proof (quotient_lt d A1 A2 _ Hd J HA2 HA) as Hq.
  assert (Hq1 : 0 <= A1 / d) by (apply Z.div_pos; lia).
  assert (Hq2 : 0 <= A2 / d) by (apply Z.div_pos; lia).
  pose proof (digits_quotient_le _ _ (e2 - e1) Hq1 Hq2 ltac:(lia) Hq) as Hdig.
  pose proof (cexp_mono (Zdigits2 (A1 / d)) (Zdigits2 (A2 / d)) e1 e2
                ltac:(lia) He) as Hc.
  destruct (cexp_bounds (Zdigits2 (A1 / d)) e1) as (Hm1 & Hk1 & Hg1).
  destruct (cexp_bounds (Zdigits2 (A2 / d)) e2) as (Hm2 & Hk2 & Hg2).
  pose proof (normal_mantissa (A2 / d) e2 Hq2) as Hn2.
  set (c1 := Z.max e1 (fexp prec emax (Zdigits2 (A1 / d) + e1))) in *.
  set (c2 := Z.max e2 (fexp prec emax (Zdigits2 (A2 / d) + e2))) in *.
  destruct (quotient_range A1 d (c1 - e1) HA1 Hd Hk1 Hg1) as [R1l R1u].
  destruct (quotient_range A2 d (c2 - e2) HA2 Hd Hk2 Hg2) as [R2l R2u].
  assert (M1 : 0 <= A1 / d / 2 ^ (c1 - e1)).
  { apply Z.div_pos; [assumption|]. apply Z.pow_pos_nonneg; lia. }
  clearbody c1 c2. clear Hq Hdig HA1 HA2 Hq1 Hq2 Hg1 Hg2.
  destruct (Z.eq_dec c1 c2) as [E|E].
  - subst c2. apply renormalized_le; [assumption|lia| |assumption].
    apply nearest_mono. apply shifted_by_le; [assumption|assumption|lia|assumption].
  - apply renormalized_lt; [assumption|lia|split; [lia|assumption]|].
    split; [|assumption].
    eapply Z.le_trans; [|exact R2l].
    apply Hn2; [lia|assumption].
Qed.

(** The scaled dividend of [SFdiv] gives a normal quotient above the
    smallest exponent. *)
Lemma scaled_dividend_normal (mx my : positive) (ex ey : Z) :
  emin < quotient_exponent mx my ex ey ->
  2 ^ (prec - 1) <= scaled_dividend mx my ex ey / Zpos my.
Proof.
  intros He. unfold scaled_dividend.
  set (e := quotient_exponent mx my ex ey) in *.
  pose proof (digits2_pos_bounds mx) as [Lx _].
  pose proof (digits2_pos_bounds my) as [_ Uy].
  assert (Hs : Zpos (digits2_pos my) + (prec - 1) <=
               Zpos (digits2_pos mx) - 1 + (ex - ey - e)).
  { unfold e, quotient_exponent, fexp in *. lia. }
  assert (Hs0 : 0 <= ex - ey - e) by (unfold e, quotient_exponent; lia).
  clearbody e.
  set (dx := Zpos (digits2_pos mx)) in *. set (dy := Zpos (digits2_pos my)) in *.
  assert (Hdx : 1 <= dx) by (unfold dx; lia).
  assert (Hdy : 1 <= dy) by (unfold dy; lia).
  clearbody dx dy.
  apply Z.div_le_lower_bound; [lia|].
  assert (Hp : 2 ^ (dy + (prec - 1)) <= 2 ^ (dx - 1 + (ex - ey - e)))
    by (apply Z.pow_le_mono_r; lia).
  rewrite !Z.pow_add_r in Hp by (unfold prec; lia).
  assert (P52 : 0 < 2 ^ (prec - 1)) by reflexivity.
  assert (Ps : 0 < 2 ^ (ex - ey - e)) by (apply Z.pow_pos_nonneg; lia).
  eapply Z.le_trans; [|apply Z.mul_le_mono_nonneg_r; [lia|exact Lx]].
  eapply Z.le_trans; [|exact Hp].
  apply Z.mul_le_mono_nonneg_r; lia.
Qed.

Lemma quotient_exponent_mono (mx1 mx2 my : positive) (ex1 ex2 ey : Z) :
  ex1 <= ex2 ->
  Zpos (digits2_pos mx1) + ex1 <= Zpos (digits2_pos mx2) + ex2 ->
  quotient_exponent mx1 my ex1 ey <= quotient_exponent mx2 my ex2 ey.
Proof. unfold quotient_exponent, fexp. lia. Qed.

Lemma scaled_dividend_le (mx1 mx2 my : positive) (ex1 ex2 ey : Z) :
  ex1 <= ex2 ->
  quotient_exponent mx1 my ex1 ey <= quotient_exponent mx2 my ex2 ey ->
  Zpos mx1 <= Zpos mx2 * 2 ^ (ex2 - ex1) ->
  scaled_dividend mx1 my ex1 ey <=
  scaled_dividend mx2 my ex2 ey *
  2 ^ (quotient_exponent mx2 my ex2 ey - quotient_exponent mx1 my ex1 ey).
Proof.
  intros Hex He Hm. unfold scaled_dividend.
  pose proof (quotient_exponent_le mx1 my ex1 ey) as Hs1.
  pose proof (quotient_exponent_le mx2 my ex2 ey) as Hs2.
  set (e1 := quotient_exponent mx1 my ex1 ey) in *.
  set (e2 := quotient_exponent mx2 my ex2 ey) in *.
  clearbody e1 e2.
  rewrite <- Z.mul_assoc, <- Z.pow_add_r by lia.
  replace (ex2 - ey - e2 + (e2 - e1)) with ((ex2 - ex1) + (ex1 - ey - e1)) by lia.
  rewrite Z.pow_add_r, Z.mul_assoc by lia.
  apply Z.mul_le_mono_nonneg_r; [apply Z.pow_nonneg; lia|assumption].
Qed.

(** The quotients of two binary64 numbers in order by a third one are in
    order. *)
Lemma SFdiv_mono_finite (mx1 mx2 my : positive) (ex1 ex2 ey : Z) :
  canonical_mantissa prec emax mx1 ex1 = true ->
  canonical_mantissa prec emax mx2 ex2 = true ->
  SFleb (S754_finite false mx1 ex1) (S754_finite false mx2 ex2) = true ->
  SFleb (SF64div (S754_finite false mx1 ex1) (S754_finite false my ey))
        (SF64div (S754_finite false mx2 ex2) (S754_finite false my ey)) = true.
Proof.
  intros C1 C2 Hle.
  destruct (canonical_leb _ _ _ _ C1 C2 Hle) as [Hex Hm].
  rewrite Z.min_l, Z.sub_diag, Z.mul_1_r in Hm by assumption.
  assert (Hd : Zpos (digits2_pos mx1) + ex1 <= Zpos (digits2_pos mx2) + ex2).
  { apply (digits_le (Zpos mx1) (Zpos mx2) ex1 ex2 ex1); try lia.
    rewrite Z.sub_diag, Z.mul_1_r. assumption. }
  pose proof (quotient_exponent_mono mx1 mx2 my ex1 ex2 ey Hex Hd) as He.
  rewrite !SFdiv_weight.
  apply quotient_mono.
  - lia.
  - unfold scaled_dividend. apply Z.mul_nonneg_nonneg; [lia|apply Z.pow_nonneg; lia].
  - unfold scaled_dividend. apply Z.mul_nonneg_nonneg; [lia|apply Z.pow_nonneg; lia].
  - assumption.
  - apply scaled_dividend_le; assumption.
  - apply scaled_dividend_normal.
Qed.

Lemma SFleb_zero_sign (s : bool) (z : spec_float) :
  SFleb (S754_zero s) z = SFleb (S754_zero false) z.
Proof. destruct z; reflexivity. Qed.

Lemma SFdiv_mono_l (x1 x2 y : spec_float) :
  valid_binary x1 = true -> valid_binary x2 = true -> valid_binary y = true ->
  SFleb (S754_zero false) x1 = true ->
  SFleb x1 x2 = true ->
  SFleb x2 y = true ->
  SFltb (S754_zero false) y = true ->
  match y with S754_finite _ _ _ => True | _ => False end ->
  SFleb (SF64div x1 y) (SF64div x2 y) = true.
Proof.
  intros V1 V2 Vy H1 H12 H2y Hy Fy.
  assert (H2 : SFleb (S754_zero false) x2 = true)
    by (apply (SFleb_trans _ x1); assumption).
  destruct (SFdiv_le_1 x2 y V2 Vy H2 Hy H2y Fy) as [Q2 _].
  destruct y as [sy|sy| |sy my ey]; try contradiction.
  destruct sy; [discriminate Hy|].
  destruct x1 as [s1|[|]| |[|] m1 e1]; try discriminate H1.
  - change (SF64div (S754_zero s1) (S754_finite false my ey))
      with (S754_zero (xorb s1 false)).
    rewrite SFleb_zero_sign. assumption.
  - destruct x2 as [s2|[|]| |[|] m2 e2]; try discriminate H12;
      try discriminate H2y.
  - destruct x2 as [s2|[|]| |[|] m2 e2]; try discriminate H12;
      try discriminate H2y.
    simpl in V1, V2. unfold bounded in V1, V2.
    apply andb_prop in V1 as [C1 _]. apply andb_prop in V2 as [C2 _].
    apply SFdiv_mono_finite; assumption.
Qed.

(** A product with at least [prec] digits is rounded from where it is. *)
Lemma binary_round_aux_exact (M : positive) (e : Z) :
  2 ^ (prec - 1) <= Zpos M ->
  binary_round_aux prec emax false (Zpos M) e loc_Exact =
  binary_round prec emax false M e.
Proof.
  intros HM. unfold binary_round.
  pose proof (digits2_pos_bounds M) as [_ U].
  assert (Hd : prec <= Zpos (digits2_pos M)).
  { assert (Hp : 2 ^ (prec - 1) < 2 ^ Zpos (digits2_pos M)) by lia.
    apply Z.pow_lt_mono_r_iff in Hp; unfold prec in *; lia. }
  assert (shl_align M e (fexp prec emax (Zpos (digits2_pos M) + e)) = (M, e)) as ->.
  { unfold shl_align.
    destruct (fexp prec emax (Zpos (digits2_pos M) + e) - e) eqn:E; try reflexivity.
    unfold fexp in E. lia. }
  reflexivity.
Qed.

(** Multiplying by one hundred keeps the order of numbers up to one. *)
Lemma SFmul_100_mono (x1 x2 : spec_float) :
  valid_binary x1 = true -> valid_binary x2 = true ->
  SFleb (S754_zero false) x1 = true ->
  SFleb x1 x2 = true ->
  SFleb x2 (S754_finite false 4503599627370496 (-52)) = true ->
  SFleb (SF64mul x1 (S754_finite false 7036874417766400 (-46)))
        (SF64mul x2 (S754_finite false 7036874417766400 (-46))) = true.
Proof.
  intros V1 V2 H1 H12 H21.
  assert (H2 : SFleb (S754_zero false) x2 = true)
    by (apply (SFleb_trans _ x1); assumption).
  destruct (SFmul_100_le x2 V2 H2 H21) as [P2 _].
  destruct x1 as [s1|[|]| |[|] m1 e1]; try discriminate H1.
  - change (SF64mul (S754_zero s1) (S754_finite false 7036874417766400 (-46)))
      with (S754_zero (xorb s1 false)).
    rewrite SFleb_zero_sign. assumption.
  - destruct x2 as [s2|[|]| |[|] m2 e2]; try discriminate H12;
      try discriminate H21.
  - destruct x2 as [s2|[|]| |[|] m2 e2]; try discriminate H12;
      try discriminate H21.
    simpl in V1, V2. unfold bounded in V1, V2.
    apply andb_prop in V1 as [C1 _]. apply andb_prop in V2 as [C2 _].
    destruct (canonical_leb _ _ _ _ C1 C2 H12) as [He Hm].
    rewrite Z.min_l, Z.sub_diag, Z.mul_1_r in Hm by assumption.
    unfold SF64mul, SFmul. simpl xorb.
    rewrite !binary_round_aux_exact
      by (rewrite Pos2Z.inj_mul; change (2 ^ (prec - 1)) with 4503599627370496; nia).
    apply (binary_round_mono _ _ _ _ (e1 + -46)); [lia|lia|].
    rewrite Z.sub_diag, Z.mul_1_r, !Pos2Z.inj_mul.
    replace (e2 + -46 - (e1 + -46)) with (e2 - e1) by lia.
    nia.
Qed.

(** The floor keeps the order of numbers between zero and one hundred. *)
Lemma floor_mono (m1 m2 : positive) (e1 e2 : Z) :
  canonical_mantissa prec emax m1 e1 = true ->
  canonical_mantissa prec emax m2 e2 = true ->
  SFleb (S754_finite false m1 e1) (S754_finite false m2 e2) = true ->
  SFleb (S754_finite false m2 e2) (S754_finite false 7036874417766400 (-46)) = true ->
  Z.shiftl (Zpos m1) e1 <= Z.shiftl (Zpos m2) e2.
Proof.
  intros C1 C2 H12 H2.
  destruct (canonical_leb _ _ _ _ C1 C2 H12) as [He Hm].
  rewrite Z.min_l, Z.sub_diag, Z.mul_1_r in Hm by assumption.
  destruct (canonical_leb m2 7036874417766400 e2 (-46) C2 eq_refl H2) as [He2 _].
  rewrite !Z.shiftl_div_pow2 by lia.
  assert (E : 2 ^ (- e1) = 2 ^ (- e2) * 2 ^ (e2 - e1)).
  { rewrite <- Z.pow_add_r by lia. f_equal. lia. }
  assert (0 < 2 ^ (- e2)) by (apply Z.pow_pos_nonneg; lia).
  assert (0 < 2 ^ (e2 - e1)) by (apply Z.pow_pos_nonneg; lia).
  rewrite <- (Z.div_mul_cancel_r (Zpos m2) (2 ^ (- e2)) (2 ^ (e2 - e1))) by lia.
  rewrite <- E. apply Z.div_le_mono; [apply Z.pow_pos_nonneg|]; lia.
Qed.

End Division.

(** The floors of a hundred times two quotients by the same number. *)
Lemma math_floor_quotient_mono (x1 x2 t : float) :
  (0 <=? x1)%float = true -> (x1 <=? x2)%float = true ->
  (x2 <=? t)%float = true ->
  (0 <? t)%float = true -> is_finite t = true ->
  exists f1 f2,
    math_floor (x1 / t * 100) = Ok f1 /\
    math_floor (x2 / t * 100) = Ok f2 /\
    (0 <= f1 <= f2)%Z /\ (f2 <= 100)%Z.
Proof.
  intros H1 H12 H2t Ht Ft.
  assert (H2 : (0 <=? x2)%float = true) by (eapply leb_trans; eassumption).
  assert (H1t : (x1 <=? t)%float = true) by (eapply leb_trans; eassumption).
  destruct (math_floor_quotient x1 t H1 H1t Ht Ft) as (f1 & Hf1 & R1).
  destruct (math_floor_quotient x2 t H2 H2t Ht Ft) as (f2 & Hf2 & R2).
  exists f1, f2. split; [assumption|]. split; [assumption|].
  split; [|lia]. split; [lia|].
  revert Hf1 Hf2. unfold math_floor.
  revert H1 H12 H2t Ht Ft H2 H1t.
  rewrite is_finite_spec, !FloatAxioms.leb_spec, FloatAxioms.ltb_spec.
  change (Prim2SF 0) with (S754_zero false).
  intros H1 H12 H2t Ht Ft H2 H1t.
  assert (Fy : match Prim2SF t with S754_finite _ _ _ => True | _ => False end).
  { destruct (Prim2SF t) as [s|s| |s m e];
      [discriminate Ht|discriminate Ft|discriminate Ft|exact I]. }
  pose proof (Division.SFdiv_mono_l _ _ _ (Prim2SF_valid x1) (Prim2SF_valid x2)
                (Prim2SF_valid t) H1 H12 H2t Ht Fy) as Hq.
  destruct (Quotient.SFdiv_le_1 _ _ (Prim2SF_valid x1) (Prim2SF_valid t)
              H1 Ht H1t Fy) as [Q10 _].
  destruct (Quotient.SFdiv_le_1 _ _ (Prim2SF_valid x2) (Prim2SF_valid t)
              H2 Ht H2t Fy) as [Q20 Q21].
  rewrite <- (div_spec x1 t), <- (div_spec x2 t) in Hq.
  rewrite <- div_spec in Q10, Q20, Q21.
  pose proof (Division.SFmul_100_mono _ _ (Prim2SF_valid (x1 / t))
                (Prim2SF_valid (x2 / t)) Q10 Hq Q21) as Hp.
  destruct (Quotient.SFmul_100_le _ (Prim2SF_valid (x1 / t)) Q10) as [P10 _].
  { apply (Binary64.SFleb_trans _ (Prim2SF (x2 / t))); assumption. }
  destruct (Quotient.SFmul_100_le _ (Prim2SF_valid (x2 / t)) Q20 Q21) as [P20 P21].
  rewrite <- Quotient.Prim2SF_100 in Hp, P10, P20, P21.
  rewrite <- (mul_spec (x1 / t) 100), <- (mul_spec (x2 / t) 100) in Hp.
  rewrite <- mul_spec in P10, P20, P21.
  rewrite Quotient.Prim2SF_100 in P21.
  pose proof (Prim2SF_valid (x1 / t * 100)) as V1.
  pose proof (Prim2SF_valid (x2 / t * 100)) as V2.
  destruct (Prim2SF (x1 / t * 100)) as [s1|s1| |s1 m1 e1];
    try discriminate; intros [= <-];
    destruct (Prim2SF (x2 / t * 100)) as [s2|s2| |s2 m2 e2];
    try discriminate; intros [= <-]; try lia.
  - destruct s1; [discriminate P10|]. discriminate Hp.
  - destruct s1; [discriminate P10|]. destruct s2; [discriminate P20|].
    simpl in V1, V2. unfold bounded in V1, V2.
    apply andb_prop in V1 as [C1 _]. apply andb_prop in V2 as [C2 _].
    apply Division.floor_mono; assumption.
Qed.

(** * The class [Category]: what the methods do *)

Example food_clothing_run :
  run food_clothing initial =
  Some ([true; true; true; true; true; true; true; false], food_clothing_final).
Proof. vm_compute. reflexivity. Qed.

Lemma bind_eq {A B} (m : Py A) (f : A -> Py B) (w : World) :
  (m ≫= f) w = match m w with Some (x, w') => f x w' | None => None end.
Proof. reflexivity. Qed.

Lemma attr_eq {A} (f : Category -> A) self w c :
  objects w !! self = Some c -> attr f self w = Some (f c, w).
Proof. intros H. unfold attr. rewrite H. reflexivity. Qed.

Lemma setattr_eq f self w c :
  objects w !! self = Some c ->
  setattr self f w =
  Some (tt, mkWorld (total_withdrawn w) (<[self := f c]> (objects w))).
Proof. intros H. unfold setattr. rewrite H. reflexivity. Qed.

Lemma lookup_insert_same {A} (l : list A) (i : nat) (x y : A) :
  l !! i = Some x -> <[i := y]> l !! i = Some y.
Proof.
  intros H. apply list_lookup_insert_eq. eapply lookup_lt_Some; eassumption.
Qed.

(** One statement of a method body: read or write an attribute of a live
    object, then go on. *)
Ltac live := simpl; repeat (eapply lookup_insert_same); eassumption.

Ltac py_step :=
  rewrite bind_eq;
  first
    [ erewrite attr_eq by live
    | erewrite setattr_eq by live
    | unfold get_total at 1
    | unfold set_total at 1 ];
  cbn [objects total_withdrawn].

Lemma deposit_eq self a d w c :
  objects w !! self = Some c ->
  deposit self a d w =
  Some (tt, mkWorld (total_withdrawn w) (<[self := deposited a d c]> (objects w))).
Proof.
  intros H. unfold deposit. do 3 py_step.
  erewrite setattr_eq by live.
  simpl. rewrite list_insert_insert_eq. reflexivity.
Qed.

Lemma deposit_dangling self a d w :
  objects w !! self = None -> deposit self a d w = None.
Proof. intros H. unfold deposit. rewrite bind_eq. unfold attr. rewrite H. reflexivity. Qed.

Lemma check_funds_eq self a w c :
  objects w !! self = Some c ->
  check_funds self a w = Some (if (balance c <? a)%float then false else true, w).
Proof. intros H. unfold check_funds. py_step. reflexivity. Qed.

Lemma withdraw_eq self a d w c :
  objects w !! self = Some c ->
  withdraw self a d w =
  if (balance c <? a)%float then Some (false, w)
  else Some (true, mkWorld (total_withdrawn w + a)
                           (<[self := withdrawn a d c]> (objects w))).
Proof.
  intros H. unfold withdraw.
  rewrite bind_eq, (check_funds_eq _ _ _ _ H).
  destruct (balance c <? a)%float; [reflexivity|].
  do 8 py_step. simpl. rewrite !list_insert_insert_eq. reflexivity.
Qed.

Lemma withdraw_dangling self a d w :
  objects w !! self = None -> withdraw self a d w = None.
Proof.
  intros H. unfold withdraw, check_funds. rewrite !bind_eq.
  unfold attr. rewrite H. reflexivity.
Qed.

Lemma transfer_eq self a target w c t :
  objects w !! self = Some c ->
  objects w !! target = Some t ->
  transfer self a target w =
  if (balance c <? a)%float then Some (false, w)
  else
    let d_out := "Transfer to " +:+ name t in
    let d_in := "Transfer from " +:+ name c in
    let t' := if decide (self = target) then withdrawn a d_out c else t in
    Some (true, mkWorld (total_withdrawn w + a)
                  (<[target := deposited a d_in t']>
                     (<[self := withdrawn a d_out c]> (objects w)))).
Proof.
  intros Hc Ht. unfold transfer.
  rewrite bind_eq, (check_funds_eq _ _ _ _ Hc).
  destruct (balance c <? a)%float eqn:Hlt; [reflexivity|].
  py_step. rewrite bind_eq, (withdraw_eq _ _ _ _ _ Hc), Hlt.
  py_step. rewrite bind_eq.
  destruct (decide (self = target)) as [->|Hne].
  - erewrite deposit_eq by (simpl; eapply lookup_insert_same; eassumption).
    reflexivity.
  - erewrite deposit_eq
      by (simpl; rewrite list_lookup_insert_ne by assumption; eassumption).
    reflexivity.
Qed.

Lemma transfer_dangling self a target w :
  objects w !! self = None -> transfer self a target w = None.
Proof.
  intros H. unfold transfer, check_funds. rewrite !bind_eq.
  unfold attr. rewrite H. reflexivity.
Qed.

Lemma transfer_dangling_target self a target w c :
  objects w !! self = Some c ->
  objects w !! target = None ->
  transfer self a target w =
  if (balance c <? a)%float then Some (false, w) else None.
Proof.
  intros Hc Ht. unfold transfer.
  rewrite bind_eq, (check_funds_eq _ _ _ _ Hc).
  destruct (balance c <? a)%float; [reflexivity|].
  rewrite bind_eq. unfold attr at 1. rewrite Ht. reflexivity.
Qed.

(** [exec] and [step] are the same relation. *)
Lemma exec_step c w r w' : exec c w = Some (r, w') -> step w c r w'.
Proof.
  destruct c as [n|i a d|i a d|i a j]; unfold exec.
  - rewrite bind_eq. unfold new. intros [= <- <-]. constructor.
  - rewrite bind_eq.
    destruct (objects w !! i) as [x|] eqn:Hx.
    + rewrite (deposit_eq _ _ _ _ _ Hx). intros [= <- <-].
      constructor; assumption.
    + rewrite (deposit_dangling _ _ _ _ Hx). discriminate.
  - destruct (objects w !! i) as [x|] eqn:Hx.
    + rewrite (withdraw_eq _ _ _ _ _ Hx).
      destruct (balance x <? a)%float eqn:Hlt; intros [= <- <-];
        econstructor; eassumption.
    + rewrite (withdraw_dangling _ _ _ _ Hx). discriminate.
  - destruct (objects w !! i) as [x|] eqn:Hx.
    + destruct (objects w !! j) as [y|] eqn:Hy.
      * rewrite (transfer_eq _ _ _ _ _ _ Hx Hy). cbv zeta.
        destruct (balance x <? a)%float eqn:Hlt; intros [= <- <-].
        { eapply step_transfer_refused; eassumption. }
        destruct (decide (i = j)) as [->|Hne].
        { rewrite list_insert_insert_eq.
          assert (y = x) as -> by congruence.
          apply step_transfer_self; assumption. }
        apply step_transfer; assumption.
      * rewrite (transfer_dangling_target _ _ _ _ _ Hx Hy).
        destruct (balance x <? a)%float eqn:Hlt; intros [= <- <-].
        eapply step_transfer_refused; eassumption.
    + rewrite (transfer_dangling _ _ _ _ Hx). discriminate.
Qed.

Lemma step_exec c w r w' : step w c r w' -> exec c w = Some (r, w').
Proof.
  intros H. destruct H; unfold exec.
  - reflexivity.
  - rewrite bind_eq. erewrite deposit_eq by eassumption. reflexivity.
  - erewrite withdraw_eq by eassumption. rewrite H0. reflexivity.
  - erewrite withdraw_eq by eassumption. rewrite H0. reflexivity.
  - erewrite transfer_eq by eassumption. rewrite H2. cbv zeta.
    destruct (decide (i = j)); [contradiction|reflexivity].
  - erewrite transfer_eq by eassumption. rewrite H0. cbv zeta.
    destruct (decide (i = i)); [|contradiction].
    rewrite list_insert_insert_eq. reflexivity.
  - destruct (objects w !! j) as [y|] eqn:Hy.
    + erewrite transfer_eq by eassumption. rewrite H0. reflexivity.
    + erewrite transfer_dangling_target by eassumption. rewrite H0. reflexivity.
Qed.

Lemma exec_total c w : live_call w c -> exists r w', exec c w = Some (r, w').
Proof.
  destruct c as [n|i a d|i a d|i a j]; simpl live_call; intros H.
  - eexists _, _. reflexivity.
  - apply lookup_lt_is_Some_2 in H as [x Hx].
    eexists _, _. apply step_exec. econstructor. eassumption.
  - apply lookup_lt_is_Some_2 in H as [x Hx].
    destruct (balance x <? a)%float eqn:Hlt; eexists _, _; apply step_exec.
    + eapply step_withdraw_refused; eassumption.
    + eapply step_withdraw; eassumption.
  - destruct H as [Hi Hj].
    apply lookup_lt_is_Some_2 in Hi as [x Hx].
    apply lookup_lt_is_Some_2 in Hj as [y Hy].
    unfold exec. rewrite (transfer_eq _ _ _ _ _ _ Hx Hy).
    destruct (balance x <? a)%float; eexists _, _; reflexivity.
Qed.

Lemma run_cons c cs w :
  run (c :: cs) w =
  match exec c w with
  | Some (r, w1) =>
      match run cs w1 with
      | Some (rs, w2) => Some (r :: rs, w2)
      | None => None
      end
  | None => None
  end.
Proof.
  simpl run. rewrite bind_eq. destruct (exec c w) as [[r w1]|]; [|reflexivity].
  rewrite bind_eq. destruct (run cs w1) as [[rs w2]|]; reflexivity.
Qed.

(** Induction over the states a sequence of calls goes through, the calls
    being taken among those that satisfy [A]. *)
Lemma run_invariant (A : call -> Prop) (P : World -> Prop) :
  (forall w c r w', A c -> P w -> step w c r w' -> P w') ->
  forall cs w rs w', Forall A cs -> P w -> run cs w = Some (rs, w') -> P w'.
Proof.
  intros Hstep cs. induction cs as [|c cs IH]; intros w rs w' HA HP Hrun.
  - injection Hrun as <- <-. assumption.
  - rewrite run_cons in Hrun.
    destruct (exec c w) as [[r w1]|] eqn:Hc; [|discriminate].
    destruct (run cs w1) as [[rs1 w2]|] eqn:Hcs; [|discriminate].
    injection Hrun as <- <-.
    apply Forall_cons in HA as [Hc' HA].
    eapply IH; [assumption| |eassumption].
    eapply Hstep; [eassumption|eassumption|]. apply exec_step. eassumption.
Qed.

Lemma Forall_any_call (cs : list call) : Forall (fun _ => True) cs.
Proof. apply Forall_forall. intros; exact I. Qed.

(** Where an object of the next state comes from. *)
Lemma lookup_insert_cases {A} (l : list A) (i k : nat) (x y : A) :
  <[i := x]> l !! k = Some y ->
  (k = i /\ y = x) \/ (k <> i /\ l !! k = Some y).
Proof.
  intros H. apply list_lookup_insert_Some in H as [(-> & -> & _)|[Hne H]].
  - left. split; reflexivity.
  - right. split; [congruence|assumption].
Qed.

(** A property of categories that holds of a new one and is kept by a
    deposit (of an amount allowed by [D]) and by a withdrawal (of an amount
    allowed by [W]) holds of every object after a call. *)
Lemma step_objects (D W : float -> Prop) (Q : Category -> Prop) :
  (forall n, Q (mkCategory n 0 0 [])) ->
  (forall a d x, D a -> Q x -> Q (deposited a d x)) ->
  (forall a d x, W a -> Q x -> Q (withdrawn a d x)) ->
  forall w c r w',
    match deposits_to c with Some (_, a) => D a | None => True end ->
    match withdraws_from c with Some (_, a) => W a | None => True end ->
    (forall i x, objects w !! i = Some x -> Q x) ->
    step w c r w' ->
    forall i x, objects w' !! i = Some x -> Q x.
Proof.
  intros Hnew Hdep Hwd w c r w' HD HW HQ Hstep k z Hz.
  destruct Hstep; simpl in *; try (eapply HQ; eassumption).
  - apply lookup_app_Some in Hz as [Hz|[_ Hz]]; [eapply HQ; eassumption|].
    apply list_lookup_singleton_Some in Hz as [_ <-]. apply Hnew.
  - apply lookup_insert_cases in Hz as [[-> ->]|[_ Hz]]; eauto.
  - apply lookup_insert_cases in Hz as [[-> ->]|[_ Hz]]; eauto.
  - apply lookup_insert_cases in Hz as [[-> ->]|[_ Hz]]; eauto.
    apply lookup_insert_cases in Hz as [[-> ->]|[_ Hz]]; eauto.
  - apply lookup_insert_cases in Hz as [[-> ->]|[_ Hz]]; eauto.
Qed.

Lemma ledger_sum_snoc (l : list entry) (e : entry) :
  ledger_sum (l ++ [e]) = (ledger_sum l + amount e)%float.
Proof. unfold ledger_sum. rewrite fold_left_app. reflexivity. Qed.

(** Objects are never removed. *)
Lemma step_objects_kept w c r w' :
  step w c r w' ->
  forall i x, objects w !! i = Some x -> exists x', objects w' !! i = Some x'.
Proof.
  intros Hstep i x Hx.
  assert (Hlen : length (objects w) <= length (objects w')).
  { destruct Hstep; simpl; rewrite ?length_app, ?length_insert; lia. }
  apply lookup_lt_is_Some_2.
  apply lookup_lt_Some in Hx. lia.
Qed.

(** Every call changes the withdrawn amounts in lockstep. *)
Lemma step_lockstep w c r w' : step w c r w' -> lockstep c r w w'.
Proof.
  intros Hstep. destruct Hstep.
  - left. split; [reflexivity|]. intros i x x' Hx Hx'. simpl in Hx'.
    rewrite (lookup_app_l_Some _ _ _ _ Hx) in Hx'. congruence.
  - left. split; [reflexivity|]. intros k z z' Hz Hz'. simpl in Hz'.
    apply lookup_insert_cases in Hz' as [[-> ->]|[_ Hz']].
    + assert (z = x) as -> by congruence. reflexivity.
    + congruence.
  - right. exists i, a, x, (withdrawn a d x).
    split; [reflexivity|]. split; [reflexivity|]. split; [assumption|].
    split; [simpl; eapply lookup_insert_same; eassumption|].
    split; [reflexivity|]. split; [reflexivity|].
    intros k z z' Hne Hz Hz'. simpl in Hz'.
    rewrite list_lookup_insert_ne in Hz' by congruence. congruence.
  - left. split; [reflexivity|]. intros; congruence.
  - right. exists i, a, x, (withdrawn a ("Transfer to " +:+ name y) x).
    split; [reflexivity|]. split; [reflexivity|]. split; [assumption|].
    split.
    { simpl. rewrite list_lookup_insert_ne by congruence.
      eapply lookup_insert_same; eassumption. }
    split; [reflexivity|]. split; [reflexivity|].
    intros k z z' Hne Hz Hz'. simpl in Hz'.
    apply lookup_insert_cases in Hz' as [[-> ->]|[_ Hz']].
    + assert (z = y) as -> by congruence. reflexivity.
    + rewrite list_lookup_insert_ne in Hz' by congruence. congruence.
  - right. eexists i, a, x, _.
    split; [reflexivity|]. split; [reflexivity|]. split; [assumption|].
    split; [simpl; eapply lookup_insert_same; eassumption|].
    split; [reflexivity|]. split; [reflexivity|].
    intros k z z' Hne Hz Hz'. simpl in Hz'.
    rewrite list_lookup_insert_ne in Hz' by congruence. congruence.
  - left. split; [reflexivity|]. intros; congruence.
Qed.

Lemma step_withdrawn_nonneg w c r w' :
  nonneg_withdrawal c -> withdrawn_nonneg w -> step w c r w' ->
  withdrawn_nonneg w'.
Proof.
  intros Hc [Ht Ho] Hstep. split.
  - destruct (step_lockstep _ _ _ _ Hstep)
      as [[-> _]|(i & a & x & x' & _ & Hw & _ & _ & _ & -> & _)]; [assumption|].
    apply add_nonneg; [assumption|].
    unfold nonneg_withdrawal in Hc. rewrite Hw in Hc. assumption.
  - apply (step_objects (fun _ => True) (fun a => (0 <=? a)%float = true)
             (fun x => (0 <=? amount_withdrawn x)%float = true)) with w c r;
      try assumption.
    + reflexivity.
    + intros a d x _ Hx. assumption.
    + intros a d x Ha Hx. simpl. apply add_nonneg; assumption.
    + destruct (deposits_to c) as [[? ?]|]; exact I.
Qed.

Lemma step_withdrawn_le w c r w' :
  nonneg_withdrawal c -> withdrawn_nonneg w -> step w c r w' ->
  withdrawn_le w w'.
Proof.
  intros Hc [Ht Ho] Hstep.
  destruct (step_lockstep _ _ _ _ Hstep)
    as [[Et Eo]|(i & a & x & x' & _ & Hw & Hx & Hx' & Ex & Et & Eo)].
  - split.
    + rewrite Et. apply leb_refl_nonneg. assumption.
    + intros k z Hz.
      destruct (step_objects_kept _ _ _ _ Hstep _ _ Hz) as [z' Hz'].
      exists z'. split; [assumption|].
      rewrite (Eo _ _ _ Hz Hz'). apply leb_refl_nonneg. eauto.
  - assert (Ha : (0 <=? a)%float = true).
    { unfold nonneg_withdrawal in Hc. rewrite Hw in Hc. assumption. }
    split.
    + rewrite Et. apply add_nonneg_le; assumption.
    + intros k z Hz.
      destruct (step_objects_kept _ _ _ _ Hstep _ _ Hz) as [z' Hz'].
      exists z'. split; [assumption|].
      destruct (decide (k = i)) as [->|Hne].
      * assert (z = x) as -> by congruence.
        assert (z' = x') as -> by congruence.
        rewrite Ex. apply add_nonneg_le; eauto.
      * rewrite (Eo _ _ _ Hne Hz Hz'). apply leb_refl_nonneg. eauto.
Qed.

Lemma withdrawn_le_refl w : withdrawn_nonneg w -> withdrawn_le w w.
Proof.
  intros [Ht Ho]. split.
  - apply leb_refl_nonneg. assumption.
  - intros i x Hx. exists x. split; [assumption|].
    apply leb_refl_nonneg. eauto.
Qed.

Lemma withdrawn_le_trans w1 w2 w3 :
  withdrawn_le w1 w2 -> withdrawn_le w2 w3 -> withdrawn_le w1 w3.
Proof.
  intros [Ht1 Ho1] [Ht2 Ho2]. split.
  - eapply leb_trans; eassumption.
  - intros i x Hx.
    destruct (Ho1 _ _ Hx) as (x2 & Hx2 & Hle1).
    destruct (Ho2 _ _ Hx2) as (x3 & Hx3 & Hle2).
    exists x3. split; [assumption|]. eapply leb_trans; eassumption.
Qed.

Lemma run_withdrawn_nonneg cs w rs w' :
  Forall nonneg_withdrawal cs -> withdrawn_nonneg w ->
  run cs w = Some (rs, w') -> withdrawn_nonneg w'.
Proof.
  apply (run_invariant nonneg_withdrawal withdrawn_nonneg).
  intros w0 c r w0' Hc HP Hstep. eapply step_withdrawn_nonneg; eassumption.
Qed.

Lemma run_withdrawn_le cs w rs w' :
  Forall nonneg_withdrawal cs -> withdrawn_nonneg w ->
  run cs w = Some (rs, w') -> withdrawn_le w w'.
Proof.
  revert w rs w'. induction cs as [|c cs IH]; intros w rs w' HA HP Hrun.
  - injection Hrun as <- <-. apply withdrawn_le_refl. assumption.
  - rewrite run_cons in Hrun.
    destruct (exec c w) as [[r w1]|] eqn:Hc; [|discriminate].
    destruct (run cs w1) as [[rs1 w2]|] eqn:Hcs; [|discriminate].
    injection Hrun as <- <-.
    apply Forall_cons in HA as [Hc' HA].
    apply exec_step in Hc.
    apply withdrawn_le_trans with w1.
    + eapply step_withdrawn_le; eassumption.
    + eapply IH; [assumption| |eassumption].
      eapply step_withdrawn_nonneg; eassumption.
Qed.




(** * Sessions: what a call leaves of each object *)

(** Where an object of the state after a call comes from: it is new, or
    it is an object of the state before, as it was or after the deposit,
    the withdrawal, or both, that the call performs on it. *)
Lemma step_object_cases w c r w' k x' :
  step w c r w' -> objects w' !! k = Some x' ->
  (exists n, c = New n /\ k = length (objects w) /\ x' = mkCategory n 0 0 []) \/
  (exists x, objects w !! k = Some x /\
     (x' = x \/
      (exists a d, deposits_to c = Some (k, a) /\ x' = deposited a d x) \/
      (exists a d, withdraws_from c = Some (k, a) /\ r = true /\
                   (balance x <? a)%float = false /\ x' = withdrawn a d x) \/
      (exists a d d', c = Transfer k a k /\ r = true /\
                      (balance x <? a)%float = false /\
                      x' = deposited a d' (withdrawn a d x)))).
Proof.
  intros Hstep Hk. destruct Hstep; simpl in Hk.
  - apply lookup_app_Some in Hk as [Hk|[Hge Hk]].
    + right. exists x'. auto.
    + left. exists n.
      apply list_lookup_singleton_Some in Hk as [Hk <-].
      split; [reflexivity|]. split; [lia|reflexivity].
  - right. apply lookup_insert_cases in Hk as [[-> ->]|[Hne Hk]].
    + exists x. split; [assumption|]. right. left. exists a, d. auto.
    + exists x'. auto.
  - right. apply lookup_insert_cases in Hk as [[-> ->]|[Hne Hk]].
    + exists x. split; [assumption|]. right. right. left. exists a, d. auto.
    + exists x'. auto.
  - right. exists x'. auto.
  - right. apply lookup_insert_cases in Hk as [[-> ->]|[Hne Hk]].
    + exists y. split; [assumption|]. right. left. eexists a, _. auto.
    + apply lookup_insert_cases in Hk as [[-> ->]|[Hne' Hk]].
      * exists x. split; [assumption|]. right. right. left. eexists a, _. auto.
      * exists x'. auto.
  - right. apply lookup_insert_cases in Hk as [[-> ->]|[Hne Hk]].
    + exists x. split; [assumption|]. right. right. right.
      eexists a, _, _. auto.
    + exists x'. auto.
  - right. exists x'. auto.
Qed.

(** The objects of the state before a call are objects of the state
    after it, with the same name and a ledger that was only appended to. *)
Lemma step_ledger_grows w c r w' k x :
  step w c r w' -> objects w !! k = Some x ->
  exists x' added,
    objects w' !! k = Some x' /\ name x' = name x /\
    ledger x' = ledger x ++ added.
Proof.
  intros Hstep Hx.
  destruct (step_objects_kept _ _ _ _ Hstep _ _ Hx) as [x' Hx'].
  exists x'.
  destruct (step_object_cases _ _ _ _ _ _ Hstep Hx')
    as [(n & _ & -> & _)|(x0 & Hx0 & Hcase)].
  { apply lookup_lt_Some in Hx. lia. }
  assert (x0 = x) as -> by congruence.
  destruct Hcase as [->|[(a & d & _ & ->)|[(a & d & _ & _ & _ & ->)
                                          |(a & d & d' & _ & _ & _ & ->)]]].
  - exists []. rewrite app_nil_r. auto.
  - eexists. split; [assumption|]. split; reflexivity.
  - eexists. split; [assumption|]. split; reflexivity.
  - eexists. split; [assumption|]. split; [reflexivity|].
    simpl. rewrite <- app_assoc. reflexivity.
Qed.

(** Objects are created by [Category(name)] and by nothing else. *)
Lemma step_created w c r w' :
  step w c r w' -> length (objects w') = length (objects w) + creates c.
Proof.
  intros Hstep. destruct Hstep; simpl;
    rewrite ?length_app, ?length_insert; simpl; lia.
Qed.

(** A call leaves alone the objects it is not given. *)
Lemma step_frame w c r w' k :
  step w c r w' -> k ∉ references c -> k < length (objects w) ->
  objects w' !! k = objects w !! k.
Proof.
  intros Hstep Hk Hlive. destruct Hstep; simpl in *;
    rewrite ?not_elem_of_cons in Hk;
    try reflexivity;
    try (rewrite !list_lookup_insert_ne by (intros ->; tauto); reflexivity).
  apply lookup_app_l. assumption.
Qed.

(** ** The withdrawn amounts as running sums *)

Lemma float_sum_app (s : float) (l1 l2 : list float) :
  float_sum s (l1 ++ l2) = float_sum (float_sum s l1) l2.
Proof. unfold float_sum. apply fold_left_app. Qed.

Lemma withdrawn_amounts_cons keep c cs r rs :
  withdrawn_amounts keep (c :: cs) (r :: rs) =
  withdrawn_amounts keep [c] [r] ++ withdrawn_amounts keep cs rs.
Proof.
  simpl. destruct (withdraws_from c) as [[j a]|]; [|reflexivity].
  destruct (r && keep j); reflexivity.
Qed.

Lemma step_total w c r w' :
  step w c r w' ->
  total_withdrawn w' =
  float_sum (total_withdrawn w) (withdrawn_amounts (fun _ => true) [c] [r]).
Proof. intros Hstep. destruct Hstep; reflexivity. Qed.

Lemma step_withdrawn_of w c r w' (i : ref) :
  step w c r w' ->
  withdrawn_of w' i =
  float_sum (withdrawn_of w i) (withdrawn_amounts (Nat.eqb i) [c] [r]).
Proof.
  intros Hstep. unfold withdrawn_of.
  destruct Hstep; simpl.
  - destruct (objects w !! i) as [x|] eqn:Hx.
    + rewrite (lookup_app_l_Some _ _ _ _ Hx). reflexivity.
    + apply lookup_ge_None in Hx.
      destruct (decide (i = length (objects w))) as [->|Hne].
      * rewrite list_lookup_middle by reflexivity. reflexivity.
      * rewrite lookup_ge_None_2; [reflexivity|].
        rewrite length_app. simpl. lia.
  - destruct (decide (i = i0)) as [->|Hne].
    + rewrite (lookup_insert_same _ _ _ _ H), H. reflexivity.
    + rewrite list_lookup_insert_ne by congruence. reflexivity.
  - destruct (Nat.eqb_spec i i0) as [->|Hne].
    + rewrite (lookup_insert_same _ _ _ _ H), H. reflexivity.
    + rewrite list_lookup_insert_ne by congruence. reflexivity.
  - reflexivity.
  - destruct (Nat.eqb_spec i i0) as [->|Hne].
    + rewrite list_lookup_insert_ne by congruence.
      rewrite (lookup_insert_same _ _ _ _ H), H. reflexivity.
    + destruct (decide (i = j)) as [->|Hj].
      * erewrite lookup_insert_same
          by (rewrite list_lookup_insert_ne by congruence; eassumption).
        rewrite H0. reflexivity.
      * rewrite !list_lookup_insert_ne by congruence. reflexivity.
  - destruct (Nat.eqb_spec i i0) as [->|Hne].
    + rewrite (lookup_insert_same _ _ _ _ H), H. reflexivity.
    + rewrite list_lookup_insert_ne by congruence. reflexivity.
  - reflexivity.
Qed.

Lemma run_withdrawn_sums cs w rs w' :
  run cs w = Some (rs, w') ->
  total_withdrawn w' =
    float_sum (total_withdrawn w) (withdrawn_amounts (fun _ => true) cs rs) /\
  forall i, withdrawn_of w' i =
            float_sum (withdrawn_of w i) (withdrawn_amounts (Nat.eqb i) cs rs).
Proof.
  revert w rs. induction cs as [|c cs IH]; intros w rs Hrun.
  - injection Hrun as <- <-. split; reflexivity.
  - rewrite run_cons in Hrun.
    destruct (exec c w) as [[r w1]|] eqn:Hc; [|discriminate].
    destruct (run cs w1) as [[rs1 w2]|] eqn:Hcs; [|discriminate].
    injection Hrun as <- <-.
    apply exec_step in Hc.
    destruct (IH _ _ Hcs) as [Ht Ho].
    split.
    + rewrite withdrawn_amounts_cons, float_sum_app, Ht.
      rewrite (step_total _ _ _ _ Hc). reflexivity.
    + intros i. rewrite withdrawn_amounts_cons, float_sum_app, Ho.
      rewrite (step_withdrawn_of _ _ _ _ i Hc). reflexivity.
Qed.

(** ** No overdraft *)

Lemma step_balances_nonneg w c r w' :
  sound_amount c -> balances_nonneg w -> step w c r w' -> balances_nonneg w'.
Proof.
  intros Hc Hw Hstep k x' Hx'.
  destruct (step_object_cases _ _ _ _ _ _ Hstep Hx')
    as [(n & _ & _ & ->)|(x & Hx & Hcase)]; [reflexivity|].
  specialize (Hw _ _ Hx).
  destruct Hcase as [->|[(a & d & Hd & ->)|[(a & d & Hd & _ & Hlt & ->)
                                          |(a & d & d' & -> & _ & Hlt & ->)]]].
  - assumption.
  - simpl. apply add_nonneg; [assumption|].
    destruct c; simpl in Hd, Hc; try discriminate; injection Hd as _ <-; tauto.
  - simpl.
    assert ((0 <=? a)%float = true /\ is_finite a = true) as [Ha Hf].
    { destruct c; simpl in Hd, Hc; try discriminate; injection Hd as _ <-; tauto. }
    apply sub_nonneg; assumption.
  - simpl. destruct Hc as [Ha Hf].
    apply add_nonneg; [|assumption]. apply sub_nonneg; assumption.
Qed.

Lemma run_balances_nonneg cs w rs w' :
  Forall sound_amount cs -> balances_nonneg w ->
  run cs w = Some (rs, w') -> balances_nonneg w'.
Proof.
  apply (run_invariant sound_amount balances_nonneg).
  intros w0 c r w0' Hc HP Hstep. eapply step_balances_nonneg; eassumption.
Qed.

(** * Sessions: no category above the total *)

Lemma step_within_total w c r w' :
  nonneg_withdrawal c -> withdrawn_nonneg w -> withdrawn_within_total w ->
  step w c r w' -> withdrawn_within_total w'.
Proof.
  intros Hc [Ht Ho] Hw Hstep k x' Hx'.
  assert (Hkeep : forall a, (0 <=? a)%float = true ->
            forall z, (amount_withdrawn z <=? total_withdrawn w)%float = true ->
                      (amount_withdrawn z <=? total_withdrawn w + a)%float = true).
  { intros a Ha z Hz. eapply leb_trans; [exact Hz|].
    apply add_nonneg_le; assumption. }
  destruct Hstep; simpl in Hx', Hc |- *.
  - apply lookup_app_Some in Hx' as [Hx'|[_ Hx']]; [eauto|].
    apply list_lookup_singleton_Some in Hx' as [_ <-]. exact Ht.
  - apply lookup_insert_cases in Hx' as [[-> ->]|[_ Hx']]; simpl; eauto.
  - apply lookup_insert_cases in Hx' as [[-> ->]|[_ Hx']]; simpl; [|eauto].
    apply add_mono_l; eauto.
  - eauto.
  - apply lookup_insert_cases in Hx' as [[-> ->]|[_ Hx']]; simpl; [eauto|].
    apply lookup_insert_cases in Hx' as [[-> ->]|[_ Hx']]; simpl; [|eauto].
    apply add_mono_l; eauto.
  - apply lookup_insert_cases in Hx' as [[-> ->]|[_ Hx']]; simpl; [|eauto].
    apply add_mono_l; eauto.
  - eauto.
Qed.

Lemma run_within_total cs w rs w' :
  Forall nonneg_withdrawal cs ->
  withdrawn_nonneg w /\ withdrawn_within_total w ->
  run cs w = Some (rs, w') ->
  withdrawn_nonneg w' /\ withdrawn_within_total w'.
Proof.
  apply (run_invariant nonneg_withdrawal
           (fun w => withdrawn_nonneg w /\ withdrawn_within_total w)).
  intros w0 c r w0' Hc [Hn Hw] Hstep. split.
  - eapply step_withdrawn_nonneg; eassumption.
  - eapply step_within_total; eassumption.
Qed.

(** * Properties of [Category] *)

(** ** Refused withdrawals and the boundary case *)

(** C1 as amended: on a live category, [withdraw amount] returns; it
    returns false exactly when [amount > balance] (Python's comparison
    of the two floats, false when one of them is NaN); when it returns false
    the whole state, so the category's balance, amount withdrawn and ledger
    and the total withdrawn, is unchanged; and when [amount == balance] it
    returns true, leaving [balance == 0] provided the balance was finite. *)
Theorem withdraw_refused_iff_exceeds
    (w : World) (self : ref) (c : Category) (a : float) (d : string) :
  objects w !! self = Some c ->
  exists r w',
    withdraw self a d w = Some (r, w') /\
    (r = false <-> (balance c <? a)%float = true) /\
    (r = false -> w' = w) /\
    ((a =? balance c)%float = true ->
     r = true /\
     (is_finite (balance c) = true ->
      exists c', objects w' !! self = Some c' /\
                 (balance c' =? 0)%float = true)).
Proof.
  intros Hc. rewrite (withdraw_eq _ _ _ _ _ Hc).
  destruct (balance c <? a)%float eqn:Hlt.
  - exists false, w. split; [reflexivity|]. split; [tauto|].
    split; [reflexivity|].
    intros He. apply eqb_not_ltb in He. congruence.
  - eexists true, _. split; [reflexivity|]. split; [|split].
    + split; discriminate.
    + discriminate.
    + intros He. split; [reflexivity|]. intros Hfin.
      eexists. split.
      * simpl. eapply lookup_insert_same. eassumption.
      * simpl. apply sub_eq_zero; [|assumption].
        rewrite is_finite_spec in *.
        rewrite FloatAxioms.eqb_spec in He. unfold SFeqb in He.
        destruct (Prim2SF (balance c)) as [s|s| |s m e]; try discriminate;
          destruct (Prim2SF a) as [s'|s'| |s' m' e']; try reflexivity;
          simpl in He; try discriminate; destruct s'; discriminate.
Qed.

Lemma withdraw_refused_iff_exceeds_witness :
  exists r w',
    withdraw 0 100 "shirt" (mkWorld 0 [mkCategory "Clothing" 100 0 [Entry 100 ""]])
      = Some (r, w') /\
    (r = false <-> (100 <? 100)%float = true) /\
    (r = false -> w' = mkWorld 0 [mkCategory "Clothing" 100 0 [Entry 100 ""]]) /\
    ((100 =? 100)%float = true ->
     r = true /\
     (is_finite 100 = true ->
      exists c', objects w' !! 0 = Some c' /\ (balance c' =? 0)%float = true)).
Proof.
  apply (withdraw_refused_iff_exceeds
           (mkWorld 0 [mkCategory "Clothing" 100 0 [Entry 100 ""]]) 0
           (mkCategory "Clothing" 100 0 [Entry 100 ""]) 100 "shirt").
  reflexivity.
Defined.

(** C1 as stated fails on an infinite balance: after [deposit(inf)] the
    balance is [inf]; [withdraw(inf)] has [amount == balance], returns true,
    and leaves the balance [inf - inf], a NaN, which is not [== 0]. *)
Lemma withdraw_whole_infinite_balance :
  run [New "A"; Deposit 0 infinity ""] initial =
    Some ([true; true], mkWorld 0 [mkCategory "A" infinity 0 [Entry infinity ""]]) /\
  (infinity =? infinity)%float = true /\
  withdraw 0 infinity "" (mkWorld 0 [mkCategory "A" infinity 0 [Entry infinity ""]]) =
    Some (true, mkWorld infinity
                  [mkCategory "A" nan infinity
                     [Entry infinity ""; Entry neg_infinity ""]]) /\
  (nan =? 0)%float = false.
Proof. vm_compute. repeat split; reflexivity. Qed.

(** ** The balance and the ledger *)

(** C2 as amended: in every state reached from the initial one by
    constructing categories and calling [deposit], [withdraw] and
    [transfer] on them, the balance of every category is the sum of its
    ledger amounts (the amounts added up in ledger order, starting from
    zero): the two are the same float.  Python's [==] holds between them
    exactly when the balance is not NaN. *)
Theorem balance_is_ledger_sum (cs : list call) (rs : list bool) (w : World) :
  run cs initial = Some (rs, w) ->
  forall i c,
    objects w !! i = Some c ->
    balance c = ledger_sum (ledger c) /\
    (balance c =? ledger_sum (ledger c))%float = negb (is_nan (balance c)).
Proof.
  intros Hrun i c Hc.
  assert (H : balance c = ledger_sum (ledger c)).
  { revert i c Hc. revert Hrun.
    apply (run_invariant (fun _ => True)
             (fun w => forall i c, objects w !! i = Some c ->
                                   balance c = ledger_sum (ledger c))).
    - intros w0 c r w' _ HQ Hstep.
      apply (step_objects (fun _ => True) (fun _ => True)
               (fun c => balance c = ledger_sum (ledger c))) with w0 c r;
        try assumption.
      + reflexivity.
      + intros a d x _ Hx. simpl. rewrite ledger_sum_snoc, Hx. reflexivity.
      + intros a d x _ Hx. simpl. rewrite ledger_sum_snoc, Hx. simpl.
        apply sub_add_opp.
      + destruct (deposits_to c) as [[? ?]|]; exact I.
      + destruct (withdraws_from c) as [[? ?]|]; exact I.
    - apply Forall_any_call.
    - intros i c Hc. discriminate Hc. }
  split; [exact H|]. rewrite <- H. unfold is_nan.
  destruct (balance c =? balance c)%float; reflexivity.
Qed.

Lemma balance_is_ledger_sum_witness :
  run food_clothing initial =
    Some ([true; true; true; true; true; true; true; false], food_clothing_final) /\
  objects food_clothing_final !! 0 = Some food_final /\
  balance food_final = ledger_sum (ledger food_final) /\
  (balance food_final =? ledger_sum (ledger food_final))%float =
    negb (is_nan (balance food_final)).
Proof.
  split; [vm_compute; reflexivity|]. split; [reflexivity|].
  apply (balance_is_ledger_sum food_clothing
           [true; true; true; true; true; true; true; false]
           food_clothing_final ltac:(vm_compute; reflexivity) 0 food_final).
  reflexivity.
Defined.

(** C2 as stated fails on a NaN balance: [deposit(inf)] then
    [withdraw(inf)] leave the balance [inf - inf], a NaN; the sum of the
    ledger amounts [inf] and [-inf] is a NaN too, and [balance == sum] is
    false, as every comparison with NaN is.  A deposit of NaN does the
    same. *)
Lemma nan_balance_differs_from_ledger_sum :
  run [New "A"; Deposit 0 infinity ""; Withdraw 0 infinity ""] initial =
    Some ([true; true; true],
          mkWorld infinity
            [mkCategory "A" nan infinity
               [Entry infinity ""; Entry neg_infinity ""]]) /\
  ledger_sum [Entry infinity ""; Entry neg_infinity ""] = nan /\
  (nan =? ledger_sum [Entry infinity ""; Entry neg_infinity ""])%float = false /\
  run [New "A"; Deposit 0 nan ""] initial =
    Some ([true; true], mkWorld 0 [mkCategory "A" nan 0 [Entry nan ""]]) /\
  (nan =? ledger_sum [Entry nan ""])%float = false.
Proof. vm_compute. repeat split; reflexivity. Qed.

(** ** Transfers *)

(** C3: when [transfer(amount, target)] from a category to a different
    one returns true, the source has its balance reduced by the amount,
    its amount withdrawn raised by the amount and the entry
    [{-amount, "Transfer to <target name>"}] appended to its ledger; the
    target has its balance raised by the amount and the entry
    [{amount, "Transfer from <source name>"}] appended, its amount
    withdrawn untouched; the total withdrawn is raised by the amount, once;
    no other object changes. *)
Theorem transfer_moves_amount
    (w w' : World) (self target : ref) (c t : Category) (a : float) :
  self <> target ->
  objects w !! self = Some c ->
  objects w !! target = Some t ->
  transfer self a target w = Some (true, w') ->
  objects w' !! self =
    Some (mkCategory (name c) (balance c - a) (amount_withdrawn c + a)
            (ledger c ++ [Entry (- a) ("Transfer to " +:+ name t)])) /\
  objects w' !! target =
    Some (mkCategory (name t) (balance t + a) (amount_withdrawn t)
            (ledger t ++ [Entry a ("Transfer from " +:+ name c)])) /\
  total_withdrawn w' = (total_withdrawn w + a)%float /\
  (forall k, k <> self -> k <> target -> objects w' !! k = objects w !! k).
Proof.
  intros Hne Hc Ht. rewrite (transfer_eq _ _ _ _ _ _ Hc Ht). cbv zeta.
  destruct (balance c <? a)%float; [discriminate|].
  destruct (decide (self = target)); [contradiction|].
  intros [= <-]. simpl. repeat split.
  - rewrite list_lookup_insert_ne by congruence.
    apply (lookup_insert_same _ _ _ _ Hc).
  - eapply lookup_insert_same.
    rewrite list_lookup_insert_ne by congruence. eassumption.
  - intros k Hk1 Hk2. rewrite !list_lookup_insert_ne by congruence.
    reflexivity.
Qed.

Lemma transfer_moves_amount_witness :
  0 <> 1 /\
  transfer 0 50 1
    (mkWorld 205.55
       [ mkCategory "Food" 794.45 105.55 [Entry 900 "deposit"; Entry (-105.55) "groceries"];
         mkCategory "Clothing" 800 100 [Entry 900 "deposit"; Entry (-100) "shirt"] ])
  = Some (true, food_clothing_final) /\
  objects food_clothing_final !! 0 = Some food_final /\
  objects food_clothing_final !! 1 = Some clothing_final /\
  total_withdrawn food_clothing_final = (205.55 + 50)%float.
Proof.
  split; [discriminate|]. split; [vm_compute; reflexivity|].
  destruct (transfer_moves_amount
    (mkWorld 205.55
       [ mkCategory "Food" 794.45 105.55 [Entry 900 "deposit"; Entry (-105.55) "groceries"];
         mkCategory "Clothing" 800 100 [Entry 900 "deposit"; Entry (-100) "shirt"] ])
    food_clothing_final 0 1
    (mkCategory "Food" 794.45 105.55 [Entry 900 "deposit"; Entry (-105.55) "groceries"])
    (mkCategory "Clothing" 800 100 [Entry 900 "deposit"; Entry (-100) "shirt"])
    50 ltac:(discriminate) eq_refl eq_refl ltac:(vm_compute; reflexivity))
    as (H1 & H2 & H3 & _).
  split; [|split]; [| |exact H3]; vm_compute; reflexivity.
Defined.

(** ** The withdrawn amounts *)

(** C5 as amended: in every state reached by calls whose withdrawals and
    transfers are given amounts [>= 0] (deposits of any amount), every
    category's amount withdrawn and the total withdrawn are [>= 0]; any
    further call changes the withdrawn amounts in lockstep (nothing changes,
    or the call is a withdrawal or transfer from one category that
    succeeded, and that category's amount withdrawn and the total both have
    the amount added, no other amount withdrawn changing); and after any
    further such calls no amount withdrawn and not the total is smaller than
    before. *)
Theorem withdrawn_amounts_grow_in_lockstep
    (cs : list call) (rs : list bool) (w : World) :
  Forall nonneg_withdrawal cs ->
  run cs initial = Some (rs, w) ->
  withdrawn_nonneg w /\
  (forall c r w', exec c w = Some (r, w') -> lockstep c r w w') /\
  (forall cs' rs' w',
     Forall nonneg_withdrawal cs' -> run cs' w = Some (rs', w') -> withdrawn_le w w').
Proof.
  intros Hcs Hrun.
  assert (Hw : withdrawn_nonneg w).
  { eapply run_withdrawn_nonneg; [eassumption| |eassumption].
    split; [reflexivity|]. intros i x Hx. discriminate Hx. }
  split; [assumption|]. split.
  - intros c r w' Hc. apply step_lockstep. apply exec_step. assumption.
  - intros cs' rs' w' Hcs' Hrun'. eapply run_withdrawn_le; eassumption.
Qed.

Lemma food_clothing_nonneg : Forall nonneg_withdrawal food_clothing.
Proof. repeat (constructor; [first [exact I | reflexivity]|]). constructor. Qed.

Lemma withdrawn_amounts_grow_in_lockstep_witness :
  Forall nonneg_withdrawal food_clothing /\
  run food_clothing initial =
    Some ([true; true; true; true; true; true; true; false], food_clothing_final) /\
  withdrawn_nonneg food_clothing_final /\
  (forall c r w', exec c food_clothing_final = Some (r, w') ->
                  lockstep c r food_clothing_final w') /\
  (forall cs' rs' w',
     Forall nonneg_withdrawal cs' -> run cs' food_clothing_final = Some (rs', w') ->
     withdrawn_le food_clothing_final w').
Proof.
  split; [exact food_clothing_nonneg|]. split; [vm_compute; reflexivity|].
  apply (withdrawn_amounts_grow_in_lockstep food_clothing
           [true; true; true; true; true; true; true; false]
           food_clothing_final food_clothing_nonneg).
  vm_compute. reflexivity.
Defined.

(** C5 as stated fails on a negative amount: on a new category
    [withdraw(-5)] passes the funds check ([-5 > 0.0] is false), so the
    amount withdrawn and the total go from [0.0] down to [-5.0]. *)
Lemma negative_withdrawal_lowers_amount_withdrawn :
  run [New "A"; Withdraw 0 (-5) ""] initial =
    Some ([true; true], mkWorld (-5) [mkCategory "A" 5 (-5) [Entry 5 ""]]) /\
  (-5 <? 0)%float = true /\
  (0 <=? -5)%float = false.
Proof. vm_compute. repeat split; reflexivity. Qed.

(** ** The ledger length *)




(** * Further properties of [Category] *)

(** ** [deposit] *)

(** X1: [deposit] on a live object never fails and validates nothing: it
    adds the amount to the balance of that object and appends the entry to
    its ledger; [amount_withdrawn], the class total, the number of objects
    and every other object stay as they were. *)
Theorem deposit_adds_and_records
    (w : World) (self : ref) (c : Category) (a : float) (d : string) :
  objects w !! self = Some c ->
  exists w',
    deposit self a d w = Some (tt, w') /\
    objects w' !! self =
      Some (mkCategory (name c) (balance c + a) (amount_withdrawn c)
              (ledger c ++ [Entry a d])) /\
    total_withdrawn w' = total_withdrawn w /\
    length (objects w') = length (objects w) /\
    forall k, k <> self -> objects w' !! k = objects w !! k.
Proof.
  intros Hc. eexists. split; [apply deposit_eq; eassumption|].
  simpl. split; [eapply lookup_insert_same; eassumption|].
  split; [reflexivity|]. split; [apply length_insert|].
  intros k Hk. apply list_lookup_insert_ne. congruence.
Qed.

Lemma deposit_adds_and_records_witness :
  objects (mkWorld 0 [mkCategory "A" 10 0 [Entry 10 ""]]) !! 0 =
    Some (mkCategory "A" 10 0 [Entry 10 ""]) /\
  exists w',
    deposit 0 (-25) "refund" (mkWorld 0 [mkCategory "A" 10 0 [Entry 10 ""]])
      = Some (tt, w') /\
    objects w' !! 0 =
      Some (mkCategory "A" (10 + -25) 0 ([Entry 10 ""] ++ [Entry (-25) "refund"])) /\
    total_withdrawn w' = 0%float /\
    length (objects w') = 1 /\
    forall k, k <> 0 -> objects w' !! k = [mkCategory "A" 10 0 [Entry 10 ""]] !! k.
Proof.
  split; [reflexivity|].
  apply (deposit_adds_and_records
           (mkWorld 0 [mkCategory "A" 10 0 [Entry 10 ""]]) 0
           (mkCategory "A" 10 0 [Entry 10 ""]) (-25) "refund").
  reflexivity.
Defined.

(** ** [check_funds] *)

(** X2: [check_funds] changes nothing and answers false exactly when the
    amount exceeds the balance; [withdraw] and [transfer] return what
    [check_funds] answers, and when the answer is false they leave the
    whole state as it was. *)
Theorem check_funds_governs_withdraw_and_transfer
    (w : World) (self target : ref) (c t : Category) (a : float) (d : string) :
  objects w !! self = Some c ->
  objects w !! target = Some t ->
  exists r w1 w2,
    check_funds self a w = Some (r, w) /\
    (r = false <-> (balance c <? a)%float = true) /\
    withdraw self a d w = Some (r, w1) /\
    transfer self a target w = Some (r, w2) /\
    (r = false -> w1 = w /\ w2 = w).
Proof.
  intros Hc Ht.
  rewrite (check_funds_eq _ _ _ _ Hc), (withdraw_eq _ _ _ _ _ Hc),
    (transfer_eq _ _ _ _ _ _ Hc Ht).
  destruct (balance c <? a)%float.
  - exists false, w, w. repeat split; auto.
  - eexists true, _, _. repeat split; try reflexivity; discriminate.
Qed.

Lemma check_funds_governs_withdraw_and_transfer_witness :
  objects food_clothing_final !! 1 = Some clothing_final /\
  objects food_clothing_final !! 0 = Some food_final /\
  exists r w1 w2,
    check_funds 1 5000 food_clothing_final = Some (r, food_clothing_final) /\
    (r = false <-> (balance clothing_final <? 5000)%float = true) /\
    withdraw 1 5000 "car" food_clothing_final = Some (r, w1) /\
    transfer 1 5000 0 food_clothing_final = Some (r, w2) /\
    (r = false -> w1 = food_clothing_final /\ w2 = food_clothing_final).
Proof.
  split; [reflexivity|]. split; [reflexivity|].
  apply (check_funds_governs_withdraw_and_transfer
           food_clothing_final 1 0 clothing_final food_final 5000 "car");
    reflexivity.
Defined.

(** X3: a NaN is never refused: when the amount or the balance is NaN,
    [amount > balance] is false, so [withdraw] goes through; it leaves a NaN
    balance (after which every withdrawal from the object goes through), and
    a NaN amount makes [amount_withdrawn] and the class total NaN too. *)
Theorem nan_is_never_refused
    (w : World) (self : ref) (c : Category) (a : float) (d : string) :
  objects w !! self = Some c ->
  is_nan a = true \/ is_nan (balance c) = true ->
  exists w' c',
    withdraw self a d w = Some (true, w') /\
    objects w' !! self = Some c' /\
    is_nan (balance c') = true /\
    (is_nan a = true ->
     is_nan (amount_withdrawn c') = true /\ is_nan (total_withdrawn w') = true).
Proof.
  intros Hc Hnan.
  rewrite (withdraw_eq _ _ _ _ _ Hc).
  rewrite ltb_nan by tauto.
  eexists _, _. split; [reflexivity|].
  split; [simpl; eapply lookup_insert_same; eassumption|].
  split.
  - simpl. apply sub_nan. tauto.
  - intros Ha. simpl. split; apply add_nan; auto.
Qed.

Lemma nan_is_never_refused_witness :
  objects (mkWorld 0 [mkCategory "A" 0 0 []]) !! 0 = Some (mkCategory "A" 0 0 []) /\
  (is_nan nan = true \/ is_nan (balance (mkCategory "A" 0 0 [])) = true) /\
  exists w' c',
    withdraw 0 nan "" (mkWorld 0 [mkCategory "A" 0 0 []]) = Some (true, w') /\
    objects w' !! 0 = Some c' /\
    is_nan (balance c') = true /\
    (is_nan nan = true ->
     is_nan (amount_withdrawn c') = true /\ is_nan (total_withdrawn w') = true).
Proof.
  split; [reflexivity|]. split; [left; reflexivity|].
  apply (nan_is_never_refused (mkWorld 0 [mkCategory "A" 0 0 []]) 0
           (mkCategory "A" 0 0 []) nan "");
    [reflexivity|left; reflexivity].
Defined.

(** ** [transfer] *)

(** X4: a transfer that passes the funds check is the withdrawal from the
    source, described "Transfer to" and the name of the target, followed by
    the deposit on the target, described "Transfer from" and the name of the
    source; the second funds check, inside [withdraw], never refuses.  This
    holds when source and target are the same object too. *)
Theorem transfer_is_withdraw_then_deposit
    (w : World) (self target : ref) (c t : Category) (a : float) :
  objects w !! self = Some c ->
  objects w !! target = Some t ->
  (balance c <? a)%float = false ->
  exists w1 w2,
    withdraw self a ("Transfer to " +:+ name t) w = Some (true, w1) /\
    deposit target a ("Transfer from " +:+ name c) w1 = Some (tt, w2) /\
    transfer self a target w = Some (true, w2).
Proof.
  intros Hc Ht Hlt.
  rewrite (withdraw_eq _ _ _ _ _ Hc), (transfer_eq _ _ _ _ _ _ Hc Ht), Hlt.
  cbv zeta.
  destruct (decide (self = target)) as [->|Hne].
  - assert (t = c) as -> by congruence.
    eexists _, _. split; [reflexivity|]. split; [|reflexivity].
    erewrite deposit_eq by (simpl; eapply lookup_insert_same; eassumption).
    reflexivity.
  - eexists _, _. split; [reflexivity|]. split; [|reflexivity].
    erewrite deposit_eq
      by (simpl; rewrite list_lookup_insert_ne by congruence; eassumption).
    reflexivity.
Qed.

Lemma transfer_is_withdraw_then_deposit_witness :
  objects food_clothing_final !! 0 = Some food_final /\
  objects food_clothing_final !! 1 = Some clothing_final /\
  (balance food_final <? 44.45)%float = false /\
  exists w1 w2,
    withdraw 0 44.45 ("Transfer to " +:+ name clothing_final) food_clothing_final
      = Some (true, w1) /\
    deposit 1 44.45 ("Transfer from " +:+ name food_final) w1 = Some (tt, w2) /\
    transfer 0 44.45 1 food_clothing_final = Some (true, w2).
Proof.
  split; [reflexivity|]. split; [reflexivity|]. split; [reflexivity|].
  apply (transfer_is_withdraw_then_deposit
           food_clothing_final 0 1 food_final clothing_final 44.45);
    reflexivity.
Defined.

(** X5: a transfer from an object to itself is not a no-operation: when it
    passes the funds check the balance becomes [(balance - amount) +
    amount], the amount is counted as withdrawn in the object and in the
    class total, and the ledger gets two entries, the withdrawal and then
    the deposit, both described with the object's own name. *)
Theorem transfer_to_itself
    (w : World) (self : ref) (c : Category) (a : float) :
  objects w !! self = Some c ->
  (balance c <? a)%float = false ->
  exists w',
    transfer self a self w = Some (true, w') /\
    objects w' !! self =
      Some (mkCategory (name c) (balance c - a + a) (amount_withdrawn c + a)
              (ledger c ++ [Entry (- a) ("Transfer to " +:+ name c);
                            Entry a ("Transfer from " +:+ name c)])) /\
    total_withdrawn w' = (total_withdrawn w + a)%float /\
    forall k, k <> self -> objects w' !! k = objects w !! k.
Proof.
  intros Hc Hlt.
  rewrite (transfer_eq _ _ _ _ _ _ Hc Hc), Hlt. cbv zeta.
  rewrite decide_True by reflexivity.
  eexists. split; [reflexivity|]. simpl.
  split.
  - erewrite lookup_insert_same by (eapply lookup_insert_same; eassumption).
    unfold deposited, withdrawn. simpl. rewrite <- app_assoc. reflexivity.
  - split; [reflexivity|]. intros k Hk.
    rewrite !list_lookup_insert_ne by congruence. reflexivity.
Qed.

Lemma transfer_to_itself_witness :
  objects (mkWorld 0 [mkCategory "A" 5.55 0 [Entry 5.55 ""]]) !! 0 =
    Some (mkCategory "A" 5.55 0 [Entry 5.55 ""]) /\
  (5.55 <? 1.1)%float = false /\
  exists w',
    transfer 0 1.1 0 (mkWorld 0 [mkCategory "A" 5.55 0 [Entry 5.55 ""]])
      = Some (true, w') /\
    objects w' !! 0 =
      Some (mkCategory "A" (5.55 - 1.1 + 1.1) (0 + 1.1)
              ([Entry 5.55 ""] ++ [Entry (- 1.1) ("Transfer to " +:+ "A");
                                   Entry 1.1 ("Transfer from " +:+ "A")])) /\
    total_withdrawn w' = (0 + 1.1)%float /\
    forall k, k <> 0 -> objects w' !! k = [mkCategory "A" 5.55 0 [Entry 5.55 ""]] !! k.
Proof.
  split; [reflexivity|]. split; [reflexivity|].
  apply (transfer_to_itself (mkWorld 0 [mkCategory "A" 5.55 0 [Entry 5.55 ""]]) 0
           (mkCategory "A" 5.55 0 [Entry 5.55 ""]) 1.1);
    reflexivity.
Defined.

(** The balance after the transfer of 1.1 from a balance of 5.55 to itself
    is not the balance before. *)
Example transfer_to_itself_changes_balance :
  (5.55 - 1.1 + 1.1 =? 5.55)%float = false /\
  float_str (5.55 - 1.1 + 1.1) = "5.549999999999999".
Proof. split; vm_compute; reflexivity. Qed.

(** ** Sessions *)

(** X6: objects are created by [Category(name)] and by nothing else, and
    they persist: after any sequence of calls the number of objects is the
    number before plus the number of creations, and an object that existed
    before is still there under the same reference, with the same name and
    with a ledger that is the old ledger followed by new entries: no entry
    is ever removed, reordered or rewritten. *)
Theorem ledger_is_append_only
    (cs : list call) (rs : list bool) (w w' : World) (k : ref) (x : Category) :
  run cs w = Some (rs, w') ->
  objects w !! k = Some x ->
  length (objects w') = length (objects w) + created cs /\
  exists x' added,
    objects w' !! k = Some x' /\
    name x' = name x /\
    ledger x' = ledger x ++ added.
Proof.
  revert w rs x. induction cs as [|c cs IH]; intros w rs x Hrun Hx.
  - injection Hrun as <- <-. split; [unfold created; simpl; lia|].
    exists x, []. rewrite app_nil_r. auto.
  - rewrite run_cons in Hrun.
    destruct (exec c w) as [[r w1]|] eqn:Hc; [|discriminate].
    destruct (run cs w1) as [[rs1 w2]|] eqn:Hcs; [|discriminate].
    injection Hrun as <- <-.
    apply exec_step in Hc.
    destruct (step_ledger_grows _ _ _ _ _ _ Hc Hx) as (x1 & l1 & Hx1 & Hn1 & Hl1).
    destruct (IH _ _ _ Hcs Hx1) as (Hlen & x2 & l2 & Hx2 & Hn2 & Hl2).
    split.
    + rewrite Hlen, (step_created _ _ _ _ Hc). unfold created. simpl. lia.
    + exists x2, (l1 ++ l2). split; [assumption|]. split; [congruence|].
      rewrite Hl2, Hl1, app_assoc. reflexivity.
Qed.

Lemma ledger_is_append_only_witness :
  run [Deposit 0 900 "deposit"; New "Clothing"; Transfer 0 50 1]
      (mkWorld 0 [mkCategory "Food" 0 0 []]) =
    Some ([true; true; true],
          mkWorld 50 [mkCategory "Food" 850 50
                        [Entry 900 "deposit"; Entry (-50) "Transfer to Clothing"];
                      mkCategory "Clothing" 50 0 [Entry 50 "Transfer from Food"]]) /\
  objects (mkWorld 0 [mkCategory "Food" 0 0 []]) !! 0 = Some (mkCategory "Food" 0 0 []) /\
  length [mkCategory "Food" 850 50
            [Entry 900 "deposit"; Entry (-50) "Transfer to Clothing"];
          mkCategory "Clothing" 50 0 [Entry 50 "Transfer from Food"]] =
    1 + created [Deposit 0 900 "deposit"; New "Clothing"; Transfer 0 50 1] /\
  exists x' added,
    [mkCategory "Food" 850 50
       [Entry 900 "deposit"; Entry (-50) "Transfer to Clothing"];
     mkCategory "Clothing" 50 0 [Entry 50 "Transfer from Food"]] !! 0 = Some x' /\
    name x' = "Food" /\
    ledger x' = [] ++ added.
Proof.
  split; [vm_compute; reflexivity|]. split; [reflexivity|].
  apply (ledger_is_append_only
           [Deposit 0 900 "deposit"; New "Clothing"; Transfer 0 50 1]
           [true; true; true]
           (mkWorld 0 [mkCategory "Food" 0 0 []])
           (mkWorld 50 [mkCategory "Food" 850 50
                          [Entry 900 "deposit"; Entry (-50) "Transfer to Clothing"];
                        mkCategory "Clothing" 50 0 [Entry 50 "Transfer from Food"]])
           0 (mkCategory "Food" 0 0 []));
    [vm_compute; reflexivity|reflexivity].
Defined.

(** X7: categories are independent of one another: an object that no call
    of a sequence is given (as the object of a deposit or a withdrawal, or
    as the source or the target of a transfer) is after the sequence exactly
    as it was before.  Only the class total is shared. *)
Theorem untouched_category_is_unchanged
    (cs : list call) (rs : list bool) (w w' : World) (k : ref) :
  run cs w = Some (rs, w') ->
  Forall (fun c => k ∉ references c) cs ->
  k < length (objects w) ->
  objects w' !! k = objects w !! k.
Proof.
  revert w rs. induction cs as [|c cs IH]; intros w rs Hrun Hk Hlive.
  - injection Hrun as <- <-. reflexivity.
  - rewrite run_cons in Hrun.
    destruct (exec c w) as [[r w1]|] eqn:Hc; [|discriminate].
    destruct (run cs w1) as [[rs1 w2]|] eqn:Hcs; [|discriminate].
    injection Hrun as <- <-.
    apply exec_step in Hc.
    apply Forall_cons in Hk as [Hk1 Hk].
    rewrite (IH _ _ Hcs Hk), (step_frame _ _ _ _ _ Hc Hk1 Hlive); [reflexivity|].
    rewrite (step_created _ _ _ _ Hc). lia.
Qed.

Lemma untouched_category_is_unchanged_witness :
  run [Withdraw 0 44.45 "lunch"; New "Auto"; Transfer 0 100 2] food_clothing_final =
    Some ([true; true; true],
          mkWorld 400
            [mkCategory "Food" 600 300
               [Entry 900 "deposit"; Entry (-105.55) "groceries";
                Entry (-50) "Transfer to Clothing"; Entry (-44.45) "lunch";
                Entry (-100) "Transfer to Auto"];
             clothing_final;
             mkCategory "Auto" 100 0 [Entry 100 "Transfer from Food"]]) /\
  Forall (fun c => 1 ∉ references c)
    [Withdraw 0 44.45 "lunch"; New "Auto"; Transfer 0 100 2] /\
  1 < length (objects food_clothing_final) /\
  [mkCategory "Food" 600 300
     [Entry 900 "deposit"; Entry (-105.55) "groceries";
      Entry (-50) "Transfer to Clothing"; Entry (-44.45) "lunch";
      Entry (-100) "Transfer to Auto"];
   clothing_final;
   mkCategory "Auto" 100 0 [Entry 100 "Transfer from Food"]] !! 1 =
    objects food_clothing_final !! 1.
Proof.
  assert (H : Forall (fun c => 1 ∉ references c)
                [Withdraw 0 44.45 "lunch"; New "Auto"; Transfer 0 100 2]).
  { repeat constructor; simpl; rewrite ?not_elem_of_cons, ?elem_of_nil;
      intuition discriminate. }
  split; [vm_compute; reflexivity|]. split; [exact H|]. split; [simpl; lia|].
  apply (untouched_category_is_unchanged
           [Withdraw 0 44.45 "lunch"; New "Auto"; Transfer 0 100 2]
           [true; true; true] food_clothing_final
           (mkWorld 400
              [mkCategory "Food" 600 300
                 [Entry 900 "deposit"; Entry (-105.55) "groceries";
                  Entry (-50) "Transfer to Clothing"; Entry (-44.45) "lunch";
                  Entry (-100) "Transfer to Auto"];
               clothing_final;
               mkCategory "Auto" 100 0 [Entry 100 "Transfer from Food"]]) 1);
    [vm_compute; reflexivity|exact H|simpl; lia].
Defined.

(** X8: the withdrawn amounts are running sums: after any sequence of
    calls from the start of the program, [Category.total_withdrawn] is the
    float accumulation, in call order from [0.0], of the amounts of all the
    withdrawals and transfers that went through, whatever the object, and
    [amount_withdrawn] of an object is the accumulation of those from that
    object. *)
Theorem withdrawn_amounts_are_running_sums
    (cs : list call) (rs : list bool) (w : World) :
  run cs initial = Some (rs, w) ->
  total_withdrawn w = float_sum 0 (withdrawn_amounts (fun _ => true) cs rs) /\
  forall i x,
    objects w !! i = Some x ->
    amount_withdrawn x = float_sum 0 (withdrawn_amounts (Nat.eqb i) cs rs).
Proof.
  intros Hrun. destruct (run_withdrawn_sums _ _ _ _ Hrun) as [Ht Ho].
  split; [exact Ht|]. intros i x Hx.
  specialize (Ho i). unfold withdrawn_of in Ho. rewrite Hx in Ho. exact Ho.
Qed.

Lemma withdrawn_amounts_are_running_sums_witness :
  run food_clothing initial =
    Some ([true; true; true; true; true; true; true; false], food_clothing_final) /\
  total_withdrawn food_clothing_final = float_sum 0 [105.55; 100; 50]%float /\
  forall i x,
    objects food_clothing_final !! i = Some x ->
    amount_withdrawn x =
    float_sum 0
      (withdrawn_amounts (Nat.eqb i) food_clothing
         [true; true; true; true; true; true; true; false]).
Proof.
  split; [vm_compute; reflexivity|].
  apply (withdrawn_amounts_are_running_sums food_clothing
           [true; true; true; true; true; true; true; false] food_clothing_final).
  vm_compute. reflexivity.
Defined.

(** X9: no overdraft: when no deposit is of a negative amount and every
    withdrawal and transfer is of a finite amount that is not negative, then
    after any sequence of calls from the start of the program no balance is
    negative (nor NaN): [0 <= balance] holds of every object. *)
Theorem balance_is_never_negative
    (cs : list call) (rs : list bool) (w : World) :
  Forall sound_amount cs ->
  run cs initial = Some (rs, w) ->
  forall i x, objects w !! i = Some x -> (0 <=? balance x)%float = true.
Proof.
  intros Hcs Hrun.
  apply (run_balances_nonneg cs initial rs w Hcs); [|assumption].
  intros i x Hx. destruct i; discriminate Hx.
Qed.

Lemma food_clothing_sound : Forall sound_amount food_clothing.
Proof. repeat constructor. Qed.

Lemma balance_is_never_negative_witness :
  Forall sound_amount food_clothing /\
  run food_clothing initial =
    Some ([true; true; true; true; true; true; true; false], food_clothing_final) /\
  forall i x, objects food_clothing_final !! i = Some x ->
              (0 <=? balance x)%float = true.
Proof.
  split; [exact food_clothing_sound|].
  split; [vm_compute; reflexivity|].
  apply (balance_is_never_negative food_clothing
           [true; true; true; true; true; true; true; false] food_clothing_final
           food_clothing_sound).
  vm_compute. reflexivity.
Defined.

(** Without the condition on the amounts a balance does go negative: a
    deposit of a negative amount is a withdrawal that no check guards. *)
Example negative_deposit_overdraws :
  run [New "A"; Deposit 0 (-5) ""] initial =
    Some ([true; true], mkWorld 0 [mkCategory "A" (-5) 0 [Entry (-5) ""]]) /\
  (0 <=? -5)%float = false.
Proof. split; vm_compute; reflexivity. Qed.

(** * The spend chart *)

Example chart_food_clothing :
  (s ← create_spend_chart (total_withdrawn food_clothing_final)
         (objects food_clothing_final);
   mret (chart_lines s)) =
  Ok ["Percentage spent by category";
      "100|       ";
      " 90|       ";
      " 80|       ";
      " 70|       ";
      " 60| o     ";
      " 50| o     ";
      " 40| o     ";
      " 30| o  o  ";
      " 20| o  o  ";
      " 10| o  o  ";
      "  0| o  o  ";
      "    -------";
      "     F  C  ";
      "     o  l  ";
      "     o  o  ";
      "     d  t  ";
      "        h  ";
      "        i  ";
      "        n  ";
      "        g  "].
Proof. vm_compute. reflexivity. Qed.

(** The scenario of the specification: 105.55 withdrawn from "Food" and
    100 from "Clothing" give the total 205.55 and the buckets 50 and 40. *)
Example chart_scenario :
  run [New "Food"; New "Clothing"; Deposit 0 900 ""; Deposit 1 900 "";
       Withdraw 0 105.55 "groceries"; Withdraw 1 100 "shirt"] initial =
    Some ([true; true; true; true; true; true],
          mkWorld 205.55
            [mkCategory "Food" 794.45 105.55
               [Entry 900 ""; Entry (-105.55) "groceries"];
             mkCategory "Clothing" 800 100
               [Entry 900 ""; Entry (-100) "shirt"]]) /\
  percentage_spent 205.55 (mkCategory "Food" 794.45 105.55 []) = Ok 50%Z /\
  percentage_spent 205.55 (mkCategory "Clothing" 800 100 []) = Ok 40%Z.
Proof. vm_compute. repeat split; reflexivity. Qed.

(** ** Loops *)

Lemma result_bind_eq {A B} (m : result A) (f : A -> result B) :
  (m ≫= f) = match m with Ok x => f x | Raise e => Raise e end.
Proof. reflexivity. Qed.

Lemma for_each_app {A S} (body : S -> A -> result S) (l1 l2 : list A) (s : S) :
  for_each body (l1 ++ l2) s = (for_each body l1 s ≫= for_each body l2).
Proof.
  revert s. induction l1 as [|x l1 IH]; intros s; simpl; [reflexivity|].
  rewrite !result_bind_eq. destruct (body s x); [apply IH|reflexivity].
Qed.

(** A loop whose body never raises is a fold. *)
Lemma for_each_pure {A S} (body : S -> A -> result S) (f : S -> A -> S)
    (P : S -> Prop) (l : list A) (s : S) :
  (forall s x, P s -> x ∈ l -> body s x = Ok (f s x) /\ P (f s x)) ->
  P s ->
  for_each body l s = Ok (fold_left f l s) /\ P (fold_left f l s).
Proof.
  revert s. induction l as [|x l IH]; intros s Hbody HP; simpl.
  - split; [reflexivity|assumption].
  - destruct (Hbody s x HP) as [-> HP']; [left|].
    rewrite result_bind_eq. apply IH; [|assumption].
    intros s0 y HP0 Hy. apply Hbody; [assumption|right; assumption].
Qed.

(** [range(3, n * 3 + 3, 3)] is 3, 6, ..., 3 n. *)
Lemma py_range_columns (n : nat) :
  py_range 3 (Z.of_nat n * 3 + 3) 3 = map (fun k => Z.of_nat (bar_column k)) (seq 0 n).
Proof.
  unfold py_range. change (0 <? 3)%Z with true. cbv iota.
  replace (Z.to_nat ((Z.of_nat n * 3 + 3 - 3 + 3 - 1) / 3)) with n.
  - apply map_ext. intros k. unfold bar_column. lia.
  - replace (Z.of_nat n * 3 + 3 - 3 + 3 - 1)%Z with (2 + Z.of_nat n * 3)%Z by lia.
    rewrite Z.div_add by lia. change (2 / 3)%Z with 0%Z. lia.
Qed.

(** ** Cells and shapes *)

Lemma put_length r c v a : length (put r c v a) = length a.
Proof. unfold put. apply length_alter. Qed.

Lemma put_shape rows cols r c v a :
  has_shape rows cols a -> has_shape rows cols (put r c v a).
Proof.
  intros [Hl Hr]. split; [rewrite put_length; assumption|].
  intros r' row. unfold put. rewrite list_lookup_alter.
  destruct (decide (r = r')) as [->|Hne].
  - destruct (a !! r') as [row0|] eqn:E; simpl; [|discriminate].
    intros [= <-]. rewrite length_insert. eauto.
  - apply Hr.
Qed.

Lemma getitem_put_ne r c v a r' c' :
  r <> r' \/ c <> c' -> getitem (put r c v a) r' c' = getitem a r' c'.
Proof.
  intros H. unfold getitem, put. rewrite list_lookup_alter.
  destruct (decide (r = r')) as [->|Hne]; [|reflexivity].
  destruct (a !! r') as [row|]; simpl; [|reflexivity].
  apply list_lookup_insert_ne. destruct H; congruence.
Qed.

Lemma getitem_put_eq r c v a :
  is_Some (getitem a r c) -> getitem (put r c v a) r c = Some (Some v).
Proof.
  unfold getitem, put. rewrite list_lookup_alter_eq.
  destruct (a !! r) as [row|]; simpl; intros [x Hx]; [|discriminate].
  apply list_lookup_insert_eq. eapply lookup_lt_Some. eassumption.
Qed.

Lemma getitem_shape rows cols a r c :
  has_shape rows cols a -> r < rows -> c < cols -> is_Some (getitem a r c).
Proof.
  intros [Hl Hr] Hlt Hc. unfold getitem.
  destruct (lookup_lt_is_Some_2 a r ltac:(lia)) as [row Hrow].
  rewrite Hrow. simpl. apply lookup_lt_is_Some_2.
  rewrite (Hr _ _ Hrow). assumption.
Qed.

Lemma ncols_shape rows cols a :
  has_shape rows cols a -> 0 < rows -> ncols a = cols.
Proof.
  intros [Hl Hr] Hpos. destruct a as [|row a]; simpl in *; [lia|].
  apply (Hr 0). reflexivity.
Qed.

Lemma np_empty_shape rows cols : has_shape rows cols (np_empty rows cols).
Proof.
  unfold np_empty. split; [apply length_replicate|].
  intros r row H. apply lookup_replicate in H as [-> _].
  apply length_replicate.
Qed.

Lemma getitem_np_empty rows cols r c :
  r < rows -> c < cols -> getitem (np_empty rows cols) r c = Some None.
Proof.
  intros Hr Hc. unfold getitem, np_empty.
  rewrite lookup_replicate_2 by assumption. simpl.
  apply lookup_replicate_2. assumption.
Qed.

(** A fold of [put]s keeps the shape, and keeps the cells it does not
    address. *)
Lemma fold_put_shape {X} (f : X -> nat * nat * cell) rows cols (l : list X) a :
  has_shape rows cols a ->
  has_shape rows cols
    (fold_left (fun a' x => put (f x).1.1 (f x).1.2 (f x).2 a') l a).
Proof.
  revert a. induction l as [|x l IH]; intros a H; simpl; [assumption|].
  apply IH. apply put_shape. assumption.
Qed.

Lemma fold_put_other {X} (f : X -> nat * nat * cell) (l : list X) a r c :
  (forall x, x ∈ l -> (f x).1.1 <> r \/ (f x).1.2 <> c) ->
  getitem (fold_left (fun a' x => put (f x).1.1 (f x).1.2 (f x).2 a') l a) r c
  = getitem a r c.
Proof.
  revert a. induction l as [|x l IH]; intros a H; simpl; [reflexivity|].
  rewrite IH by (intros y Hy; apply H; right; assumption).
  apply getitem_put_ne. apply H. left.
Qed.

Lemma setitem_ok rows cols a r c v :
  has_shape rows cols a -> r < rows -> c < cols ->
  setitem a r c v = Ok (put r c v a).
Proof.
  intros Hs Hr Hc. unfold setitem.
  rewrite (ncols_shape _ _ _ Hs) by lia. destruct Hs as [-> _].
  destruct (decide (r < rows /\ c < cols)) as [_|Hn]; [reflexivity|].
  exfalso. apply Hn. split; assumption.
Qed.

Lemma setitem_rows_ok rows cols a start stop c v :
  has_shape rows cols a -> 0 < rows -> c < cols ->
  setitem_rows a start stop c v =
  Ok (fold_left (fun a' r => put r c v a') (slice_indices start stop rows) a).
Proof.
  intros Hs Hr Hc. unfold setitem_rows.
  rewrite (ncols_shape _ _ _ Hs) by lia. destruct Hs as [-> _].
  destruct (decide (c < cols)); [reflexivity|contradiction].
Qed.

Lemma setitem_cols_ok rows cols a r start stop v :
  has_shape rows cols a -> r < rows ->
  setitem_cols a r start stop v =
  Ok (fold_left (fun a' c => put r c v a') (slice_indices start stop cols) a).
Proof.
  intros Hs Hr. unfold setitem_cols.
  rewrite (ncols_shape _ _ _ Hs) by lia. destruct Hs as [-> _].
  destruct (decide (r < rows)); [reflexivity|contradiction].
Qed.

Lemma axis_pairs :
  zip (py_range 0 12 1) (py_range 100 (-10) (-10)) =
  [(0, 100); (1, 90); (2, 80); (3, 70); (4, 60); (5, 50); (6, 40); (7, 30);
   (8, 20); (9, 10); (10, 0)]%Z.
Proof. reflexivity. Qed.

(** The part of [build_array] before the loop over the categories never
    raises on a non-empty list: it is [axis_array]. *)
Lemma build_array_eq total (categories : list Category) :
  categories <> [] ->
  build_array total categories =
  for_each (plot_category total categories (longest_name_of categories))
    (py_range 3 (Z.of_nat (length categories) * 3 + 3) 3)
    (axis_array (longest_name_of categories) (length categories)).
Proof.
  intros Hne. unfold build_array, longest_name_of, axis_array.
  destruct categories as [|c0 cs]; [contradiction|].
  set (n := length (c0 :: cs)). simpl map. simpl py_max_len.
  rewrite result_bind_eq. cbv zeta.
  set (L := String.length (max_by_len (name c0) (map name cs))).
  set (a0 := np_empty (L + 12) (n + n * 2 + 3)).
  assert (H0 : has_shape (L + 12) (n + n * 2 + 3) a0) by apply np_empty_shape.
  destruct (for_each_pure
              (fun array '(row, num) => setitem array (Z.to_nat row) 0 (CNum num))
              (fun a' (x : Z * Z) => put (Z.to_nat x.1) 0 (CNum x.2) a')
              (has_shape (L + 12) (n + n * 2 + 3))
              (zip (py_range 0 12 1) (py_range 100 (-10) (-10))) a0)
    as [E1 H1]; [|assumption|].
  { intros s [row num] Hs Hx. split; [|apply put_shape; assumption].
    apply (setitem_ok _ _ _ _ _ _ Hs); [|lia].
    rewrite axis_pairs in Hx.
    repeat (apply elem_of_cons in Hx as [[= -> ->]|Hx]; [simpl; lia|]).
    apply elem_of_nil in Hx. contradiction. }
  rewrite E1, result_bind_eq.
  rewrite (setitem_rows_ok _ _ _ _ _ _ _ H1) by lia.
  rewrite result_bind_eq.
  rewrite (setitem_cols_ok (L + 12) (n + n * 2 + 3)); [reflexivity| |lia].
  apply (fold_put_shape (fun r => (r, 1, CStr "|"))). assumption.
Qed.

Lemma axis_array_shape L n : has_shape (L + 12) (n + n * 2 + 3) (axis_array L n).
Proof.
  unfold axis_array.
  apply (fold_put_shape (fun c => (11, c, CStr "-"))).
  apply (fold_put_shape (fun r => (r, 1, CStr "|"))).
  apply (fold_put_shape (fun x : Z * Z => (Z.to_nat x.1, 0, CNum x.2))).
  apply np_empty_shape.
Qed.

Lemma fold_put_is_Some {X} (f : X -> nat * nat * cell) (l : list X) a r c :
  is_Some (getitem a r c) ->
  is_Some (getitem (fold_left (fun a' x => put (f x).1.1 (f x).1.2 (f x).2 a') l a) r c).
Proof.
  revert a. induction l as [|x l IH]; intros a H; simpl; [assumption|].
  apply IH.
  destruct (decide ((f x).1.1 = r /\ (f x).1.2 = c)) as [[<- <-]|Hn].
  - rewrite getitem_put_eq by assumption. eauto.
  - rewrite getitem_put_ne; [assumption|].
    destruct (decide ((f x).1.1 = r)); [right|left]; tauto.
Qed.

(** A cell addressed by the fold holds what the fold writes there, when
    every write to it writes the same value. *)
Lemma fold_put_written {X} (f : X -> nat * nat * cell) (l : list X) a r c v :
  (exists x, x ∈ l /\ (f x).1.1 = r /\ (f x).1.2 = c) ->
  (forall x, x ∈ l -> (f x).1.1 = r -> (f x).1.2 = c -> (f x).2 = v) ->
  is_Some (getitem a r c) ->
  getitem (fold_left (fun a' x => put (f x).1.1 (f x).1.2 (f x).2 a') l a) r c
  = Some (Some v).
Proof.
  induction l as [|y l IH] using rev_ind; intros (x & Hx & Hr & Hc) Hv Ha.
  - apply elem_of_nil in Hx. contradiction.
  - rewrite fold_left_app. simpl.
    destruct (decide ((f y).1.1 = r /\ (f y).1.2 = c)) as [[Er Ec]|Hn].
    + rewrite <- (Hv y) by (try apply elem_of_app; auto; right; left).
      rewrite <- Er, <- Ec. apply getitem_put_eq.
      rewrite Er, Ec. apply fold_put_is_Some. assumption.
    + rewrite getitem_put_ne
        by (destruct (decide ((f y).1.1 = r)); [right|left]; tauto).
      apply IH; [|intros; apply Hv; auto; apply elem_of_app; left; assumption
                |assumption].
      exists x. split; [|split; assumption].
      apply elem_of_app in Hx as [Hx|Hx]; [assumption|].
      apply list_elem_of_singleton in Hx as ->. tauto.
Qed.

(** The cells of the axis rows before the categories are plotted: the
    axis number, the pipe, and empty cells. *)
Lemma axis_array_cell L n r c :
  r <= 10 -> c < n + n * 2 + 3 ->
  getitem (axis_array L n) r c = Some (bar_area_cell (L + 12) [] r c).
Proof.
  intros Hr Hc. unfold axis_array, bar_area_cell. rewrite axis_pairs.
  rewrite (fold_put_other (fun c => (11, c, CStr "-"))) by (intros; simpl; lia).
  destruct (decide (c = 0)) as [->|Hc0].
  - rewrite (fold_put_other (fun r => (r, 1, CStr "|"))) by (intros; simpl; lia).
    apply (fold_put_written (fun x : Z * Z => (Z.to_nat x.1, 0, CNum x.2))).
    + exists (Z.of_nat r, 100 - Z.of_nat r * 10)%Z.
      split; [|simpl; lia].
      do 11 (destruct r as [|r];
             [repeat first [apply list_elem_of_here | apply list_elem_of_further]|]).
      lia.
    + intros [row num]. simpl. intros Hx Hrow _.
      repeat (apply elem_of_cons in Hx as [[= -> ->]|Hx];
              [f_equal; simpl in Hrow; lia|]).
      apply elem_of_nil in Hx. contradiction.
    + rewrite getitem_np_empty by lia. eauto.
  - destruct (decide (c = 1)) as [->|Hc1].
    + apply (fold_put_written (fun r => (r, 1, CStr "|"))).
      * exists r. simpl. split; [|lia].
        unfold slice_indices, slice_bound. simpl. apply elem_of_seq. lia.
      * intros; reflexivity.
      * apply (fold_put_is_Some (fun x : Z * Z => (Z.to_nat x.1, 0, CNum x.2))).
        rewrite getitem_np_empty by lia. eauto.
    + rewrite (fold_put_other (fun r => (r, 1, CStr "|"))) by (intros; simpl; lia).
      rewrite (fold_put_other (fun x : Z * Z => (Z.to_nat x.1, 0, CNum x.2)))
        by (intros; simpl; lia).
      rewrite getitem_np_empty by lia.
      destruct (decide (c mod 3 = 0)); reflexivity.
Qed.

(** ** Plotting one category *)

Lemma column_index k : Z.to_nat (Z.of_nat (bar_column k) / 3 - 1) = k.
Proof.
  unfold bar_column.
  replace (Z.of_nat (3 * k + 3)) with ((Z.of_nat k + 1) * 3)%Z by lia.
  rewrite Z.div_mul by lia. lia.
Qed.

Lemma fold_put_column (l : list nat) c v (a : ndarray) r :
  is_Some (getitem a r c) ->
  getitem (fold_left (fun a' r' => put r' c v a') l a) r c =
  if decide (r ∈ l) then Some (Some v) else getitem a r c.
Proof.
  revert a. induction l as [|x l IH]; intros a Hin; simpl.
  - destruct (decide (r ∈ [])) as [H|_]; [|reflexivity].
    apply elem_of_nil in H. contradiction.
  - destruct (decide (x = r)) as [->|Hne].
    + rewrite IH by (rewrite getitem_put_eq by assumption; eauto).
      rewrite getitem_put_eq by assumption.
      rewrite (decide_True (P := r ∈ r :: l)) by left.
      destruct (decide (r ∈ l)); reflexivity.
    + rewrite IH by (rewrite getitem_put_ne by (left; assumption); assumption).
      rewrite getitem_put_ne by (left; assumption).
      destruct (decide (r ∈ l)) as [Hl|Hl].
      * rewrite decide_True by (right; assumption). reflexivity.
      * rewrite decide_False; [reflexivity|].
        rewrite elem_of_cons. intros [->|H]; [apply Hne|apply Hl]; auto.
Qed.

Lemma elem_of_zip_chars s first count ch idx :
  (ch, idx) ∈ zip_chars s first count -> first <= idx < first + count.
Proof.
  unfold zip_chars. intros H. apply elem_of_zip_r in H.
  apply elem_of_seq in H. lia.
Qed.

(** The rows a bucket's slice selects are the rows the marker rule names. *)
Lemma slice_marker (f : Z) (r rows : nat) :
  (f / 10 * 10 <= 100)%Z -> r <= 10 -> 12 <= rows ->
  r ∈ slice_indices (Some (10 - f / 10 * 10 / 10)%Z) (Some 11%Z) rows <->
  (100 - Z.of_nat r * 10 <= f / 10 * 10)%Z.
Proof.
  intros Hp Hr Hrows. rewrite Z.div_mul by lia.
  unfold slice_indices, slice_bound. cbv zeta.
  change (11 <? 0)%Z with false. cbv iota.
  rewrite elem_of_seq.
  destruct (Z.ltb_spec (10 - f / 10) 0); lia.
Qed.

Lemma percentage_spent_multiple total obj p :
  percentage_spent total obj = Ok p -> exists f, p = (f / 10 * 10)%Z.
Proof.
  unfold percentage_spent. rewrite !result_bind_eq.
  destruct (float_truediv (amount_withdrawn obj) total) as [q|]; [|discriminate].
  destruct (math_floor (q * 100)) as [f|]; [|discriminate].
  intros [= <-]. exists f. reflexivity.
Qed.

Lemma plot_category_raise total categories L (a : ndarray) k obj e :
  categories !! k = Some obj ->
  percentage_spent total obj = Raise e ->
  plot_category total categories L a (Z.of_nat (bar_column k)) = Raise e.
Proof.
  intros Hk Hp. unfold plot_category. rewrite column_index, Hk, Hp.
  reflexivity.
Qed.

Lemma plot_category_ok total categories L cols (a : ndarray) k obj p :
  has_shape (L + 12) cols a ->
  bar_column k < cols ->
  categories !! k = Some obj ->
  percentage_spent total obj = Ok p ->
  exists a',
    plot_category total categories L a (Z.of_nat (bar_column k)) = Ok a' /\
    has_shape (L + 12) cols a' /\
    (forall r c, c <> bar_column k -> getitem a' r c = getitem a r c) /\
    (forall r, r <= 10 ->
       getitem a' r (bar_column k) =
       if decide (r ∈ slice_indices (Some (10 - p / 10)%Z) (Some 11%Z) (L + 12))
       then Some (Some (CStr "o"))
       else getitem a r (bar_column k)).
Proof.
  intros Hs Hc Hk Hp. unfold plot_category.
  rewrite column_index, Hk, Hp, result_bind_eq, Nat2Z.id.
  rewrite (setitem_rows_ok _ _ _ _ _ _ _ Hs) by lia.
  rewrite result_bind_eq.
  set (a1 := fold_left _ (slice_indices _ _ _) a).
  assert (H1 : has_shape (L + 12) cols a1).
  { apply (fold_put_shape (fun r => (r, bar_column k, CStr "o"))). assumption. }
  destruct (for_each_pure
              (fun array '(char, index) =>
                 setitem array index (bar_column k) (CStr (String char EmptyString)))
              (fun a' (x : ascii * nat) =>
                 put x.2 (bar_column k) (CStr (String x.1 EmptyString)) a')
              (has_shape (L + 12) cols)
              (zip_chars (capitalize (name obj)) 12 L) a1)
    as [E2 H2]; [|assumption|].
  { intros s [ch idx] Hs' Hx. split; [|apply put_shape; assumption].
    apply elem_of_zip_chars in Hx.
    apply (setitem_ok _ _ _ _ _ _ Hs'); lia. }
  eexists. split; [exact E2|]. split; [exact H2|]. split.
  - intros r c Hne.
    rewrite (fold_put_other
               (fun x : ascii * nat => (x.2, bar_column k, CStr (String x.1 EmptyString))))
      by (intros; simpl; right; congruence).
    unfold a1.
    rewrite (fold_put_other (fun r => (r, bar_column k, CStr "o")))
      by (intros; simpl; right; congruence).
    reflexivity.
  - intros r Hr.
    rewrite (fold_put_other
               (fun x : ascii * nat => (x.2, bar_column k, CStr (String x.1 EmptyString)))).
    + unfold a1. apply fold_put_column.
      apply (getitem_shape _ _ _ _ _ Hs); lia.
    + intros [ch idx] Hx. apply elem_of_zip_chars in Hx. simpl. left. lia.
Qed.

(** ** The loop over the categories *)

Lemma bar_column_mod k : bar_column k mod 3 = 0 /\ bar_column k / 3 - 1 = k.
Proof.
  unfold bar_column. replace (3 * k + 3) with ((k + 1) * 3) by lia.
  rewrite Nat.Div0.mod_mul, Nat.div_mul by lia. lia.
Qed.

Lemma not_bar_column c j :
  c mod 3 = 0 -> c <> 0 -> c <> bar_column j -> c / 3 - 1 <> j.
Proof.
  intros Hm H0 Hne Hk. apply Hne. unfold bar_column.
  pose proof (Nat.div_mod_eq c 3). lia.
Qed.

(** After the first [j] categories are plotted, every one of them has a
    bucket, and the axis rows hold the axis numbers, the pipes, and the bar
    cells of these categories. *)
Lemma plot_loop total categories (j : nat) (arr : ndarray) :
  let L := longest_name_of categories in
  let n := length categories in
  j <= n ->
  for_each (plot_category total categories L)
    (map (fun k => Z.of_nat (bar_column k)) (seq 0 j)) (axis_array L n) = Ok arr ->
  has_shape (L + 12) (n + n * 2 + 3) arr /\
  exists buckets,
    Forall2 (fun obj b => percentage_spent total obj = Ok b)
            (take j categories) buckets /\
    forall r c, r <= 10 -> c < n + n * 2 + 3 ->
                getitem arr r c = Some (bar_area_cell (L + 12) buckets r c).
Proof.
  intros L n. revert arr. induction j as [|j IH]; intros arr Hj Hrun.
  - simpl in Hrun. injection Hrun as <-. split; [apply axis_array_shape|].
    exists []. split; [rewrite take_0; constructor|].
    intros r c Hr Hc. apply axis_array_cell; assumption.
  - rewrite seq_S, map_app, for_each_app, result_bind_eq in Hrun.
    destruct (for_each _ (map _ (seq 0 j)) _) as [arr_j|] eqn:Ej;
      [|discriminate].
    destruct (IH arr_j ltac:(lia) eq_refl) as (Hs & buckets & Hb & Hcells).
    simpl in Hrun. rewrite result_bind_eq in Hrun.
    destruct (lookup_lt_is_Some_2 categories j ltac:(fold n; lia)) as [obj_j Hobj].
    destruct (percentage_spent total obj_j) as [pj|e] eqn:Hpj.
    + destruct (plot_category_ok total categories L _ arr_j j obj_j pj Hs
                  ltac:(unfold bar_column; lia) Hobj Hpj)
        as (a' & Ea' & Hs' & Hother & Hown).
      rewrite Ea' in Hrun. injection Hrun as <-.
      split; [assumption|].
      assert (Hlen : length buckets = j).
      { apply Forall2_length in Hb. rewrite length_take in Hb. fold n in Hb. lia. }
      exists (buckets ++ [pj]). split.
      { rewrite (take_S_r _ _ _ Hobj). apply Forall2_app; [assumption|].
        constructor; [assumption|constructor]. }
      intros r c Hr Hc.
      destruct (decide (c = bar_column j)) as [->|Hne].
      * rewrite (Hown r Hr), (Hcells r _ Hr Hc).
        unfold bar_area_cell, bar_cell.
        destruct (bar_column_mod j) as [Hm Hk].
        destruct (decide (bar_column j = 0)); [unfold bar_column in *; lia|].
        destruct (decide (bar_column j = 1)); [unfold bar_column in *; lia|].
        destruct (decide (bar_column j mod 3 = 0)); [|contradiction].
        rewrite Hk, lookup_ge_None_2 by lia.
        rewrite list_lookup_middle by (symmetry; assumption).
        destruct (decide (r ∈ _)); reflexivity.
      * rewrite (Hother r c Hne), (Hcells r c Hr Hc).
        unfold bar_area_cell.
        destruct (decide (c = 0)); [reflexivity|].
        destruct (decide (c = 1)); [reflexivity|].
        destruct (decide (c mod 3 = 0)) as [Hm|]; [|reflexivity].
        pose proof (not_bar_column c j Hm ltac:(assumption) Hne) as Hk.
        destruct (decide (c / 3 - 1 < j)).
        -- rewrite lookup_app_l by lia. reflexivity.
        -- rewrite (lookup_ge_None_2 buckets) by lia.
           rewrite lookup_ge_None_2
             by (rewrite length_app; change (length [pj]) with 1; lia).
           reflexivity.
    + rewrite (plot_category_raise _ _ _ _ _ _ _ Hobj Hpj) in Hrun.
      discriminate.
Qed.

(** ** [build_string] row by row *)

Lemma app_assoc_str (s1 s2 s3 : string) : (s1 +:+ s2) +:+ s3 = s1 +:+ (s2 +:+ s3).
Proof.
  induction s1 as [|c s1 IH]; [reflexivity|].
  change (String c ((s1 +:+ s2) +:+ s3) = String c (s1 +:+ (s2 +:+ s3))).
  rewrite IH. reflexivity.
Qed.

Lemma app_nil_r_str (s : string) : s +:+ EmptyString = s.
Proof.
  induction s as [|c s IH]; [reflexivity|].
  change (String c (s +:+ EmptyString) = String c s). rewrite IH. reflexivity.
Qed.

Lemma app_nil_l_str (s : string) : EmptyString +:+ s = s.
Proof. reflexivity. Qed.

(** The cells after the first one of a row add their text, nothing else. *)
Lemma add_cells_from (index i : nat) (cells : list (option cell)) (text : string) :
  0 < i ->
  fold_left
    (fun text '(subdex, cell) =>
       let text :=
         if decide (subdex = 0) then
           let text := if decide (0 < index) then text +:+ " " else text in
           if decide (10 <= index) then text +:+ " " else text
         else text in
       match cell with
       | Some c => text +:+ str_cell c
       | None => text +:+ " "
       end)
    (zip (seq i (length cells)) cells) text
  = text +:+ concat_text (map cell_text cells).
Proof.
  revert i text. induction cells as [|c cells IH]; intros i text Hi; simpl.
  - symmetry. apply app_nil_r_str.
  - rewrite IH by lia.
    destruct (decide (i = 0)); [lia|].
    destruct c as [c|]; simpl; rewrite app_assoc_str; reflexivity.
Qed.

Lemma add_row_text (index : nat) (text : string) (row : list (option cell)) :
  add_row index text row = text +:+ row_text index row.
Proof.
  unfold add_row, enumerate. destruct row as [|c cells]; simpl.
  - symmetry. apply app_nil_r_str.
  - rewrite add_cells_from by lia. unfold row_padding.
    destruct (decide (0 < index)), (decide (10 <= index)), c as [c|]; simpl;
      rewrite ?app_assoc_str, ?app_nil_l_str; reflexivity.
Qed.

Lemma add_rows_from (len i : nat) (rows : list (list (option cell))) (text : string) :
  fold_left
    (fun text '(index, row) =>
       let text := add_row index text row in
       if decide (index + 1 < len) then text +:+ newline else text)
    (zip (seq i (length rows)) rows) text
  = text +:+ rows_text len i rows.
Proof.
  revert i text. induction rows as [|row rows IH]; intros i text; simpl.
  - symmetry. apply app_nil_r_str.
  - rewrite IH, add_row_text.
    destruct (decide (i + 1 < len));
      rewrite ?app_assoc_str, ?app_nil_l_str; reflexivity.
Qed.

(** [build_string] is the title followed by the rows. *)
Lemma build_string_eq (chart : ndarray) :
  build_string chart = title +:+ rows_text (length chart) 0 chart.
Proof. unfold build_string, enumerate. apply add_rows_from. Qed.

(** ** The axis rows of the chart, as text *)

Lemma concat_text_app (l1 l2 : list string) :
  concat_text (l1 ++ l2) = concat_text l1 +:+ concat_text l2.
Proof.
  induction l1 as [|s l1 IH]; simpl; [reflexivity|].
  rewrite IH, app_assoc_str. reflexivity.
Qed.

(** A row whose cells are known is the list of these cells. *)
Lemma row_of_cells rows cols (a : ndarray) r (g : nat -> option cell) :
  has_shape rows cols a -> r < rows ->
  (forall c, c < cols -> getitem a r c = Some (g c)) ->
  a !! r = Some (map g (seq 0 cols)).
Proof.
  intros [Hl Hrow] Hr Hg.
  destruct (lookup_lt_is_Some_2 a r ltac:(lia)) as [row Er].
  rewrite Er. f_equal. apply list_eq. intros c.
  pose proof (Hrow _ _ Er) as Hlen.
  destruct (decide (c < cols)) as [Hc|Hc].
  - specialize (Hg c Hc). unfold getitem in Hg. rewrite Er in Hg. simpl in Hg.
    rewrite Hg. change (map g (seq 0 cols)) with (g <$> seq 0 cols).
    rewrite list_lookup_fmap, lookup_seq_lt by assumption. reflexivity.
  - rewrite !lookup_ge_None_2; [reflexivity| |lia].
    rewrite length_map, length_seq. lia.
Qed.

(** The text of the first [m] rows, when these rows are known. *)
Lemma rows_text_known (len m i : nat) (rows : list (list (option cell)))
    (h : nat -> list (option cell)) :
  (forall r, r < m -> rows !! r = Some (h (i + r))) ->
  i + m < len ->
  rows_text len i rows =
  concat_text (map (fun r => row_text r (h r) +:+ newline) (seq i m)) +:+
  rows_text len (i + m) (drop m rows).
Proof.
  revert i rows. induction m as [|m IH]; intros i rows Hrows Hlen.
  - simpl. rewrite Nat.add_0_r, drop_0. reflexivity.
  - destruct rows as [|row rows].
    { specialize (Hrows 0 ltac:(lia)). discriminate. }
    pose proof (Hrows 0 ltac:(lia)) as H0. simpl in H0.
    rewrite Nat.add_0_r in H0. injection H0 as ->.
    simpl. destruct (decide (i + 1 < len)); [|lia].
    rewrite (IH (S i) rows).
    + replace (S i + m) with (i + S m) by lia.
      rewrite !app_assoc_str. reflexivity.
    + intros r Hr. specialize (Hrows (S r) ltac:(lia)). simpl in Hrows.
      rewrite Hrows. f_equal. f_equal. lia.
    + lia.
Qed.

Lemma div_mod_3 (k d : nat) : d < 3 -> (3 * k + d) mod 3 = d /\ (3 * k + d) / 3 = k.
Proof.
  intros Hd. split.
  - symmetry. apply (Nat.mod_unique _ 3 k); lia.
  - symmetry. apply (Nat.div_unique _ 3 k d); lia.
Qed.

(** The cells after the axis number, as text: the pipe, a space, and for
    each category its bar cell and two spaces. *)
Lemma bar_cells_text (rows r : nat) (buckets : list Z) :
  concat_text (map cell_text
                 (map (bar_area_cell rows buckets r)
                      (seq 1 (3 * length buckets + 2)))) =
  "|" +:+ " " +:+
  concat_text (map (fun b => cell_text (bar_cell rows b r) +:+ "  ") buckets).
Proof.
  induction buckets as [|b buckets IH] using rev_ind; [reflexivity|].
  rewrite length_app. change (length [b]) with 1.
  replace (3 * (length buckets + 1) + 2) with ((3 * length buckets + 2) + 3) by lia.
  rewrite seq_app, !map_app, !concat_text_app.
  replace (map (bar_area_cell rows (buckets ++ [b]) r) (seq 1 (3 * length buckets + 2)))
    with (map (bar_area_cell rows buckets r) (seq 1 (3 * length buckets + 2))).
  - rewrite IH, !app_assoc_str. f_equal. f_equal. f_equal.
    replace (1 + (3 * length buckets + 2)) with (3 * (length buckets + 1) + 0) by lia.
    change (seq (3 * (length buckets + 1) + 0) 3)
      with [3 * (length buckets + 1) + 0; S (3 * (length buckets + 1) + 0);
            S (S (3 * (length buckets + 1) + 0))].
    replace (S (3 * (length buckets + 1) + 0)) with (3 * (length buckets + 1) + 1) by lia.
    replace (S (3 * (length buckets + 1) + 1)) with (3 * (length buckets + 1) + 2) by lia.
    unfold bar_area_cell. cbn [map].
    destruct (div_mod_3 (length buckets + 1) 0 ltac:(lia)) as [-> ->].
    destruct (div_mod_3 (length buckets + 1) 1 ltac:(lia)) as [-> _].
    destruct (div_mod_3 (length buckets + 1) 2 ltac:(lia)) as [-> _].
    repeat (destruct (decide _); try lia).
    replace (length buckets + 1 - 1) with (length buckets) by lia.
    rewrite list_lookup_middle by reflexivity.
    cbn [concat_text cell_text]. rewrite !app_assoc_str. reflexivity.
  - apply map_ext_in. intros c Hc. apply in_seq in Hc.
    unfold bar_area_cell.
    destruct (decide (c = 0)); [reflexivity|].
    destruct (decide (c = 1)); [reflexivity|].
    destruct (decide (c mod 3 = 0)) as [Hm|]; [|reflexivity].
    rewrite lookup_app_l; [reflexivity|].
    pose proof (Nat.div_mod_eq c 3). lia.
Qed.

(** The text of an axis row. *)
Lemma bar_row_text (rows r : nat) (buckets : list Z) :
  let n := length buckets in
  row_text r (map (bar_area_cell rows buckets r) (seq 0 (n + n * 2 + 3))) =
  bar_line rows buckets r.
Proof.
  intros n. replace (n + n * 2 + 3) with (S (3 * n + 2)) by lia.
  subst n.
  change (seq 0 (S (3 * length buckets + 2)))
    with (0 :: seq 1 (3 * length buckets + 2)).
  rewrite map_cons. unfold row_text. rewrite (bar_cells_text rows r buckets).
  unfold bar_line, axis_label, bar_area_cell.
  destruct (decide (0 = 0)); [|lia].
  cbn [cell_text str_cell]. rewrite !app_assoc_str. reflexivity.
Qed.

(** The array that [build_array] returns: every category has a bucket, and
    the axis rows hold the bar cells of these buckets. *)
Lemma build_array_bars total categories (arr : ndarray) :
  let L := longest_name_of categories in
  let n := length categories in
  build_array total categories = Ok arr ->
  has_shape (L + 12) (n + n * 2 + 3) arr /\
  exists buckets,
    Forall2 (fun obj b => percentage_spent total obj = Ok b) categories buckets /\
    forall r, r <= 10 ->
      arr !! r = Some (map (bar_area_cell (L + 12) buckets r) (seq 0 (n + n * 2 + 3))).
Proof.
  intros L n Hb.
  assert (Hne : categories <> []).
  { intros ->. discriminate Hb. }
  rewrite build_array_eq, py_range_columns in Hb by assumption.
  destruct (plot_loop total categories n arr ltac:(lia) Hb)
    as (Hs & buckets & HF & Hcells).
  split; [assumption|]. exists buckets. split.
  - rewrite take_ge in HF by (fold n; lia). assumption.
  - intros r Hr. apply (row_of_cells _ _ _ _ _ Hs); [lia|].
    intros c Hc. apply Hcells; assumption.
Qed.

(** Where the rule [100 - r * 10 <= bucket] applies: a bucket up to 100. *)
Lemma bar_cell_marker (rows : nat) (total : float) (obj : Category) (b : Z) (r : nat) :
  percentage_spent total obj = Ok b ->
  (b <= 100)%Z -> r <= 10 -> 12 <= rows ->
  bar_cell rows b r = marker b r.
Proof.
  intros Hb Hle Hr Hrows.
  destruct (percentage_spent_multiple _ _ _ Hb) as [f ->].
  unfold bar_cell, marker.
  pose proof (slice_marker f r rows Hle Hr Hrows) as Hiff.
  destruct (decide (r ∈ _)), (decide (100 - Z.of_nat r * 10 <= f / 10 * 10)%Z);
    try reflexivity; tauto.
Qed.

Lemma percentage_spent_inv total obj b :
  percentage_spent total obj = Ok b ->
  exists q f,
    float_truediv (amount_withdrawn obj) total = Ok q /\
    math_floor (q * 100) = Ok f /\
    b = (f / 10 * 10)%Z.
Proof.
  unfold percentage_spent. rewrite !result_bind_eq.
  destruct (float_truediv (amount_withdrawn obj) total) as [q|]; [|discriminate].
  destruct (math_floor (q * 100)) as [f|] eqn:Hf; [|discriminate].
  intros [= <-]. exists q, f. auto.
Qed.

(** [create_spend_chart] returns a chart for a non-empty list of categories
    that all have a bucket. *)
Lemma chart_returns total categories :
  categories <> [] ->
  Forall (fun obj => exists p, percentage_spent total obj = Ok p) categories ->
  exists chart, create_spend_chart total categories = Ok chart.
Proof.
  intros Hne Hall. unfold create_spend_chart.
  rewrite build_array_eq, py_range_columns by assumption.
  set (L := longest_name_of categories). set (n := length categories).
  assert (Hloop : forall j, j <= n ->
            exists arr,
              for_each (plot_category total categories L)
                (map (fun k => Z.of_nat (bar_column k)) (seq 0 j))
                (axis_array L n) = Ok arr /\
              has_shape (L + 12) (n + n * 2 + 3) arr).
  { induction j as [|j IH]; intros Hj.
    - exists (axis_array L n). split; [reflexivity|apply axis_array_shape].
    - destruct (IH ltac:(lia)) as (arr_j & Ej & Hs).
      destruct (lookup_lt_is_Some_2 categories j ltac:(fold n; lia)) as [obj Hobj].
      rewrite Forall_forall in Hall.
      destruct (Hall obj) as [p Hp].
      { apply list_elem_of_lookup. eauto. }
      destruct (plot_category_ok total categories L _ arr_j j obj p Hs
                  ltac:(unfold bar_column; lia) Hobj Hp)
        as (a' & Ea' & Hs' & _).
      exists a'. split; [|assumption].
      rewrite seq_S, map_app, for_each_app, Ej, result_bind_eq.
      simpl. rewrite Ea'. reflexivity. }
  destruct (Hloop n ltac:(lia)) as (arr & -> & _).
  eexists. reflexivity.
Qed.

(** * Properties of [create_spend_chart] *)

(** ** Failures *)

(** C10: on an empty list of categories [create_spend_chart] raises,
    whatever the total withdrawn is: the longest name is the maximum of an
    empty sequence. *)
Theorem chart_of_no_category_fails (total : float) :
  create_spend_chart total [] = Raise ValueError.
Proof. unfold create_spend_chart, build_array. simpl map. reflexivity. Qed.

(** C8: on a non-empty list of categories, when the total withdrawn is
    zero, [create_spend_chart] raises the division-by-zero error and returns
    no chart. *)
Theorem chart_without_withdrawal_divides_by_zero
    (total : float) (categories : list Category) :
  categories <> [] ->
  (total =? 0)%float = true ->
  create_spend_chart total categories = Raise ZeroDivisionError.
Proof.
  intros Hne Hzero. unfold create_spend_chart.
  rewrite build_array_eq by assumption. rewrite py_range_columns.
  destruct categories as [|obj cs]; [contradiction|].
  simpl length. simpl seq. simpl map. simpl for_each.
  rewrite (plot_category_raise total (obj :: cs) _ _ 0 obj ZeroDivisionError);
    [reflexivity|reflexivity|].
  unfold percentage_spent, float_truediv. rewrite Hzero. reflexivity.
Qed.

Lemma chart_without_withdrawal_divides_by_zero_witness :
  [mkCategory "Food" 900 0 [Entry 900 "deposit"]] <> [] /\
  (0 =? 0)%float = true /\
  create_spend_chart 0 [mkCategory "Food" 900 0 [Entry 900 "deposit"]]
  = Raise ZeroDivisionError.
Proof.
  split; [discriminate|]. split; [reflexivity|].
  apply (chart_without_withdrawal_divides_by_zero 0
           [mkCategory "Food" 900 0 [Entry 900 "deposit"]]);
    [discriminate|reflexivity].
Defined.

(** ** The title *)

(** C9: a chart that [create_spend_chart] returns begins with the line
    "Percentage spent by category" and a line break. *)
Theorem chart_begins_with_title
    (total : float) (categories : list Category) (chart : string) :
  create_spend_chart total categories = Ok chart ->
  exists rest, chart = "Percentage spent by category" +:+ newline +:+ rest.
Proof.
  unfold create_spend_chart. rewrite result_bind_eq.
  destruct (build_array total categories) as [arr|]; [|discriminate].
  intros [= <-]. rewrite build_string_eq. unfold title.
  eexists. rewrite app_assoc_str. reflexivity.
Qed.

Lemma chart_begins_with_title_witness :
  create_spend_chart 100 [food15] = Ok food15_chart /\
  exists rest, food15_chart = "Percentage spent by category" +:+ newline +:+ rest.
Proof.
  split; [vm_compute; reflexivity|].
  apply (chart_begins_with_title 100 [food15] food15_chart).
  vm_compute. reflexivity.
Defined.

(** ** The bars *)

(** C4 as amended: when [create_spend_chart] returns a chart, every
    category has a bucket, [(floor((amount_withdrawn / total_withdrawn) *
    100) // 10) * 10]; after the title the chart has the eleven axis rows,
    row [r] being the axis label, the pipe, a space and, for each category
    in order, its bar cell followed by two spaces; and the bar cell of a
    category whose bucket is at most 100 shows the marker "o" at row [r]
    (row 0 the "100" row, row 10 the "0" row) exactly when
    [100 - r * 10 <= bucket], and is blank otherwise. *)
Theorem chart_bars_follow_buckets
    (total : float) (categories : list Category) (chart : string) :
  let rows := longest_name_of categories + 12 in
  create_spend_chart total categories = Ok chart ->
  exists buckets rest,
    Forall2
      (fun obj b =>
         exists q f,
           float_truediv (amount_withdrawn obj) total = Ok q /\
           math_floor (q * 100) = Ok f /\
           b = (f / 10 * 10)%Z)
      categories buckets /\
    chart =
      title +:+
      concat_text (map (fun r => bar_line rows buckets r +:+ newline) (seq 0 11)) +:+
      rest /\
    forall b r, b ∈ buckets -> (b <= 100)%Z -> r <= 10 ->
      bar_cell rows b r = marker b r /\
      cell_text (marker b r) =
        if decide (100 - Z.of_nat r * 10 <= b)%Z then "o" else " ".
Proof.
  intros rows Hchart. unfold create_spend_chart in Hchart.
  rewrite result_bind_eq in Hchart.
  destruct (build_array total categories) as [arr|] eqn:Harr; [|discriminate].
  injection Hchart as <-.
  destruct (build_array_bars _ _ _ Harr) as (Hs & buckets & HF & Hrows).
  fold rows in Hs, Hrows.
  pose proof (Forall2_length _ _ _ HF) as Hlen.
  exists buckets, (rows_text (length arr) 11 (drop 11 arr)).
  split; [|split].
  - eapply Forall2_impl; [exact HF|]. intros obj b. apply percentage_spent_inv.
  - rewrite build_string_eq.
    rewrite (rows_text_known (length arr) 11 0 arr
               (fun r => map (bar_area_cell rows buckets r)
                           (seq 0 (length categories + length categories * 2 + 3)))).
    + f_equal. f_equal. f_equal.
      apply map_ext_in. intros r Hr. f_equal.
      rewrite Hlen. apply bar_row_text.
    + intros r Hr. apply Hrows. lia.
    + destruct Hs as [-> _]. unfold rows. lia.
  - intros b r Hb Hle Hr.
    apply list_elem_of_lookup in Hb as [i Hi].
    destruct (Forall2_lookup_r _ _ _ _ _ HF Hi) as (obj & _ & Hobj).
    split.
    + apply (bar_cell_marker rows total obj); [assumption..|unfold rows; lia].
    + unfold marker. destruct (decide _); reflexivity.
Qed.

Lemma chart_bars_follow_buckets_witness :
  create_spend_chart 100 [food15] = Ok food15_chart /\
  exists buckets rest,
    Forall2
      (fun obj b =>
         exists q f,
           float_truediv (amount_withdrawn obj) 100 = Ok q /\
           math_floor (q * 100) = Ok f /\
           b = (f / 10 * 10)%Z)
      [food15] buckets /\
    food15_chart =
      title +:+
      concat_text (map (fun r => bar_line (longest_name_of [food15] + 12) buckets r
                                   +:+ newline) (seq 0 11)) +:+
      rest /\
    forall b r, b ∈ buckets -> (b <= 100)%Z -> r <= 10 ->
      bar_cell (longest_name_of [food15] + 12) b r = marker b r /\
      cell_text (marker b r) =
        if decide (100 - Z.of_nat r * 10 <= b)%Z then "o" else " ".
Proof.
  split; [vm_compute; reflexivity|].
  apply (chart_bars_follow_buckets 100 [food15] food15_chart).
  vm_compute. reflexivity.
Defined.

(** The example of the specification: 15 withdrawn of 100 gives the
    bucket 10, and markers on the "10" and "0" rows only. *)
Example bucket_of_15_in_100 :
  percentage_spent 100 food15 = Ok 10%Z /\
  map (marker 10) (seq 0 11) =
    [None; None; None; None; None; None; None; None; None;
     Some (CStr "o"); Some (CStr "o")] /\
  map (bar_line (longest_name_of [food15] + 12) [10%Z]) (seq 0 11) =
    ["100|    "; " 90|    "; " 80|    "; " 70|    "; " 60|    "; " 50|    ";
     " 40|    "; " 30|    "; " 20|    "; " 10| o  "; "  0| o  "].
Proof. vm_compute. repeat split; reflexivity. Qed.

(** C4 as stated fails on a bucket above 100: after [withdraw(10)] from
    "A" and [withdraw(-5)] from "B" the total withdrawn is 5, the bucket of
    "A" is 200, and the slice [10 - 20 : 11] of a column of 13 rows starts
    at row 3: the bar of "A" is blank on the "100", "90" and "80" rows, where
    [100 - r * 10 <= 200] asks for a marker. *)
Lemma bucket_above_100_leaves_top_rows_blank :
  run [New "A"; New "B"; Deposit 0 100 ""; Withdraw 0 10 ""; Withdraw 1 (-5) ""]
      initial =
    Some ([true; true; true; true; true],
          mkWorld 5 [mkCategory "A" 90 10 [Entry 100 ""; Entry (-10) ""];
                     mkCategory "B" 5 (-5) [Entry 5 ""]]) /\
  (0 <? 5)%float = true /\
  percentage_spent 5 (mkCategory "A" 90 10 [Entry 100 ""; Entry (-10) ""]) = Ok 200%Z /\
  (100 - Z.of_nat 0 * 10 <= 200)%Z /\
  create_spend_chart 5 [mkCategory "A" 90 10 [Entry 100 ""; Entry (-10) ""]] =
    Ok (join_lines
          ["Percentage spent by category";
           "100|    "; " 90|    "; " 80|    "; " 70| o  "; " 60| o  ";
           " 50| o  "; " 40| o  "; " 30| o  "; " 20| o  "; " 10| o  ";
           "  0| o  "; "    ----"; "     A  "]).
Proof. vm_compute. repeat split; try reflexivity. discriminate. Qed.

(** * The report *)

Example report_food :
  chart_lines (__str__ food_final) =
  ["*************Food*************";
   "deposit                 900.00";
   "groceries              -105.55";
   "Transfer to Clothing    -50.00";
   "Total: 744.45"].
Proof. vm_compute. reflexivity. Qed.

(** The amount is formatted, then cut: 12345.678 gives "12345.68", of
    which the first seven characters are kept. *)
Example report_wide_entry :
  format_2f (amount wide_entry) = "12345.68" /\
  ledger_line wide_entry = "Restaurant and more foo12345.6" +:+ newline.
Proof. vm_compute. split; reflexivity. Qed.

(** The text of floats, on values whose Python text is known. *)
Example float_str_samples :
  map float_str
    [744.45000000000005; 0.1; 0.3; 100; 1e16; 1e15; 1e-5; 0.0001; 0x1p+53;
     0x1p+60; 1e23; 5e-324; -105.55; -0.0; infinity; neg_infinity; nan]%float =
  ["744.45"; "0.1"; "0.3"; "100.0"; "1e+16"; "1000000000000000.0"; "1e-05";
   "0.0001"; "9007199254740992.0"; "1.152921504606847e+18"; "1e+23"; "5e-324";
   "-105.55"; "-0.0"; "inf"; "-inf"; "nan"].
Proof. vm_compute. reflexivity. Qed.

Example format_2f_samples :
  map format_2f
    [900; -105.55; 0.125; 0.375; 2.675; 1.005; 0.005; 99.995; 1e22; -0.001;
     -0.0; infinity; neg_infinity; nan]%float =
  ["900.00"; "-105.55"; "0.12"; "0.38"; "2.67"; "1.00"; "0.01"; "100.00";
   "10000000000000000000000.00"; "-0.00"; "-0.00"; "inf"; "-inf"; "nan"].
Proof. vm_compute. reflexivity. Qed.

Lemma length_app_str (s1 s2 : string) :
  String.length (s1 +:+ s2) = String.length s1 + String.length s2.
Proof.
  induction s1 as [|c s1 IH]; [reflexivity|].
  change (S (String.length (s1 +:+ s2)) = S (String.length s1 + String.length s2)).
  rewrite IH. reflexivity.
Qed.

Lemma length_fill (n : nat) (c : ascii) : String.length (fill n c) = n.
Proof. induction n as [|n IH]; simpl; [reflexivity|]. rewrite IH. reflexivity. Qed.

(** [s[0:k]] is the first [k] characters of [s], or [s] when it is shorter. *)
Lemma substring_prefix (k : nat) (s : string) :
  String.length (substring 0 k s) = Nat.min k (String.length s) /\
  exists rest, s = substring 0 k s +:+ rest.
Proof.
  revert s. induction k as [|k IH]; intros s.
  - destruct s; simpl; (split; [reflexivity|]); eexists; reflexivity.
  - destruct s as [|c s]; simpl.
    + split; [reflexivity|]. exists EmptyString. reflexivity.
    + destruct (IH s) as [Hl [rest Hr]]. split; [rewrite Hl; reflexivity|].
      exists rest. change (String c s = String c (substring 0 k s +:+ rest)).
      rewrite <- Hr. reflexivity.
Qed.

Lemma ljust_length (width : nat) (c : ascii) (s : string) :
  String.length s <= width -> String.length (ljust width c s) = width.
Proof. intros H. unfold ljust. rewrite length_app_str, length_fill. lia. Qed.

Lemma rjust_length (width : nat) (c : ascii) (s : string) :
  String.length s <= width -> String.length (rjust width c s) = width.
Proof. intros H. unfold rjust. rewrite length_app_str, length_fill. lia. Qed.

(** In an even width the padding of [center] is split in two halves, the
    odd character going to the right. *)
Lemma center_30 (c : ascii) (s : string) :
  let len := String.length s in
  center 30 c s =
  if (30 <=? len)%nat then s
  else fill ((30 - len) / 2) c +:+ s +:+ fill ((30 - len) - (30 - len) / 2) c.
Proof.
  intros len. unfold center. fold len.
  destruct (30 <=? len)%nat; [reflexivity|].
  rewrite <- Nat.land_assoc. change (Nat.land 30 1) with 0.
  rewrite Nat.land_0_r, Nat.add_0_r. reflexivity.
Qed.

(** The loop over the ledger adds one line per entry, in order. *)
Lemma add_items_text (l : list entry) (text : string) :
  fold_left add_item l text = text +:+ concat_text (map ledger_line l).
Proof.
  revert text. induction l as [|item l IH]; intros text; simpl.
  - symmetry. apply app_nil_r_str.
  - rewrite IH. unfold add_item, ledger_line, description_column, amount_column.
    rewrite !app_assoc_str. reflexivity.
Qed.

(** ** The text of an amount *)

Lemma round_half_even_nearest (num den : Z) :
  (0 <= num)%Z -> (0 < den)%Z ->
  (0 <= round_half_even num den)%Z /\
  (Z.abs (2 * (num - round_half_even num den * den)) <= den)%Z /\
  (Z.abs (2 * (num - round_half_even num den * den)) = den ->
   Z.even (round_half_even num den) = true).
Proof.
  intros Hnum Hden. unfold round_half_even.
  pose proof (Z.div_mod num den ltac:(lia)) as E.
  pose proof (Z.mod_pos_bound num den Hden) as B.
  assert (Hq : (0 <= num / den)%Z) by (apply Z.div_pos; lia).
  set (q := (num / den)%Z) in *. set (r := (num mod den)%Z) in *.
  assert (E1 : (num - q * den = r)%Z) by lia.
  assert (E2 : (num - (q + 1) * den = r - den)%Z) by lia.
  destruct (Z.compare_spec (2 * r) den) as [Hc|Hc|Hc].
  - destruct (Z.even q) eqn:Ev.
    + rewrite E1. split; [lia|]. split; [lia|]. intros _. exact Ev.
    + rewrite E2. split; [lia|]. split; [lia|]. intros _.
      rewrite Z.even_add, Ev. reflexivity.
  - rewrite E1. split; [lia|]. split; lia.
  - rewrite E2. split; [lia|]. split; lia.
Qed.

Lemma two_digits_eq (k : Z) :
  (0 <= k < 100)%Z ->
  two_digits k =
  String (decimal_digit (k / 10)) (String (decimal_digit (k mod 10)) EmptyString).
Proof.
  intros Hk.
  assert (Hj : exists j, j < 100 /\ k = Z.of_nat j).
  { exists (Z.to_nat k). split; lia. }
  destruct Hj as (j & Hj & ->).
  do 100 (destruct j as [|j]; [vm_compute; reflexivity|]).
  lia.
Qed.

(** [f"{x:.2f}"] of a finite number: the digits of the nearest number of
    hundredths, with the point before the last two. *)
Lemma format_2f_finite (x : float) (s : bool) (m : positive) (e : Z) :
  Prim2SF x = S754_finite s m e ->
  exists n : Z,
    nearest_hundredth m e n /\
    format_2f x =
      (if s then "-" else "") +:+ pretty (n / 100)%Z +:+ "." +:+
      String (decimal_digit (n mod 100 / 10))
        (String (decimal_digit (n mod 100 mod 10)) EmptyString).
Proof.
  intros Hx. unfold format_2f. rewrite Hx. cbv zeta.
  assert (P : (0 < 2 ^ Z.max (- e) 0)%Z) by (apply Z.pow_pos_nonneg; lia).
  destruct (Z.leb_spec 0 e) as [He|He].
  - exists (Zpos m * 2 ^ e * 100)%Z. split.
    + unfold nearest_hundredth. cbv zeta.
      rewrite Z.max_l, Z.max_r by lia. change (2 ^ 0)%Z with 1%Z.
      assert (0 < 2 ^ e)%Z by (apply Z.pow_pos_nonneg; lia).
      replace (Zpos m * 100 * 2 ^ e - Zpos m * 2 ^ e * 100 * 1)%Z with 0%Z by lia.
      split; [nia|]. split; [simpl; lia|]. simpl. lia.
    + rewrite two_digits_eq by (apply Z.mod_pos_bound; lia). reflexivity.
  - exists (round_half_even (Zpos m * 100) (2 ^ (- e))). split.
    + unfold nearest_hundredth. cbv zeta.
      rewrite Z.max_r, Z.max_l by lia. change (2 ^ 0)%Z with 1%Z.
      rewrite Z.mul_1_r.
      apply round_half_even_nearest; [lia|]. apply Z.pow_pos_nonneg; lia.
    + rewrite two_digits_eq by (apply Z.mod_pos_bound; lia). reflexivity.
Qed.

(** ** The text of a balance *)

Lemma repr_layout_not_empty (ds : string) (decpt : Z) :
  repr_layout ds decpt <> EmptyString.
Proof.
  intros H. apply (f_equal String.length) in H. revert H.
  unfold repr_layout. cbv zeta.
  destruct (_ || _)%bool; [|destruct (decpt <=? 0)%Z; [|destruct (_ <=? _)%Z]];
    rewrite !length_app_str; simpl String.length; lia.
Qed.

Lemma float_str_finite (x : float) (s : bool) (m : positive) (e : Z) :
  Prim2SF x = S754_finite s m e ->
  float_str x = (if s then "-" else "") +:+ float_str (abs x) /\
  float_str (abs x) <> EmptyString.
Proof.
  intros Hx. unfold float_str. rewrite abs_spec, Hx. simpl SFabs. cbv iota.
  destruct (shortest_digits _ _ _ _ _) as [D p].
  destruct (strip_zeros _ _ _) as [D' p'].
  split; [reflexivity|].
  rewrite app_nil_l_str. apply repr_layout_not_empty.
Qed.

(** * Properties of the report *)

(** C7: the report of a category is the name centered among [*] in 30
    characters (the name itself when it is longer), a line break, then one
    line for each ledger entry in order, then "Total: " and the balance,
    with no line break at the end.  A ledger line is the first 23
    characters of the description padded on the right with spaces to 23
    characters, then the first 7 characters of the amount formatted with two
    decimals padded on the left with spaces to 7 characters (the formatted
    text is cut, not rounded again), then a line break.  The amount
    formatted with two decimals is, for a finite amount, the sign, the
    digits of the whole part, a point and two digits, of the number of
    hundredths nearest to the amount; the balance is printed as Python
    prints a float, with "-" before the text of its absolute value when it
    is negative. *)
Theorem report_layout (self : Category) :
  __str__ self =
    center 30 "*" (name self) +:+ newline +:+
    concat_text (map ledger_line (ledger self)) +:+
    "Total: " +:+ float_str (balance self) /\
  (let len := String.length (name self) in
   center 30 "*" (name self) =
     if (30 <=? len)%nat then name self
     else fill ((30 - len) / 2) "*" +:+ name self +:+
          fill ((30 - len) - (30 - len) / 2) "*") /\
  (String.length (name self) <= 30 ->
   String.length (center 30 "*" (name self)) = 30) /\
  (forall item,
    ledger_line item =
      description_column (description item) +:+ amount_column (amount item) +:+
      newline /\
    String.length (description_column (description item)) = 23 /\
    String.length (amount_column (amount item)) = 7 /\
    (exists cut,
       description item = substring 0 23 (description item) +:+ cut /\
       description_column (description item) =
         substring 0 23 (description item) +:+
         fill (23 - String.length (description item)) " ") /\
    (exists cut,
       format_2f (amount item) = substring 0 7 (format_2f (amount item)) +:+ cut /\
       amount_column (amount item) =
         fill (7 - String.length (format_2f (amount item))) " " +:+
         substring 0 7 (format_2f (amount item))) /\
    match Prim2SF (amount item) with
    | S754_finite s m e =>
        exists n : Z,
          nearest_hundredth m e n /\
          format_2f (amount item) =
            (if s then "-" else "") +:+ pretty (n / 100)%Z +:+ "." +:+
            String (decimal_digit (n mod 100 / 10))
              (String (decimal_digit (n mod 100 mod 10)) EmptyString)
    | S754_zero s => format_2f (amount item) = (if s then "-" else "") +:+ "0.00"
    | S754_infinity s => format_2f (amount item) = if s then "-inf" else "inf"
    | S754_nan => format_2f (amount item) = "nan"
    end) /\
  match Prim2SF (balance self) with
  | S754_finite s m e =>
      float_str (balance self) =
        (if s then "-" else "") +:+ float_str (abs (balance self)) /\
      float_str (abs (balance self)) <> EmptyString
  | S754_zero s => float_str (balance self) = if s then "-0.0" else "0.0"
  | S754_infinity s => float_str (balance self) = if s then "-inf" else "inf"
  | S754_nan => float_str (balance self) = "nan"
  end.
Proof.
  split; [|split; [|split; [|split]]].
  - unfold __str__. cbv zeta. rewrite add_items_text, app_nil_l_str.
    rewrite !app_assoc_str. reflexivity.
  - apply center_30.
  - intros Hlen. rewrite center_30. cbv zeta.
    destruct (Nat.leb_spec 30 (String.length (name self))).
    + lia.
    + rewrite !length_app_str, !length_fill.
      pose proof (Nat.Div0.div_le_upper_bound
                    (30 - String.length (name self)) 2
                    (30 - String.length (name self)) ltac:(lia)).
      lia.
  - intros item.
    destruct (substring_prefix 23 (description item)) as [Hd [cutd Ed]].
    destruct (substring_prefix 7 (format_2f (amount item))) as [Ha [cuta Ea]].
    split; [reflexivity|]. split; [|split; [|split; [|split]]].
    + unfold description_column. apply ljust_length. lia.
    + unfold amount_column. apply rjust_length. lia.
    + exists cutd. split; [exact Ed|].
      unfold description_column, ljust. rewrite Hd.
      replace (23 - Nat.min 23 (String.length (description item)))
        with (23 - String.length (description item)) by lia.
      reflexivity.
    + exists cuta. split; [exact Ea|].
      unfold amount_column, rjust. rewrite Ha.
      replace (7 - Nat.min 7 (String.length (format_2f (amount item))))
        with (7 - String.length (format_2f (amount item))) by lia.
      reflexivity.
    + destruct (Prim2SF (amount item)) as [s|s| |s m e] eqn:Hx.
      * unfold format_2f. rewrite Hx. reflexivity.
      * unfold format_2f. rewrite Hx. reflexivity.
      * unfold format_2f. rewrite Hx. reflexivity.
      * apply format_2f_finite. assumption.
  - destruct (Prim2SF (balance self)) as [s|s| |s m e] eqn:Hx.
    + unfold float_str. rewrite Hx. reflexivity.
    + unfold float_str. rewrite Hx. reflexivity.
    + unfold float_str. rewrite Hx. reflexivity.
    + eapply float_str_finite. eassumption.
Qed.

(** The report of a category with a wide entry: the description is cut to
    23 characters, and the amount 12345.678 is formatted to "12345.68" and
    then cut to 7 characters. *)
Lemma report_layout_witness :
  chart_lines (__str__ food_report) =
  ["*************Food*************";
   "initial deposit        1000.00";
   "Restaurant and more foo12345.6";
   "groceries               -10.15";
   "restaurant              -15.89";
   "Total: 13319.638"].
Proof.
  rewrite (proj1 (report_layout food_report)).
  vm_compute. reflexivity.
Defined.

(** * The whole chart *)

(** ** The longest name *)

Lemma max_by_len_length (best : string) (names : list string) :
  String.length (max_by_len best names) =
  Nat.max (String.length best) (max_list (map String.length names)).
Proof.
  revert best. induction names as [|n names IH]; intros best; simpl.
  - lia.
  - rewrite IH.
    destruct (Nat.ltb_spec (String.length best) (String.length n)); lia.
Qed.

(** The length [build_array] takes for the names is the greatest length
    of a name. *)
Lemma longest_name_is_max (categories : list Category) :
  longest_name_of categories = max_name_length categories.
Proof.
  unfold longest_name_of, max_name_length.
  destruct categories as [|c cs]; simpl; [reflexivity|].
  rewrite max_by_len_length, map_map. reflexivity.
Qed.

Lemma name_length_le (categories : list Category) (k : nat) (obj : Category) :
  categories !! k = Some obj ->
  String.length (name obj) <= longest_name_of categories.
Proof.
  intros Hk. rewrite longest_name_is_max. unfold max_name_length.
  apply max_list_elem_of_le.
  apply list_elem_of_lookup. exists k.
  change (map ?f categories) with (f <$> categories).
  rewrite list_lookup_fmap, Hk. reflexivity.
Qed.

(** ** Capitalized names *)

Lemma length_list_ascii (s : string) :
  length (list_ascii_of_string s) = String.length s.
Proof. induction s as [|c s IH]; simpl; [reflexivity|]. rewrite IH. reflexivity. Qed.

Lemma length_lower_all (s : string) : String.length (lower_all s) = String.length s.
Proof. induction s as [|c s IH]; simpl; [reflexivity|]. rewrite IH. reflexivity. Qed.

Lemma length_capitalize (s : string) : String.length (capitalize s) = String.length s.
Proof. destruct s as [|c s]; simpl; [reflexivity|]. rewrite length_lower_all. reflexivity. Qed.

(** The pairs of [zip(name, range(first, first + count))]. *)
Lemma elem_of_zip_chars_iff s first count ch idx :
  (ch, idx) ∈ zip_chars s first count <->
  first <= idx < first + count /\
  list_ascii_of_string s !! (idx - first) = Some ch.
Proof.
  unfold zip_chars. rewrite list_elem_of_lookup. split.
  - intros [k Hk]. apply lookup_zip_with_Some in Hk as (x & y & [= -> ->] & Hx & Hy).
    apply lookup_seq in Hy as [-> Hlt].
    replace (first + k - first) with k by lia. split; [lia|assumption].
  - intros [Hidx Hch]. exists (idx - first).
    apply lookup_zip_with_Some. exists ch, idx. split; [reflexivity|].
    split; [assumption|]. apply lookup_seq. lia.
Qed.

(** ** Slices *)

Lemma elem_of_slice_below (start : option Z) (b : Z) (n x : nat) :
  x ∈ slice_indices start (Some b) n -> (0 <= b)%Z -> x < Z.to_nat b.
Proof.
  unfold slice_indices, slice_bound. cbv zeta. intros Hx Hb.
  apply elem_of_seq in Hx.
  destruct (Z.ltb_spec b 0); lia.
Qed.

Lemma elem_of_slice_from (a n x : nat) :
  x ∈ slice_indices (Some (Z.of_nat a)) None n -> a <= x < n.
Proof.
  unfold slice_indices, slice_bound. cbv zeta. intros Hx.
  apply elem_of_seq in Hx.
  destruct (Z.ltb_spec (Z.of_nat a) 0); lia.
Qed.

Lemma elem_of_slice_from_2 (a n x : nat) :
  a <= x < n -> x ∈ slice_indices (Some (Z.of_nat a)) None n.
Proof.
  unfold slice_indices, slice_bound. cbv zeta. intros Hx.
  apply elem_of_seq.
  destruct (Z.ltb_spec (Z.of_nat a) 0); lia.
Qed.

(** ** The rows from the dashes on, before the categories are plotted *)

Lemma axis_array_lower L n r c :
  11 <= r < L + 12 -> c < n + n * 2 + 3 ->
  getitem (axis_array L n) r c = Some (lower_cell [] r c).
Proof.
  intros Hr Hc. unfold axis_array, lower_cell. rewrite axis_pairs.
  assert (Hempty : is_Some (getitem
            (fold_left (fun a' r0 => put r0 1 (CStr "|") a')
               (slice_indices None (Some 11%Z) (L + 12))
               (fold_left (fun a' (x : Z * Z) => put (Z.to_nat x.1) 0 (CNum x.2) a')
                  [(0, 100); (1, 90); (2, 80); (3, 70); (4, 60); (5, 50); (6, 40);
                   (7, 30); (8, 20); (9, 10); (10, 0)]%Z
                  (np_empty (L + 12) (n + n * 2 + 3)))) r c)).
  { apply (fold_put_is_Some (fun r => (r, 1, CStr "|"))).
    apply (fold_put_is_Some (fun x : Z * Z => (Z.to_nat x.1, 0, CNum x.2))).
    rewrite getitem_np_empty by lia. eauto. }
  assert (Hnone : getitem
            (fold_left (fun a' r0 => put r0 1 (CStr "|") a')
               (slice_indices None (Some 11%Z) (L + 12))
               (fold_left (fun a' (x : Z * Z) => put (Z.to_nat x.1) 0 (CNum x.2) a')
                  [(0, 100); (1, 90); (2, 80); (3, 70); (4, 60); (5, 50); (6, 40);
                   (7, 30); (8, 20); (9, 10); (10, 0)]%Z
                  (np_empty (L + 12) (n + n * 2 + 3)))) r c = Some None).
  { rewrite (fold_put_other (fun r => (r, 1, CStr "|"))).
    - rewrite (fold_put_other (fun x : Z * Z => (Z.to_nat x.1, 0, CNum x.2))).
      + apply getitem_np_empty; lia.
      + intros [row num] Hx. simpl. left.
        repeat (apply elem_of_cons in Hx as [[= -> ->]|Hx]; [simpl; lia|]).
        apply elem_of_nil in Hx. contradiction.
    - intros x Hx. simpl. left.
      apply elem_of_slice_below in Hx; lia. }
  destruct (decide (r = 11)) as [->|Hne].
  - destruct (decide (2 <= c)).
    + apply (fold_put_written (fun c => (11, c, CStr "-"))).
      * exists c. simpl. split; [|lia].
        apply (elem_of_slice_from_2 2). lia.
      * intros; reflexivity.
      * assumption.
    + rewrite (fold_put_other (fun c => (11, c, CStr "-"))); [assumption|].
      intros x Hx. simpl. right.
      apply (elem_of_slice_from 2) in Hx. lia.
  - rewrite (fold_put_other (fun c => (11, c, CStr "-"))) by (intros; simpl; lia).
    rewrite Hnone.
    destruct (decide (3 <= c /\ c mod 3 = 0)); reflexivity.
Qed.

(** ** Plotting one category: the rows from the dashes on *)

(** The slice of the bar stops above the dashes, and the characters of
    the name go below them, one per row. *)
Lemma plot_category_lower total categories L cols (a a' : ndarray) k obj p :
  has_shape (L + 12) cols a ->
  bar_column k < cols ->
  categories !! k = Some obj ->
  percentage_spent total obj = Ok p ->
  String.length (name obj) <= L ->
  plot_category total categories L a (Z.of_nat (bar_column k)) = Ok a' ->
  forall r, 11 <= r < L + 12 ->
    getitem a' r (bar_column k) =
    if decide (r = 11) then getitem a r (bar_column k)
    else match name_cell obj (r - 12) with
         | Some v => Some (Some v)
         | None => getitem a r (bar_column k)
         end.
Proof.
  intros Hs Hc Hk Hp Hlen. unfold plot_category.
  rewrite column_index, Hk, Hp, result_bind_eq, Nat2Z.id.
  rewrite (setitem_rows_ok _ _ _ _ _ _ _ Hs) by lia.
  rewrite result_bind_eq.
  set (a1 := fold_left _ (slice_indices _ _ _) a).
  assert (H1 : has_shape (L + 12) cols a1).
  { apply (fold_put_shape (fun r => (r, bar_column k, CStr "o"))). assumption. }
  destruct (for_each_pure
              (fun array '(char, index) =>
                 setitem array index (bar_column k) (CStr (String char EmptyString)))
              (fun a' (x : ascii * nat) =>
                 put x.2 (bar_column k) (CStr (String x.1 EmptyString)) a')
              (has_shape (L + 12) cols)
              (zip_chars (capitalize (name obj)) 12 L) a1)
    as [E2 H2]; [|assumption|].
  { intros s [ch idx] Hs' Hx. split; [|apply put_shape; assumption].
    apply elem_of_zip_chars in Hx.
    apply (setitem_ok _ _ _ _ _ _ Hs'); lia. }
  rewrite E2. intros [= <-] r Hr.
  assert (Ha1 : getitem a1 r (bar_column k) = getitem a r (bar_column k)).
  { unfold a1. apply (fold_put_other (fun r => (r, bar_column k, CStr "o"))).
    intros x Hx. simpl. left. apply elem_of_slice_below in Hx; lia. }
  destruct (decide (r = 11)) as [->|Hne].
  - rewrite (fold_put_other
               (fun x : ascii * nat => (x.2, bar_column k, CStr (String x.1 EmptyString))));
      [assumption|].
    intros [ch idx] Hx. apply elem_of_zip_chars in Hx. simpl. left. lia.
  - unfold name_cell.
    destruct (list_ascii_of_string (capitalize (name obj)) !! (r - 12)) as [ch|] eqn:Hch.
    + apply (fold_put_written
               (fun x : ascii * nat => (x.2, bar_column k, CStr (String x.1 EmptyString)))).
      * exists (ch, r). split; [|split; reflexivity].
        apply elem_of_zip_chars_iff. split; [lia|assumption].
      * intros [ch' idx] Hx. simpl. intros -> _.
        apply elem_of_zip_chars_iff in Hx as [_ Hx]. congruence.
      * rewrite Ha1. apply (getitem_shape _ _ _ _ _ Hs); lia.
    + rewrite (fold_put_other
                 (fun x : ascii * nat => (x.2, bar_column k, CStr (String x.1 EmptyString))));
        [assumption|].
      intros [ch idx] Hx. simpl. left. intros ->.
      apply elem_of_zip_chars_iff in Hx as [_ Hx]. congruence.
Qed.

(** ** The loop over the categories, in full *)

Lemma lower_cell_snoc (cs : list Category) (obj : Category) (r c : nat) :
  11 <= r ->
  lower_cell (cs ++ [obj]) r c =
  if decide (c = bar_column (length cs)) then
    if decide (r = 11) then Some (CStr "-") else name_cell obj (r - 12)
  else lower_cell cs r c.
Proof.
  intros Hr. unfold lower_cell.
  destruct (decide (c = bar_column (length cs))) as [->|Hne].
  - destruct (bar_column_mod (length cs)) as [Hm Hk].
    destruct (decide (r = 11)).
    + rewrite decide_True by (unfold bar_column; lia). reflexivity.
    + rewrite decide_True by (split; [unfold bar_column; lia|assumption]).
      rewrite Hk, list_lookup_middle by reflexivity. reflexivity.
  - destruct (decide (r = 11)); [reflexivity|].
    destruct (decide (3 <= c /\ c mod 3 = 0)) as [[H3 Hm]|]; [|reflexivity].
    pose proof (not_bar_column c (length cs) Hm ltac:(lia) Hne) as Hk.
    destruct (decide (c / 3 - 1 < length cs)).
    + rewrite lookup_app_l by lia. reflexivity.
    + rewrite (lookup_ge_None_2 cs) by lia.
      rewrite lookup_ge_None_2
        by (rewrite length_app; change (length [obj]) with 1; lia).
      reflexivity.
Qed.

(** After the first [j] categories are taken: either all of them have a
    bucket, and the rows from the dashes on hold the dashes and the names of
    these categories; or the loop has raised the error of the first category
    that has no bucket. *)
Lemma plot_loop_all total categories (j : nat) :
  let L := longest_name_of categories in
  let n := length categories in
  j <= n ->
  match for_each (plot_category total categories L)
          (map (fun k => Z.of_nat (bar_column k)) (seq 0 j)) (axis_array L n) with
  | Ok arr =>
      has_shape (L + 12) (n + n * 2 + 3) arr /\
      Forall (fun obj => exists p, percentage_spent total obj = Ok p)
             (take j categories) /\
      forall r c, 11 <= r < L + 12 -> c < n + n * 2 + 3 ->
                  getitem arr r c = Some (lower_cell (take j categories) r c)
  | Raise e =>
      exists k obj,
        k < j /\ categories !! k = Some obj /\
        percentage_spent total obj = Raise e /\
        Forall (fun obj => exists p, percentage_spent total obj = Ok p)
               (take k categories)
  end.
Proof.
  intros L n. induction j as [|j IH]; intros Hj.
  - simpl. split; [apply axis_array_shape|]. split; [rewrite take_0; constructor|].
    intros r c Hr Hc. rewrite take_0. apply axis_array_lower; assumption.
  - rewrite seq_S, map_app, for_each_app, result_bind_eq.
    specialize (IH ltac:(lia)).
    destruct (for_each _ (map _ (seq 0 j)) _) as [arr_j|e] eqn:Ej.
    + destruct IH as (Hs & Hall & Hcells).
      simpl. rewrite result_bind_eq.
      destruct (lookup_lt_is_Some_2 categories j ltac:(fold n; lia)) as [obj_j Hobj].
      assert (Hlen : length (take j categories) = j).
      { rewrite length_take. fold n. lia. }
      destruct (percentage_spent total obj_j) as [pj|e] eqn:Hpj.
      * destruct (plot_category_ok total categories L _ arr_j j obj_j pj Hs
                    ltac:(unfold bar_column; lia) Hobj Hpj)
          as (a' & Ea' & Hs' & Hother & _).
        rewrite Ea'. split; [assumption|].
        rewrite (take_S_r _ _ _ Hobj). split.
        { apply Forall_app. split; [assumption|]. constructor; [eauto|constructor]. }
        intros r c Hr Hc.
        rewrite lower_cell_snoc by lia. rewrite Hlen.
        destruct (decide (c = bar_column j)) as [->|Hne].
        -- rewrite (plot_category_lower total categories L _ arr_j a' j obj_j pj Hs
                      ltac:(unfold bar_column; lia) Hobj Hpj
                      (name_length_le _ _ _ Hobj) Ea' r Hr).
           rewrite (Hcells r _ Hr Hc).
           destruct (decide (r = 11)) as [->|Hr11].
           ++ unfold lower_cell. rewrite decide_True by reflexivity.
              rewrite decide_True by (unfold bar_column; lia). reflexivity.
           ++ destruct (name_cell obj_j (r - 12)); [reflexivity|].
              unfold lower_cell. rewrite decide_False by assumption.
              destruct (bar_column_mod j) as [Hm Hk].
              rewrite decide_True by (split; [unfold bar_column; lia|assumption]).
              rewrite Hk, lookup_ge_None_2 by lia. reflexivity.
        -- rewrite (Hother r c Hne). apply Hcells; assumption.
      * rewrite (plot_category_raise _ _ _ _ _ _ _ Hobj Hpj).
        exists j, obj_j. split; [lia|]. split; [assumption|].
        split; assumption.
    + destruct IH as (k & obj & Hk & Hobj & Hp & Hall).
      exists k, obj. split; [lia|]. auto.
Qed.

(** ** The rows from the dashes on, as text *)

Lemma dash_cells_text (categories : list Category) (i m : nat) :
  2 <= i ->
  concat_text (map cell_text (map (lower_cell categories 11) (seq i m))) =
  fill m "-".
Proof.
  revert i. induction m as [|m IH]; intros i Hi; [reflexivity|].
  simpl. rewrite IH by lia. unfold lower_cell.
  rewrite decide_True by reflexivity. rewrite decide_True by lia.
  reflexivity.
Qed.

Lemma dash_row_text (categories : list Category) :
  let n := length categories in
  row_text 11 (map (lower_cell categories 11) (seq 0 (n + n * 2 + 3))) =
  dash_line n.
Proof.
  intros n. replace (n + n * 2 + 3) with (S (S (3 * n + 1))) by lia.
  change (seq 0 (S (S (3 * n + 1)))) with (0 :: 1 :: seq 2 (3 * n + 1)).
  rewrite !map_cons. unfold row_text. cbn [map concat_text].
  rewrite dash_cells_text by lia.
  reflexivity.
Qed.

Lemma lower_cell_gap (categories : list Category) (r c : nat) :
  12 <= r -> c mod 3 <> 0 -> lower_cell categories r c = None.
Proof.
  intros Hr Hc. unfold lower_cell.
  rewrite decide_False by lia. rewrite decide_False by tauto. reflexivity.
Qed.

(** The cells after the first one of a row of the names, as text: two
    spaces, and for each category its character and two spaces. *)
Lemma name_cells_text (categories : list Category) (r : nat) :
  12 <= r ->
  concat_text (map cell_text
                 (map (lower_cell categories r)
                      (seq 1 (3 * length categories + 2)))) =
  " " +:+ " " +:+
  concat_text (map (fun obj => cell_text (name_cell obj (r - 12)) +:+ "  ")
                   categories).
Proof.
  intros Hr.
  induction categories as [|obj cs IH] using rev_ind.
  - simpl. unfold lower_cell. rewrite decide_False by lia.
    repeat (destruct (decide _); try lia); reflexivity.
  - rewrite length_app. change (length [obj]) with 1.
    replace (3 * (length cs + 1) + 2) with ((3 * length cs + 2) + 3) by lia.
    rewrite seq_app, !map_app, !concat_text_app.
    replace (map (lower_cell (cs ++ [obj]) r) (seq 1 (3 * length cs + 2)))
      with (map (lower_cell cs r) (seq 1 (3 * length cs + 2))).
    + rewrite IH, !app_assoc_str. f_equal. f_equal. f_equal.
      replace (1 + (3 * length cs + 2)) with (bar_column (length cs))
        by (unfold bar_column; lia).
      change (seq (bar_column (length cs)) 3)
        with [bar_column (length cs); S (bar_column (length cs));
              S (S (bar_column (length cs)))].
      cbn [map].
      rewrite (lower_cell_snoc cs obj r (bar_column (length cs))) by lia.
      rewrite decide_True by reflexivity. rewrite decide_False by lia.
      rewrite (lower_cell_gap _ r (S (bar_column (length cs)))).
      2:{ lia. }
      2:{ unfold bar_column.
          replace (S (3 * length cs + 3)) with (3 * (length cs + 1) + 1) by lia.
          destruct (div_mod_3 (length cs + 1) 1 ltac:(lia)) as [E _]. lia. }
      rewrite (lower_cell_gap _ r (S (S (bar_column (length cs))))).
      2:{ lia. }
      2:{ unfold bar_column.
          replace (S (S (3 * length cs + 3))) with (3 * (length cs + 1) + 2) by lia.
          destruct (div_mod_3 (length cs + 1) 2 ltac:(lia)) as [E _]. lia. }
      cbn [concat_text cell_text]. rewrite !app_assoc_str. reflexivity.
    + apply map_ext_in. intros c Hc. apply in_seq in Hc.
      rewrite lower_cell_snoc by lia.
      rewrite decide_False by (unfold bar_column; lia). reflexivity.
Qed.

Lemma name_row_text (categories : list Category) (r : nat) :
  let n := length categories in
  12 <= r ->
  row_text r (map (lower_cell categories r) (seq 0 (n + n * 2 + 3))) =
  name_line categories (r - 12).
Proof.
  intros n Hr. replace (n + n * 2 + 3) with (S (3 * n + 2)) by lia.
  subst n.
  change (seq 0 (S (3 * length categories + 2)))
    with (0 :: seq 1 (3 * length categories + 2)).
  rewrite map_cons. unfold row_text. rewrite (name_cells_text categories r Hr).
  unfold name_line, lower_cell, row_padding.
  rewrite (decide_False (P := r = 11)) by lia.
  rewrite (decide_False (P := 3 <= 0 /\ 0 mod 3 = 0)) by lia.
  rewrite (decide_True (P := 0 < r)) by lia.
  rewrite (decide_True (P := 10 <= r)) by lia.
  cbn [cell_text]. rewrite !app_assoc_str. reflexivity.
Qed.

(** The text of the last rows, when these rows are known: the row breaks
    go between the rows, none after the last. *)
Lemma rows_text_tail (len i : nat) (row : list (option cell))
    (rows : list (list (option cell))) (h : nat -> list (option cell)) :
  i + S (length rows) = len ->
  row = h i ->
  (forall r, r < length rows -> rows !! r = Some (h (S i + r))) ->
  rows_text len i (row :: rows) =
  row_text i (h i) +:+
  concat_text (map (fun r => newline +:+ row_text r (h r)) (seq (S i) (length rows))).
Proof.
  revert i row. induction rows as [|row' rows IH]; intros i row Hlen -> Hrows.
  - simpl in Hlen. cbn [rows_text length seq map concat_text].
    rewrite decide_False by lia. reflexivity.
  - change (rows_text len i (h i :: row' :: rows))
      with (row_text i (h i) +:+
            (if decide (i + 1 < len) then newline else EmptyString) +:+
            rows_text len (S i) (row' :: rows)).
    rewrite decide_True by (simpl in Hlen; lia).
    rewrite (IH (S i) row').
    + cbn [length seq map concat_text]. rewrite !app_assoc_str. reflexivity.
    + simpl in Hlen. lia.
    + specialize (Hrows 0 ltac:(simpl; lia)). simpl in Hrows.
      rewrite Nat.add_0_r in Hrows. congruence.
    + intros r Hr. specialize (Hrows (S r) ltac:(simpl; lia)). simpl in Hrows.
      rewrite Hrows. f_equal. f_equal. lia.
Qed.

(** ** Texts from lines *)

Lemma join_lines_cons (x : string) (l : list string) :
  join_lines (x :: l) = x +:+ concat_text (map (fun s => newline +:+ s) l).
Proof.
  unfold join_lines. revert x. induction l as [|y l IH]; intros x.
  - simpl. symmetry. apply app_nil_r_str.
  - change (String.concat newline (x :: y :: l))
      with (x +:+ newline +:+ String.concat newline (y :: l)).
    rewrite IH. cbn [map concat_text]. rewrite !app_assoc_str. reflexivity.
Qed.

Lemma join_lines_app (l1 : list string) (x : string) (l2 : list string) :
  join_lines (l1 ++ x :: l2) =
  concat_text (map (fun s => s +:+ newline) l1) +:+ join_lines (x :: l2).
Proof.
  induction l1 as [|y l1 IH]; [reflexivity|].
  cbn [map concat_text]. rewrite app_assoc_str, <- IH.
  destruct l1 as [|y' l1]; rewrite app_assoc_str; reflexivity.
Qed.

(** ** The array and the chart in full *)

Lemma build_array_lower total categories (arr : ndarray) :
  let L := longest_name_of categories in
  let n := length categories in
  build_array total categories = Ok arr ->
  has_shape (L + 12) (n + n * 2 + 3) arr /\
  forall r, 11 <= r < L + 12 ->
    arr !! r = Some (map (lower_cell categories r) (seq 0 (n + n * 2 + 3))).
Proof.
  intros L n Hb. subst L n.
  assert (Hne : categories <> []).
  { intros ->. discriminate Hb. }
  rewrite build_array_eq, py_range_columns in Hb by assumption.
  pose proof (plot_loop_all total categories (length categories) ltac:(lia)) as Hloop.
  cbv zeta in Hloop. rewrite Hb in Hloop.
  destruct Hloop as (Hs & _ & Hcells).
  split; [assumption|].
  intros r Hr. apply (row_of_cells _ _ _ _ _ Hs); [lia|].
  intros c Hc. rewrite (Hcells r c Hr Hc).
  rewrite take_ge by lia. reflexivity.
Qed.

(** The chart is the title and the lines of [chart_rows], a line break
    between two lines and none at the end. *)
Lemma chart_text total categories (chart : string) :
  create_spend_chart total categories = Ok chart ->
  exists buckets,
    Forall2 (fun obj b => percentage_spent total obj = Ok b) categories buckets /\
    chart = title +:+ join_lines (chart_rows categories buckets).
Proof.
  intros Hchart. unfold create_spend_chart in Hchart.
  rewrite result_bind_eq in Hchart.
  destruct (build_array total categories) as [arr|] eqn:Harr; [|discriminate].
  injection Hchart as <-.
  destruct (build_array_bars _ _ _ Harr) as (Hs & buckets & HF & Hrows).
  destruct (build_array_lower _ _ _ Harr) as (_ & Hlower).
  set (L := longest_name_of categories) in *.
  set (n := length categories) in *.
  pose proof (Forall2_length _ _ _ HF) as Hlen. fold n in Hlen.
  exists buckets. split; [assumption|].
  rewrite build_string_eq. f_equal.
  destruct Hs as [Hlen_arr Hs].
  rewrite (rows_text_known (length arr) 11 0 arr
             (fun r => map (bar_area_cell (L + 12) buckets r) (seq 0 (n + n * 2 + 3))));
    [|intros r Hr; apply Hrows; lia|lia].
  unfold chart_rows. fold L n.
  change ([dash_line n] ++ map (name_line categories) (seq 0 L))
    with (dash_line n :: map (name_line categories) (seq 0 L)).
  rewrite join_lines_app, join_lines_cons. rewrite map_map.
  f_equal.
  { f_equal. apply map_ext_in. intros r Hr. f_equal.
    rewrite Hlen. apply bar_row_text. }
  simpl plus.
  destruct (drop 11 arr) as [|row rows] eqn:Hdrop.
  { apply (f_equal length) in Hdrop. rewrite length_drop in Hdrop. simpl in Hdrop. lia. }
  assert (Hrows_len : length rows = L).
  { apply (f_equal length) in Hdrop. rewrite length_drop in Hdrop. simpl in Hdrop. lia. }
  rewrite (rows_text_tail (length arr) 11 row rows
             (fun r => map (lower_cell categories r) (seq 0 (n + n * 2 + 3)))).
  - rewrite dash_row_text. f_equal. rewrite Hrows_len, map_map.
    f_equal. rewrite <- (fmap_add_seq 12 0), <- list_fmap_compose.
    apply list_fmap_ext. intros _ k _. simpl. f_equal.
    rewrite name_row_text by lia. f_equal. lia.
  - lia.
  - assert (H : drop 11 arr !! 0 = Some row) by (rewrite Hdrop; reflexivity).
    rewrite lookup_drop in H. change (11 + 0) with 11 in H.
    rewrite Hlower in H by lia. congruence.
  - intros r Hr.
    assert (H : drop 11 arr !! (S r) = rows !! r) by (rewrite Hdrop; reflexivity).
    rewrite lookup_drop in H. rewrite <- H.
    replace (11 + S r) with (12 + r) by lia. apply Hlower. lia.
Qed.

(** ** The width of the lines *)

Lemma length_cells_text {X} (g : X -> option cell) (l : list X) :
  (forall x, String.length (cell_text (g x)) = 1) ->
  String.length (concat_text (map (fun x => cell_text (g x) +:+ "  ") l)) =
  3 * length l.
Proof.
  intros Hg. induction l as [|x l IH]; [reflexivity|].
  cbn [map concat_text length]. rewrite !length_app_str, IH, Hg.
  change (String.length "  ") with 2. lia.
Qed.

Lemma length_axis_label (r : nat) : r <= 10 -> String.length (axis_label r) = 3.
Proof.
  intros Hr.
  do 11 (destruct r as [|r]; [vm_compute; reflexivity|]).
  lia.
Qed.

Lemma length_bar_line (rows : nat) (buckets : list Z) (r : nat) :
  r <= 10 -> String.length (bar_line rows buckets r) = 3 * length buckets + 5.
Proof.
  intros Hr. unfold bar_line.
  rewrite !length_app_str, (length_axis_label r Hr).
  rewrite (length_cells_text (fun b => bar_cell rows b r)).
  - change (String.length "|") with 1. change (String.length " ") with 1. lia.
  - intros b. unfold bar_cell. destruct (decide _); reflexivity.
Qed.

Lemma length_dash_line (n : nat) : String.length (dash_line n) = 3 * n + 5.
Proof.
  unfold dash_line. rewrite length_app_str, length_fill.
  change (String.length "    ") with 4. lia.
Qed.

Lemma length_name_line (categories : list Category) (k : nat) :
  String.length (name_line categories k) = 3 * length categories + 5.
Proof.
  unfold name_line. rewrite length_app_str.
  rewrite (length_cells_text (fun obj => name_cell obj k)).
  - change (String.length "     ") with 5. lia.
  - intros obj. unfold name_cell.
    destruct (list_ascii_of_string (capitalize (name obj)) !! k); reflexivity.
Qed.

(** ** [build_string] on any array *)

Lemma rows_text_join (len i : nat) (rows : list (list (option cell))) :
  i + length rows = len ->
  rows_text len i rows = join_lines (imap (fun k => row_text (i + k)) rows).
Proof.
  revert i. induction rows as [|row rows IH]; intros i Hlen; [reflexivity|].
  cbn [rows_text imap]. rewrite Nat.add_0_r.
  rewrite (IH (S i)) by (simpl in Hlen; lia).
  rewrite (imap_ext (fun k => row_text (S i + k)) ((fun k => row_text (i + k)) ∘ S))
    by (intros k x _; simpl; f_equal; lia).
  destruct rows as [|row' rows].
  - simpl in Hlen. rewrite decide_False by lia. simpl. apply app_nil_r_str.
  - rewrite decide_True by (simpl in Hlen; lia). reflexivity.
Qed.

(** ** The chart of a state *)

(** With a total of zero the first category already fails. *)
Lemma chart_zero_total (total : float) (categories : list Category) :
  categories <> [] ->
  (total =? 0)%float = true ->
  create_spend_chart total categories = Raise ZeroDivisionError.
Proof.
  intros Hne Hzero. unfold create_spend_chart.
  rewrite build_array_eq by assumption. rewrite py_range_columns.
  destruct categories as [|obj cs]; [contradiction|].
  simpl length. simpl seq. simpl map. simpl for_each.
  rewrite (plot_category_raise total (obj :: cs) _ _ 0 obj ZeroDivisionError);
    [reflexivity|reflexivity|].
  unfold percentage_spent, float_truediv. rewrite Hzero. reflexivity.
Qed.

Lemma percentage_spent_raises (total : float) (obj : Category) (e : exn) :
  percentage_spent total obj = Raise e ->
  e = ZeroDivisionError \/ e = OverflowError \/ e = ValueError.
Proof.
  unfold percentage_spent, float_truediv, math_floor.
  destruct (total =? 0)%float; simpl; [intros [= <-]; auto|].
  destruct (Prim2SF _); simpl; intros [= <-]; auto.
Qed.

(** ** The lines of the chart *)

Lemma one_line_app (s1 s2 : string) :
  one_line (s1 +:+ s2) = one_line s1 && one_line s2.
Proof.
  induction s1 as [|c s1 IH]; [reflexivity|].
  change (String c s1 +:+ s2) with (String c (s1 +:+ s2)).
  cbn [one_line]. rewrite IH, andb_assoc. reflexivity.
Qed.

Lemma one_line_fill (n : nat) (c : ascii) :
  Ascii.eqb c "010" = false -> one_line (fill n c) = true.
Proof.
  intros Hc. induction n as [|n IH]; [reflexivity|].
  cbn [fill one_line]. rewrite Hc, IH. reflexivity.
Qed.

Lemma one_line_concat_text (l : list string) :
  Forall (fun s => one_line s = true) l -> one_line (concat_text l) = true.
Proof.
  induction 1 as [|s l Hs _ IH]; [reflexivity|].
  cbn [concat_text]. rewrite one_line_app, Hs, IH. reflexivity.
Qed.

Lemma rev_app_rev_app (s t u : string) :
  String.rev_app (String.rev_app s t) u = String.rev_app t (s +:+ u).
Proof.
  revert t u. induction s as [|a s IH]; intros t u; [reflexivity|].
  cbn [String.rev_app]. rewrite IH. reflexivity.
Qed.

Lemma rev_rev_app (s : string) : String.rev (String.rev_app s EmptyString) = s.
Proof.
  unfold String.rev. rewrite rev_app_rev_app. cbn [String.rev_app].
  apply app_nil_r_str.
Qed.

(** Reading a text that begins with a line. *)
Lemma lines_from_line (s cur rest : string) :
  one_line s = true ->
  lines_from cur (s +:+ rest) = lines_from (String.rev_app s cur) rest.
Proof.
  revert cur. induction s as [|c s IH]; intros cur Hs; [reflexivity|].
  cbn [one_line] in Hs. apply andb_prop in Hs as [Hc Hs].
  apply negb_true_iff in Hc.
  change (String c s +:+ rest) with (String c (s +:+ rest)).
  cbn [lines_from String.rev_app]. rewrite Hc. apply IH. assumption.
Qed.

Lemma lines_from_newline (cur rest : string) :
  lines_from cur (newline +:+ rest) = String.rev cur :: lines_from EmptyString rest.
Proof. reflexivity. Qed.

(** Lines joined by line breaks are read back as they are. *)
Lemma chart_lines_join (l : string) (ls : list string) :
  Forall (fun s => one_line s = true) (l :: ls) ->
  chart_lines (join_lines (l :: ls)) = l :: ls.
Proof.
  unfold chart_lines. revert l. induction ls as [|l' ls IH]; intros l Hall.
  - apply Forall_cons in Hall as [Hl _].
    change (join_lines [l]) with l.
    rewrite <- (app_nil_r_str l) at 1.
    rewrite lines_from_line by assumption. cbn [lines_from].
    rewrite rev_rev_app. reflexivity.
  - apply Forall_cons in Hall as [Hl Hall].
    change (join_lines (l :: l' :: ls))
      with (l +:+ newline +:+ join_lines (l' :: ls)).
    rewrite lines_from_line by assumption.
    rewrite lines_from_newline, rev_rev_app, IH by assumption. reflexivity.
Qed.

(** Changing the case of a character does not make it a line break. *)
Lemma upper_lower_not_newline (c : ascii) :
  Ascii.eqb c "010" = false ->
  Ascii.eqb (upper c) "010" = false /\ Ascii.eqb (lower c) "010" = false.
Proof.
  destruct c as [[] [] [] [] [] [] [] []]; vm_compute; intros H;
    first [discriminate H | split; reflexivity].
Qed.

Lemma one_line_lower_all (s : string) :
  one_line s = true -> one_line (lower_all s) = true.
Proof.
  induction s as [|c s IH]; [reflexivity|].
  cbn [one_line lower_all]. intros H. apply andb_prop in H as [Hc Hs].
  apply negb_true_iff in Hc.
  destruct (upper_lower_not_newline c Hc) as [_ ->]. rewrite IH by assumption.
  reflexivity.
Qed.

Lemma one_line_capitalize (s : string) :
  one_line s = true -> one_line (capitalize s) = true.
Proof.
  destruct s as [|c s]; [reflexivity|].
  cbn [one_line capitalize]. intros H. apply andb_prop in H as [Hc Hs].
  apply negb_true_iff in Hc.
  destruct (upper_lower_not_newline c Hc) as [-> _].
  rewrite one_line_lower_all by assumption. reflexivity.
Qed.

Lemma one_line_lookup (s : string) (k : nat) (ch : ascii) :
  one_line s = true -> list_ascii_of_string s !! k = Some ch ->
  Ascii.eqb ch "010" = false.
Proof.
  revert k. induction s as [|c s IH]; intros k H Hk; [destruct k; discriminate Hk|].
  cbn [one_line] in H. apply andb_prop in H as [Hc Hs].
  apply negb_true_iff in Hc.
  destruct k as [|k]; simpl in Hk.
  - injection Hk as <-. assumption.
  - eapply IH; eassumption.
Qed.

Lemma one_line_name_line (categories : list Category) (k : nat) :
  Forall (fun obj => one_line (name obj) = true) categories ->
  one_line (name_line categories k) = true.
Proof.
  intros Hall. unfold name_line. rewrite one_line_app.
  change (one_line "     ") with true. cbn [andb].
  apply one_line_concat_text. apply Forall_map.
  eapply Forall_impl; [exact Hall|]. intros obj Hobj. cbn beta.
  rewrite one_line_app. change (one_line "  ") with true. rewrite andb_true_r.
  unfold name_cell.
  destruct (list_ascii_of_string (capitalize (name obj)) !! k) as [ch|] eqn:Hk;
    [|reflexivity].
  cbn [cell_text str_cell one_line].
  rewrite (one_line_lookup _ _ _ (one_line_capitalize _ Hobj) Hk). reflexivity.
Qed.

Lemma one_line_dash_line (n : nat) : one_line (dash_line n) = true.
Proof.
  unfold dash_line. rewrite one_line_app, one_line_fill by reflexivity.
  reflexivity.
Qed.

Lemma one_line_bar_line (rows : nat) (buckets : list Z) (r : nat) :
  r <= 10 -> one_line (bar_line rows buckets r) = true.
Proof.
  intros Hr. unfold bar_line. rewrite !one_line_app.
  assert (one_line (axis_label r) = true) as ->.
  { do 11 (destruct r as [|r]; [vm_compute; reflexivity|]). lia. }
  change (one_line "|") with true. change (one_line " ") with true.
  cbn [andb]. apply one_line_concat_text. apply Forall_map.
  apply Forall_forall. intros b _. cbn beta.
  unfold bar_cell. destruct (decide _); reflexivity.
Qed.

(** The rows of the chart are lines when the names are. *)
Lemma one_line_chart_rows (categories : list Category) (buckets : list Z) :
  Forall (fun obj => one_line (name obj) = true) categories ->
  Forall (fun s => one_line s = true) (chart_rows categories buckets).
Proof.
  intros Hall. unfold chart_rows. rewrite !Forall_app. split; [|split].
  - apply Forall_forall. intros line Hline.
    apply list_elem_of_fmap in Hline as (r & -> & Hr).
    apply elem_of_seq in Hr. apply one_line_bar_line. lia.
  - constructor; [apply one_line_dash_line|constructor].
  - apply Forall_forall. intros line Hline.
    apply list_elem_of_fmap in Hline as (k & -> & _).
    apply one_line_name_line. assumption.
Qed.

(** The chart, line by line. *)
Lemma chart_lines_title (body : string) :
  chart_lines (title +:+ body) =
  "Percentage spent by category" :: chart_lines body.
Proof.
  unfold chart_lines, title. rewrite app_assoc_str.
  rewrite lines_from_line by reflexivity.
  rewrite lines_from_newline, rev_rev_app. reflexivity.
Qed.

(** * Further properties of [create_spend_chart] *)

(** ** The text of the chart *)

(** X10: a chart that [create_spend_chart] returns is, after the title,
    these lines joined by line breaks, with no line break after the last:
    the eleven rows of the bars, the row of dashes (four spaces, then three
    dashes for each category and one more), and one row for each character
    position of the longest name, which shows, after five spaces, for each
    category in order the character of its capitalized name at that position
    (a space when the name is shorter) followed by two spaces. *)
Theorem chart_is_bars_dashes_and_names
    (total : float) (categories : list Category) (chart : string) :
  create_spend_chart total categories = Ok chart ->
  exists buckets,
    Forall2 (fun obj b => percentage_spent total obj = Ok b) categories buckets /\
    chart =
      title +:+
      join_lines
        (map (bar_line (max_name_length categories + 12) buckets) (seq 0 11) ++
         [dash_line (length categories)] ++
         map (name_line categories) (seq 0 (max_name_length categories))) /\
    forall obj k,
      cell_text (name_cell obj k) =
      match list_ascii_of_string (capitalize (name obj)) !! k with
      | Some ch => String ch EmptyString
      | None => " "
      end.
Proof.
  intros Hchart.
  destruct (chart_text _ _ _ Hchart) as (buckets & HF & ->).
  exists buckets. split; [assumption|]. split.
  - unfold chart_rows. rewrite longest_name_is_max. reflexivity.
  - intros obj k. unfold name_cell.
    destruct (list_ascii_of_string (capitalize (name obj)) !! k); reflexivity.
Qed.

Lemma chart_is_bars_dashes_and_names_witness :
  create_spend_chart 100 [food15] = Ok food15_chart /\
  exists buckets,
    Forall2 (fun obj b => percentage_spent 100 obj = Ok b) [food15] buckets /\
    food15_chart =
      title +:+
      join_lines
        (map (bar_line (max_name_length [food15] + 12) buckets) (seq 0 11) ++
         [dash_line (length [food15])] ++
         map (name_line [food15]) (seq 0 (max_name_length [food15]))) /\
    forall obj k,
      cell_text (name_cell obj k) =
      match list_ascii_of_string (capitalize (name obj)) !! k with
      | Some ch => String ch EmptyString
      | None => " "
      end.
Proof.
  split; [vm_compute; reflexivity|].
  apply (chart_is_bars_dashes_and_names 100 [food15] food15_chart).
  vm_compute. reflexivity.
Defined.

(** The dashes and the names of two categories with names of different
    lengths. *)
Example dashes_and_names_of_two :
  dash_line 2 = "    -------" /\
  map (name_line [mkCategory "food" 0 0 []; mkCategory "AUTO repair" 0 0 []])
      (seq 0 5) =
    ["     F  A  "; "     o  u  "; "     o  t  "; "     d  o  "; "           "].
Proof. split; vm_compute; reflexivity. Qed.

(** X11: when no name contains a line break, a chart that
    [create_spend_chart] returns is, line by line, the title and then as
    many lines as the longest name has characters, plus twelve, and all
    these lines have the same width: three characters for each category,
    plus five. *)
Theorem chart_lines_have_one_width
    (total : float) (categories : list Category) (chart : string) :
  Forall (fun obj => one_line (name obj) = true) categories ->
  create_spend_chart total categories = Ok chart ->
  exists lines,
    chart_lines chart = "Percentage spent by category" :: lines /\
    length lines = max_name_length categories + 12 /\
    Forall (fun line => one_line line = true /\
                        String.length line = 3 * length categories + 5) lines.
Proof.
  intros Hnames Hchart.
  destruct (chart_text _ _ _ Hchart) as (buckets & HF & ->).
  apply Forall2_length in HF.
  pose proof (one_line_chart_rows categories buckets Hnames) as Hrows.
  exists (chart_rows categories buckets). split; [|split].
  - rewrite chart_lines_title. f_equal.
    unfold chart_rows in *.
    destruct (map (bar_line _ buckets) (seq 0 11)) as [|l ls] eqn:E;
      [discriminate E|].
    apply chart_lines_join. assumption.
  - unfold chart_rows.
    rewrite !length_app, !length_map, !length_seq, longest_name_is_max.
    simpl. lia.
  - apply Forall_and. split; [assumption|].
    unfold chart_rows. rewrite !Forall_app. split; [|split].
    + apply Forall_forall. intros line Hline.
      apply list_elem_of_fmap in Hline as (r & -> & Hr).
      apply elem_of_seq in Hr. rewrite length_bar_line by lia. lia.
    + constructor; [apply length_dash_line|constructor].
    + apply Forall_forall. intros line Hline.
      apply list_elem_of_fmap in Hline as (k & -> & _).
      apply length_name_line.
Qed.

Lemma chart_lines_have_one_width_witness :
  Forall (fun obj => one_line (name obj) = true) [food15] /\
  create_spend_chart 100 [food15] = Ok food15_chart /\
  exists lines,
    chart_lines food15_chart = "Percentage spent by category" :: lines /\
    length lines = max_name_length [food15] + 12 /\
    Forall (fun line => one_line line = true /\
                        String.length line = 3 * length [food15] + 5) lines.
Proof.
  split; [repeat constructor|]. split; [vm_compute; reflexivity|].
  apply (chart_lines_have_one_width 100 [food15] food15_chart).
  - repeat constructor.
  - vm_compute. reflexivity.
Defined.

(** A name with a line break in it breaks the rows of the names: its
    chart has four lines more than the two rows of the names, and lines of
    different widths. *)
Example chart_of_a_name_with_a_line_break :
  (chart ← create_spend_chart 100
             [mkCategory ("a" +:+ newline +:+ "b") 85 15 []];
   mret (map String.length (chart_lines chart))) =
  Ok [28; 8; 8; 8; 8; 8; 8; 8; 8; 8; 8; 8; 8; 8; 5; 2; 8].
Proof. vm_compute. reflexivity. Qed.

(** X12: [build_string] on any array: the title, then the texts of the
    rows joined by line breaks, with no line break after the last row.  The
    text of a row is one space before the first cell from the second row on
    and one more from the eleventh row on, then the cells in order, an empty
    cell being one space; a row without cells adds nothing. *)
Theorem build_string_joins_the_rows (chart : list (list (option cell))) :
  build_string chart = title +:+ join_lines (imap row_text chart) /\
  forall index c cells,
    row_text index (c :: cells) =
    (if decide (0 < index) then " " else "") +:+
    (if decide (10 <= index) then " " else "") +:+
    concat_text (map cell_text (c :: cells)).
Proof.
  split.
  - rewrite build_string_eq. f_equal.
    rewrite (rows_text_join (length chart) 0 chart) by reflexivity.
    reflexivity.
  - intros index c cells. unfold row_text, row_padding.
    cbn [map concat_text]. rewrite !app_assoc_str. reflexivity.
Qed.

(** ** The failures of the chart *)

(** X13: [create_spend_chart] returns a chart exactly when the list is not
    empty and every category has a bucket.  Otherwise it raises: on the
    empty list the error of [max]; else the error of the first category, in
    list order, that has no bucket (a division by zero, or [math.floor] of
    an infinity or of NaN).  It never raises an index error: every cell it
    writes is inside the array. *)
Theorem chart_fails_with_first_bad_category
    (total : float) (categories : list Category) :
  match create_spend_chart total categories with
  | Ok _ =>
      categories <> [] /\
      Forall (fun obj => exists p, percentage_spent total obj = Ok p) categories
  | Raise e =>
      e <> IndexError /\
      (categories = [] /\ e = ValueError \/
       exists k obj,
         categories !! k = Some obj /\
         percentage_spent total obj = Raise e /\
         forall j obj', j < k -> categories !! j = Some obj' ->
                        exists p, percentage_spent total obj' = Ok p)
  end.
Proof.
  destruct categories as [|c0 cs].
  { simpl. split; [discriminate|]. left. auto. }
  set (categories := c0 :: cs).
  assert (Hne : categories <> []) by discriminate.
  unfold create_spend_chart.
  rewrite build_array_eq, py_range_columns by assumption.
  pose proof (plot_loop_all total categories (length categories) ltac:(lia)) as Hloop.
  cbv zeta in Hloop.
  destruct (for_each _ _ _) as [arr|e].
  - destruct Hloop as (_ & Hall & _). rewrite take_ge in Hall by lia.
    simpl. auto.
  - destruct Hloop as (k & obj & Hk & Hobj & Hp & Hall). simpl.
    split.
    + destruct (percentage_spent_raises _ _ _ Hp) as [->|[->| ->]]; discriminate.
    + right. exists k, obj. split; [assumption|]. split; [assumption|].
      intros j obj' Hj Hobj'.
      rewrite Forall_lookup in Hall. apply (Hall j).
      rewrite lookup_take_lt by lia. assumption.
Qed.

(** The three errors of a bucket, on one chart each. *)
Example chart_errors :
  create_spend_chart 0 [food15] = Raise ZeroDivisionError /\
  create_spend_chart 1e-320 [food15] = Raise OverflowError /\
  create_spend_chart nan [food15] = Raise ValueError /\
  create_spend_chart infinity [mkCategory "A" 0 infinity []] = Raise ValueError.
Proof. repeat split; vm_compute; reflexivity. Qed.

(** X14: no chart before the first withdrawal: when no withdrawal and no
    transfer has gone through since the start of the program (only
    creations, deposits and refused calls), [Category.total_withdrawn] is
    still zero and [create_spend_chart] on any non-empty list of objects of
    the state raises the division by zero, leaving the state as it is. *)
Theorem chart_before_any_withdrawal_fails
    (cs : list call) (rs : list bool) (w : World) (categories : list ref) :
  run cs initial = Some (rs, w) ->
  withdrawn_amounts (fun _ => true) cs rs = [] ->
  categories <> [] ->
  Forall (fun i => i < length (objects w)) categories ->
  total_withdrawn w = 0%float /\
  spend_chart categories w = Some (Raise ZeroDivisionError, w).
Proof.
  intros Hrun Hnone Hne Hlive.
  destruct (run_withdrawn_sums _ _ _ _ Hrun) as [Ht _].
  rewrite Hnone in Ht. simpl in Ht.
  split; [assumption|].
  unfold spend_chart.
  assert (Hobjs : is_Some (mapM (fun i => objects w !! i) categories)).
  { apply mapM_is_Some. eapply Forall_impl; [exact Hlive|].
    intros i Hi. apply lookup_lt_is_Some_2. assumption. }
  destruct Hobjs as [objs Hobjs]. rewrite Hobjs. simpl.
  rewrite Ht, chart_zero_total; [reflexivity| |reflexivity].
  apply length_mapM in Hobjs.
  destruct objs; [|discriminate].
  destruct categories; [contradiction|discriminate].
Qed.

Lemma chart_before_any_withdrawal_fails_witness :
  run [New "Food"; Deposit 0 900 "deposit"; Withdraw 0 5000 "car"] initial =
    Some ([true; true; false],
          mkWorld 0 [mkCategory "Food" 900 0 [Entry 900 "deposit"]]) /\
  withdrawn_amounts (fun _ => true)
    [New "Food"; Deposit 0 900 "deposit"; Withdraw 0 5000 "car"]
    [true; true; false] = [] /\
  [0] <> [] /\
  Forall (fun i => i < 1) [0] /\
  total_withdrawn (mkWorld 0 [mkCategory "Food" 900 0 [Entry 900 "deposit"]])
    = 0%float /\
  spend_chart [0] (mkWorld 0 [mkCategory "Food" 900 0 [Entry 900 "deposit"]]) =
    Some (Raise ZeroDivisionError,
          mkWorld 0 [mkCategory "Food" 900 0 [Entry 900 "deposit"]]).
Proof.
  split; [vm_compute; reflexivity|]. split; [reflexivity|].
  split; [discriminate|]. split; [repeat constructor|].
  apply (chart_before_any_withdrawal_fails
           [New "Food"; Deposit 0 900 "deposit"; Withdraw 0 5000 "car"]
           [true; true; false]
           (mkWorld 0 [mkCategory "Food" 900 0 [Entry 900 "deposit"]]) [0]);
    [vm_compute; reflexivity|reflexivity|discriminate|repeat constructor].
Defined.

(** * The chart of a session *)

(** ** The buckets *)

(** X15: the bucket of a category whose amount withdrawn is between zero
    and the total, the total being positive and finite, is one of 0, 10,
    ..., 100: the division, the multiplication by 100 and [math.floor]
    raise nothing, and the binary64 roundings of the quotient and of the
    product do not take them above 1 and above 100. *)
Theorem bucket_is_between_0_and_100 (total : float) (obj : Category) :
  (0 <=? amount_withdrawn obj)%float = true ->
  (amount_withdrawn obj <=? total)%float = true ->
  (0 <? total)%float = true ->
  is_finite total = true ->
  exists k, percentage_spent total obj = Ok (10 * k)%Z /\ (0 <= k <= 10)%Z.
Proof.
  intros H0 Hle Hpos Hfin.
  destruct (math_floor_quotient _ _ H0 Hle Hpos Hfin) as (f & Hf & Hrange).
  unfold percentage_spent, float_truediv.
  rewrite (ltb_0_neq_0 _ Hpos), !result_bind_eq, Hf.
  exists (f / 10)%Z. split.
  - simpl. f_equal. lia.
  - split; [apply Z.div_pos; lia|].
    apply Z.div_le_upper_bound; lia.
Qed.

Lemma bucket_is_between_0_and_100_witness :
  (0 <=? amount_withdrawn food_final)%float = true /\
  (amount_withdrawn food_final <=? 255.55000000000001)%float = true /\
  (0 <? 255.55000000000001)%float = true /\
  is_finite 255.55000000000001 = true /\
  exists k, percentage_spent 255.55000000000001 food_final = Ok (10 * k)%Z /\
            (0 <= k <= 10)%Z.
Proof.
  split; [reflexivity|]. split; [reflexivity|]. split; [reflexivity|].
  split; [reflexivity|].
  apply (bucket_is_between_0_and_100 255.55000000000001 food_final);
    reflexivity.
Defined.

(** The buckets of the two categories of the sample session: 155.55 and
    100 out of 255.55. *)
Example buckets_of_food_and_clothing :
  percentage_spent 255.55000000000001 food_final = Ok 60%Z /\
  percentage_spent 255.55000000000001 clothing_final = Ok 30%Z.
Proof. split; vm_compute; reflexivity. Qed.

(** Outside these conditions a bucket can be above 100 or negative. *)
Example buckets_out_of_range :
  percentage_spent 50 (mkCategory "A" 0 100 []) = Ok 200%Z /\
  percentage_spent (-50) (mkCategory "A" 0 100 []) = Ok (-200)%Z.
Proof. split; vm_compute; reflexivity. Qed.

(** X16: the two ends of the scale.  A category whose amount withdrawn
    equals the total, the total being finite and not zero, has the bucket
    100; a category with nothing withdrawn has the bucket 0 whenever the
    total is neither zero nor NaN. *)
Theorem bucket_of_all_and_of_nothing (total : float) (obj : Category) :
  (total =? 0)%float = false ->
  (is_finite total = true ->
   (amount_withdrawn obj =? total)%float = true ->
   percentage_spent total obj = Ok 100%Z) /\
  (is_nan total = false ->
   (amount_withdrawn obj =? 0)%float = true ->
   percentage_spent total obj = Ok 0%Z).
Proof.
  intros Hnz. unfold percentage_spent, float_truediv. rewrite Hnz.
  split.
  - intros Hfin Heq. rewrite (eqb_eq_nonzero _ _ Heq Hnz).
    rewrite !result_bind_eq, (div_diag _ Hfin Hnz). reflexivity.
  - intros Hnan Hzero.
    destruct (div_zero_mul_100 _ _ Hzero Hnz Hnan) as [s Hs].
    rewrite !result_bind_eq. unfold math_floor. rewrite Hs. reflexivity.
Qed.

Lemma bucket_of_all_and_of_nothing_witness :
  ((100 =? 0)%float = false /\
   is_finite 100 = true /\
   (amount_withdrawn clothing_final =? 100)%float = true /\
   percentage_spent 100 clothing_final = Ok 100%Z) /\
  ((100 =? 0)%float = false /\
   is_nan 100 = false /\
   (amount_withdrawn (mkCategory "Auto" 50 0 [Entry 50 "deposit"]) =? 0)%float = true /\
   percentage_spent 100 (mkCategory "Auto" 50 0 [Entry 50 "deposit"]) = Ok 0%Z).
Proof.
  split.
  - split; [reflexivity|]. split; [reflexivity|]. split; [reflexivity|].
    apply (proj1 (bucket_of_all_and_of_nothing 100 clothing_final eq_refl));
      reflexivity.
  - split; [reflexivity|]. split; [reflexivity|]. split; [reflexivity|].
    apply (proj2 (bucket_of_all_and_of_nothing 100
                    (mkCategory "Auto" 50 0 [Entry 50 "deposit"]) eq_refl));
      reflexivity.
Defined.

(** ** The whole program *)

(** X17: no category is above the total.  After any sequence of calls
    from the start of the program in which no withdrawal and no transfer is
    given a negative amount (or NaN), [amount_withdrawn <=
    Category.total_withdrawn] holds of every object: both are running float
    sums, of some and of all the amounts, and binary64 addition is
    monotone. *)
Theorem no_category_is_above_the_total
    (cs : list call) (rs : list bool) (w : World) :
  Forall nonneg_withdrawal cs ->
  run cs initial = Some (rs, w) ->
  forall i x, objects w !! i = Some x ->
    (0 <=? amount_withdrawn x)%float = true /\
    (amount_withdrawn x <=? total_withdrawn w)%float = true.
Proof.
  intros Hcs Hrun.
  assert (Hinv : withdrawn_nonneg w /\ withdrawn_within_total w).
  { apply (run_within_total cs initial rs w Hcs); [|assumption].
    split; [split; [reflexivity|]|]; intros i x Hx; destruct i; discriminate Hx. }
  destruct Hinv as [[_ Hn] Hw]. intros i x Hx. split; eauto.
Qed.

Lemma no_category_is_above_the_total_witness :
  Forall nonneg_withdrawal food_clothing /\
  run food_clothing initial =
    Some ([true; true; true; true; true; true; true; false], food_clothing_final) /\
  forall i x, objects food_clothing_final !! i = Some x ->
    (0 <=? amount_withdrawn x)%float = true /\
    (amount_withdrawn x <=? total_withdrawn food_clothing_final)%float = true.
Proof.
  split; [exact food_clothing_nonneg|].
  split; [vm_compute; reflexivity|].
  apply (no_category_is_above_the_total food_clothing
           [true; true; true; true; true; true; true; false] food_clothing_final
           food_clothing_nonneg).
  vm_compute. reflexivity.
Defined.

(** With a negative withdrawal the total falls below the amount withdrawn
    of the other categories. *)
Example negative_withdrawal_lowers_total :
  run [New "A"; New "B"; Withdraw 0 (-5) ""] initial =
    Some ([true; true; true],
          mkWorld (-5) [mkCategory "A" 5 (-5) [Entry 5 ""]; mkCategory "B" 0 0 []]) /\
  (0 <=? -5)%float = false.
Proof. split; vm_compute; reflexivity. Qed.

(** X18: the chart of a session.  After any sequence of calls from the
    start of the program in which no withdrawal and no transfer is given a
    negative amount, once the total withdrawn is positive (and finite),
    [create_spend_chart] on any non-empty list of objects of the state
    raises nothing and changes nothing: it returns the title and the rows
    of the chart, every category has a bucket among 0, 10, ..., 100, and
    its bar shows the marker at row [r] (row 0 the "100" row, row 10 the
    "0" row) exactly when [100 - r * 10 <= bucket]. *)
Theorem chart_of_a_session
    (cs : list call) (rs : list bool) (w : World) (categories : list ref) :
  Forall nonneg_withdrawal cs ->
  run cs initial = Some (rs, w) ->
  (0 <? total_withdrawn w)%float = true ->
  is_finite (total_withdrawn w) = true ->
  categories <> [] ->
  Forall (fun i => i < length (objects w)) categories ->
  exists objs buckets,
    Forall2 (fun i obj => objects w !! i = Some obj) categories objs /\
    Forall2 (fun obj b => percentage_spent (total_withdrawn w) obj = Ok b)
            objs buckets /\
    spend_chart categories w =
      Some (Ok (title +:+ join_lines (chart_rows objs buckets)), w) /\
    forall b, b ∈ buckets ->
      (exists k, b = (10 * k)%Z /\ (0 <= k <= 10)%Z) /\
      forall r, r <= 10 ->
        bar_cell (longest_name_of objs + 12) b r = marker b r.
Proof.
  intros Hcs Hrun Hpos Hfin Hne Hlive.
  assert (Hinv : withdrawn_nonneg w /\ withdrawn_within_total w).
  { apply (run_within_total cs initial rs w Hcs); [|assumption].
    split; [split; [reflexivity|]|]; intros i x Hx; destruct i; discriminate Hx. }
  destruct Hinv as [[_ Hn] Hw].
  assert (Hobjs : is_Some (mapM (fun i => objects w !! i) categories)).
  { apply mapM_is_Some. eapply Forall_impl; [exact Hlive|].
    intros i Hi. apply lookup_lt_is_Some_2. assumption. }
  destruct Hobjs as [objs Hobjs].
  pose proof (length_mapM _ _ _ Hobjs) as Hlen.
  apply mapM_Some in Hobjs as HF.
  assert (Hbucket : forall obj, obj ∈ objs ->
            exists k, percentage_spent (total_withdrawn w) obj = Ok (10 * k)%Z /\
                      (0 <= k <= 10)%Z).
  { intros obj Hobj. apply list_elem_of_lookup in Hobj as [j Hj].
    destruct (Forall2_lookup_r _ _ _ _ _ HF Hj) as (i & _ & Hi).
    destruct (math_floor_quotient _ _ (Hn _ _ Hi) (Hw _ _ Hi) Hpos Hfin)
      as (f & Hf & Hrange).
    unfold percentage_spent, float_truediv.
    rewrite (ltb_0_neq_0 _ Hpos), !result_bind_eq, Hf.
    exists (f / 10)%Z. split; [simpl; f_equal; lia|].
    split; [apply Z.div_pos; lia|apply Z.div_le_upper_bound; lia]. }
  destruct (chart_returns (total_withdrawn w) objs) as [chart Hchart].
  { destruct objs; [|discriminate]. destruct categories; [contradiction|discriminate]. }
  { apply Forall_forall. intros obj Hobj.
    destruct (Hbucket obj Hobj) as (k & Hk & _). eauto. }
  destruct (chart_text _ _ _ Hchart) as (buckets & HB & ->).
  exists objs, buckets. split; [assumption|]. split; [assumption|]. split.
  - unfold spend_chart. rewrite Hobjs. simpl. rewrite Hchart. reflexivity.
  - intros b Hb. apply list_elem_of_lookup in Hb as [j Hj].
    destruct (Forall2_lookup_r _ _ _ _ _ HB Hj) as (obj & Hobj & Hp).
    destruct (Hbucket obj) as (k & Hk & Hrange).
    { apply list_elem_of_lookup. eauto. }
    assert (b = (10 * k)%Z) as Eb by congruence.
    split; [eauto|].
    intros r Hr.
    apply (bar_cell_marker _ (total_withdrawn w) obj); [assumption|lia|assumption|lia].
Qed.

Lemma chart_of_a_session_witness :
  Forall nonneg_withdrawal food_clothing /\
  run food_clothing initial =
    Some ([true; true; true; true; true; true; true; false], food_clothing_final) /\
  (0 <? total_withdrawn food_clothing_final)%float = true /\
  is_finite (total_withdrawn food_clothing_final) = true /\
  [1; 0] <> [] /\
  Forall (fun i => i < length (objects food_clothing_final)) [1; 0] /\
  exists objs buckets,
    Forall2 (fun i obj => objects food_clothing_final !! i = Some obj) [1; 0] objs /\
    Forall2 (fun obj b =>
               percentage_spent (total_withdrawn food_clothing_final) obj = Ok b)
            objs buckets /\
    spend_chart [1; 0] food_clothing_final =
      Some (Ok (title +:+ join_lines (chart_rows objs buckets)),
            food_clothing_final) /\
    forall b, b ∈ buckets ->
      (exists k, b = (10 * k)%Z /\ (0 <= k <= 10)%Z) /\
      forall r, r <= 10 ->
        bar_cell (longest_name_of objs + 12) b r = marker b r.
Proof.
  split; [exact food_clothing_nonneg|].
  split; [vm_compute; reflexivity|].
  split; [reflexivity|]. split; [reflexivity|]. split; [discriminate|].
  split; [repeat constructor|].
  apply (chart_of_a_session food_clothing
           [true; true; true; true; true; true; true; false]
           food_clothing_final [1; 0] food_clothing_nonneg);
    [vm_compute; reflexivity|reflexivity|reflexivity|discriminate
    |repeat constructor].
Defined.

(** The chart of the sample session, for the list [[clothing, food]]. *)
Example chart_of_food_and_clothing :
  spend_chart [1; 0] food_clothing_final =
    Some (Ok (title +:+
              join_lines
                ["100|       "; " 90|       "; " 80|       "; " 70|       ";
                 " 60|    o  "; " 50|    o  "; " 40|    o  "; " 30| o  o  ";
                 " 20| o  o  "; " 10| o  o  "; "  0| o  o  "; "    -------";
                 "     C  F  "; "     l  o  "; "     o  o  "; "     t  d  ";
                 "     h     "; "     i     "; "     n     "; "     g     "]),
          food_clothing_final).
Proof. vm_compute. reflexivity. Qed.


(** X19: the bars are ordered like the amounts.  Of two categories with
    [0 <= amount_withdrawn] the one that has withdrawn less does not get the
    higher bar: when neither amount is above the total, and the total is
    positive and finite, both buckets exist, the bucket of the smaller
    amount is not above the other, and every row where the first bar has
    its marker the second has it too.  The binary64 division,
    multiplication and floor are all monotone. *)
Theorem bars_are_ordered_like_amounts (total : float) (obj1 obj2 : Category) :
  (0 <=? amount_withdrawn obj1)%float = true ->
  (amount_withdrawn obj1 <=? amount_withdrawn obj2)%float = true ->
  (amount_withdrawn obj2 <=? total)%float = true ->
  (0 <? total)%float = true ->
  is_finite total = true ->
  exists b1 b2,
    percentage_spent total obj1 = Ok b1 /\
    percentage_spent total obj2 = Ok b2 /\
    (0 <= b1 <= b2)%Z /\ (b2 <= 100)%Z /\
    forall r, marker b1 r = Some (CStr "o") -> marker b2 r = Some (CStr "o").
Proof.
  intros H1 H12 H2 Hpos Hfin.
  destruct (math_floor_quotient_mono _ _ _ H1 H12 H2 Hpos Hfin)
    as (f1 & f2 & Hf1 & Hf2 & Hle & H100).
  unfold percentage_spent, float_truediv.
  rewrite (ltb_0_neq_0 _ Hpos), !result_bind_eq, Hf1, Hf2.
  exists (f1 / 10 * 10)%Z, (f2 / 10 * 10)%Z.
  split; [reflexivity|]. split; [reflexivity|].
  assert (Hdiv : (f1 / 10 <= f2 / 10)%Z) by (apply Z.div_le_mono; lia).
  assert (H0 : (0 <= f1 / 10)%Z) by (apply Z.div_pos; lia).
  assert (H10 : (f2 / 10 <= 10)%Z) by (apply Z.div_le_upper_bound; lia).
  split; [lia|]. split; [lia|].
  intros r. unfold marker.
  destruct (decide (100 - Z.of_nat r * 10 <= f1 / 10 * 10)%Z); [|discriminate].
  intros _. rewrite decide_True by lia. reflexivity.
Qed.

Lemma bars_are_ordered_like_amounts_witness :
  (0 <=? amount_withdrawn clothing_final)%float = true /\
  (amount_withdrawn clothing_final <=? amount_withdrawn food_final)%float = true /\
  (amount_withdrawn food_final <=? 255.55000000000001)%float = true /\
  (0 <? 255.55000000000001)%float = true /\
  is_finite 255.55000000000001 = true /\
  exists b1 b2,
    percentage_spent 255.55000000000001 clothing_final = Ok b1 /\
    percentage_spent 255.55000000000001 food_final = Ok b2 /\
    (0 <= b1 <= b2)%Z /\ (b2 <= 100)%Z /\
    forall r, marker b1 r = Some (CStr "o") -> marker b2 r = Some (CStr "o").
Proof.
  split; [reflexivity|]. split; [reflexivity|]. split; [reflexivity|].
  split; [reflexivity|]. split; [reflexivity|].
  apply (bars_are_ordered_like_amounts 255.55000000000001
           clothing_final food_final); reflexivity.
Defined.
